(* ===== verification/_CoqProject ===== *)
-Q . S2P
Prelude.v
JsString.v
Uri.v
Dom.v
Types.v
Vdom.v
TextInputEditable.v
Component.v
ExpressionTable.v
Render.v
Runtime.v
Independence.v
Gestures.v
Session.v
Lifecycle.v
EventLoop.v
Race.v
Unmount.v
Store.v
ClosedLoop.v
AsyncStore.v
Order.v
