(* ===== verification/Prelude.v ===== *)
(** * Verification of the expression table of Cookie-AutoDelete

    The program under verification is the in-place editor of the expression
    list of the Cookie-AutoDelete browser extension: two React components,

    - [src/ui/common_components/ExpressionTable.tsx]: the class component
      [ExpressionTable].  It owns the edit session (the React state
      [EmptyState]: [expressionInput], [editMode], [id], [invalid]), the
      instance field [editInput] (a ref to the DOM input of the row under
      edit), and the methods [startEditing], [componentDidUpdate],
      [clearEdit], [commitEdit], [validateEdit], [setInvalid] and [render];
    - [src/ui/common_components/TextInputEditable.tsx]: the function
      component [TextInputEditable] (with [TextInputTitle]) that renders one
      row either as an editable input or as read-only text and forwards the
      user's gestures to the callbacks it is given.

    Data flows one way: state and props are rendered to a tree; a gesture on
    the tree calls a closure created by [render]; the closure calls a method,
    which reads [this.state], [this.props] and [this.editInput], mutates the
    DOM input, queues state updates with [setState], dispatches Redux
    actions and may start a timer ([sleep(200)]); React then merges the
    queued updates, renders again, commits the tree (the ref callback
    re-attaches [this.editInput]) and calls [componentDidUpdate].

    ** Files, in the order of their dependencies

    - [Prelude] (this file): the state monad [stateM] in which the methods
      are written, its laws and rewrite database, the tactics of the
      development, and the lemmas on [find], [filter] and sorted lists that
      the components share.
    - [JsString]: JavaScript truthiness and [||] on strings, [trim],
      [toLowerCase], [includes].
    - [Uri]: [decodeURIComponent], with [None] for the [URIError].
    - [Dom]: the part of the DOM the methods touch: the input element with
      its custom validity message and the class list of its parent, and the
      focus of the document.
    - [Types]: the typings the sources import ([Expression], [ListType],
      the Redux actions) and the class [Env] of the functions imported from
      other files (the validator [validateExpressionDomain], the message
      catalogue, the id generator).
    - [Vdom]: the tree that [render] returns, and the queries on it (the
      click, change and key handlers, the refs, the texts).
    - [TextInputEditable]: the row component, attribute by attribute, and
      its contract: which gestures it forwards and what it shows.
    - [Component]: the instance of the class as one record [World]
      ([this.state], [this.props], [this.editInput], the mounted input, the
      document, the log of dispatched actions, the timers, React's queue of
      [setState] updates), the primitive statements of the methods, the
      dispatch props ([interface DispatchProps], [mapDispatchToProps] and
      the [connect] of the last line), the messages [Msg] (one constructor
      per closure of [render]), and the sample table of the examples.
    - [ExpressionTable]: one definition per method, statement by statement;
      the equation of each method on each of its branches; the frame
      [framed] (what no method touches); the contract of the handlers.
    - [Render]: [ExpressionTable.render] and its contract: the gestures the
      table offers, exclusivity of the editable row, when [render] throws.
    - [Runtime]: React and the browser around the methods: the update after
      a handler, the commit with the ref callback and [autoFocus], timers,
      the transition function [step] over the events [Event], the reachable
      worlds and the invariant [wf], with the proof that every event keeps
      it.
    - [Independence]: the transition function reads the environment
      through the validator only; labels and generated names do not matter.
    - [Gestures]: the equation of [step] on each gesture (start, typing,
      save accepted and refused, cancel, the teardown 200 ms after a save),
      the invariant of the reachable worlds spelled out and what follows
      from it.
    - [Session]: the controller of the specification as an abstract machine
      ([EditSession], [astep]), the refinement theorem (the component
      implements the machine on every sequence of events that the screen
      offers), and the scenario of the specification run on the component.
    - [Lifecycle]: a session from its start to its end: the switch to
      another record, new props during a session, the teardown that comes
      whatever happens after a save, and the invariants of the session that
      the abstract machine gives to the component.
    - [EventLoop]: the firing of the promises that are due as the loop of
      the browser, one task a turn ([drain], with fuel), and its
      termination.
    - [Race]: the answer of the store and the teardown after a save, in
      either order.
    - [Unmount]: the component leaves the screen while a teardown is
      pending.
    - [Store]: the Redux store as an interface (the class [Store] with the
      laws [StoreLaws]), two reducers that implement it, and the proof
      that the laws determine the records of the answer.
    - [ClosedLoop]: the closed loop [closedStep] of table and store, and
      the theorems on it, for any store of the interface; when the screen
      offers a click; the refinement of [Session] through the store.
    - [AsyncStore]: the store at a distance: commands and answers in
      flight ([Net], [nstep]), the invariant that holds under any schedule,
      and the proof that store and table catch up.
    - [Order]: the table up to the order of its records, as an equivalence
      with its [Proper] instances, and the proof that the controller with
      any two stores of the interface is in equivalent states after the
      same gestures.

    ** Modelling choices

    - Strings are [string], sequences of bytes.  JavaScript strings are
      sequences of UTF-16 code units; the model agrees with the code on ASCII
      text: [trim] removes the ASCII white space, [toLowerCase] folds the
      ASCII letters, and [decodeURIComponent] returns the decoded bytes when
      the escapes form well-formed UTF-8 and throws otherwise.
    - [string | undefined] is [option string]; the truthiness of a string is
      [truthy] (non-empty), of an optional string [truthyO].
    - [this.editInput], of type [HTMLInputElement | undefined | null], is a
      pointer: [editInput : option InputRef] says whether it is set, and the
      element it points to lives in [mounted], where the DOM keeps it.  The
      methods mutate the element through the pointer ([onEditInput]); React
      mounts and unmounts it ([reconcile]).
    - A method is a computation in [stateM World]: it returns a value and
      the next world.  [setState] only queues a partial state: [this.state]
      changes when React flushes the queue, after the handler has returned.
    - An exception is a value: [render] returns [option], [None] for the
      [URIError] of [decodeURIComponent], and a component whose [render]
      threw is [Crashed] for good.
    - Time is a clock in milliseconds; [sleep(200).then(f)] is a [Timer] due
      200 ms after the clock; an [EvElapse] event advances the clock and runs
      the tasks that are due in the order of the queue.
    - The functions imported from other files are the fields of the class
      [Env]: every theorem holds for any validator, message catalogue and id
      generator.  The generator of the model names a row without id after
      its position in the table; [shortid.generate()] returns a new name at
      every call.  The names are attributes of the tree that nothing reads:
      [Independence.step_env] shows that the transitions are the same for
      any two environments with the same validator.
    - For the table the Redux store is the log [dispatched].  In [Runtime]
      the props that the store computes come back as [EvProps] events with
      arbitrary props, at any time.  In [ClosedLoop] the loop is closed: the
      store is any reducer that satisfies [StoreLaws], and its answer to
      the commands of a handler is rendered before the next gesture.  In
      [AsyncStore] the store is at a distance: it applies the commands of
      the log in their order and the table renders its answers in their
      order, each at any later time.
    - A component that has left the screen is [Unmount.Gone]: its instance
      stays, with the promises that were pending, and React ignores its
      [setState].

    ** Bounds and fuel

    Every method is straight-line code over finite lists, [render] is
    structural on the list of expressions, [decodeURIComponent] is
    structural on the string, and an event is one call of [step]: these
    definitions are total functions that evaluate on concrete inputs, and
    every theorem of the form "the handler returns" is unconditional.  The
    theorems on sequences of events hold for sequences of any length.  The
    sources have no loop and no recursion of their own (the one iteration
    is [expressions.map] in [render]).  The one loop of the development is
    the event loop of the browser, [EventLoop.drain], which runs the
    promises that are due one at a time and reads the queue again after
    each; it takes fuel, one unit a turn.  As many units as promises are due
    are enough and fewer are not ([event_loop_terminates],
    [event_loop_needs_fuel]): [clearEdit], the only task, starts no
    promise.  [Runtime.elapse] is the same without fuel, as a fold over the
    promises due, and the loop ends where it does.

    ** What is proved

    - The contract of each handler ([ExpressionTable]): what a save
      dispatches and schedules when the validator accepts the buffer, that
      it dispatches nothing and records the error when the validator refuses
      it, that it does nothing outside a session; what cancel and start
      queue; the focus rule of [componentDidUpdate]; the remove and toggle
      buttons; the validation marks on the input.
    - The contract of [render] and of the field ([Render],
      [TextInputEditable]): the gestures offered row by row, one editable
      row at most when the ids are unique, the texts shown and their length
      (two characters less than the stored text for each escape), the keys
      of the rows and when they are distinct, and the exact condition under
      which [render] throws.
    - The invariant of the reachable worlds ([Runtime], [Gestures]): no
      update is pending between events; the timers are due within 200 ms and
      queued in order; the ref is set exactly when an input is mounted,
      which is exactly when a row is editable; the focus is on an element
      that exists; [render] does not throw.  Hence a save that passes its
      guards always finds its record.
    - The gestures end to end ([Gestures]): the world after a start, a
      keystroke, a save (accepted or refused), a cancel, and after the
      teardown timer; keys do nothing; a keystroke stores the decoded text;
      a text ending in a percent sign takes the component down; a teardown
      timer ends whatever session is open when it fires; new props without
      the record under edit unmount the input and leave the state in edit
      mode; along any events the log of actions keeps what was sent, in
      order, and grows by one action per event at most.
    - Refinement ([Session]): along every sequence of offered events the
      component and the abstract session machine agree on the session, the
      table, the actions and the timers, and the component goes down exactly
      when the machine has no next state; worlds that differ in the DOM only
      behave alike.
    - The life of a session ([Lifecycle]): a start during a session
      switches it and replaces the input; new props keep the session and
      replace the input exactly when the key of its row changes, as it does
      when the store applies the update of a save; after a save, the
      answer of the store and 200 ms the table is idle and shows what was
      typed; a pending teardown runs
      at the latest when its time has come, along any events; the state is
      [new EmptyState()] whenever the table is not in edit mode, and a
      teardown is pending only if an update was sent.  The last two are
      proved on the abstract machine and carried over by the refinement.
    - The event loop ([EventLoop]): the loop over the promises that are due
      terminates, within as many turns as promises are due, in the world
      of [step] for the same time.
    - The race after a save ([Race]): the answer of the store and the
      teardown come in either order; both orders end in the same session,
      on the same table, with the same log, timers and clock, and differ
      in the focus at most ([race_settles], [race_focus]).
    - The unmount ([Unmount]): a teardown that fires after the table has
      left the screen changes nothing, and the commands sent before stay
      sent ([gone_quiet], [gone_log]).
    - The environment ([Independence]): [step], [steps] and [mount] are the
      same for any two environments with the same validator.
    - The table and the store together ([ClosedLoop]), for any store that
      satisfies the laws of [Store]: the ids stay unique, so one row at
      most is editable and the ref is on the record under edit, in every
      world of the loop; a save comes back from the store as the text that
      was typed, with the other records untouched; the remove button of
      the row under edit leaves a session that the screen offers no way to
      save or cancel, and its toggle button replaces the input; no
      rendering throws as long as the texts of the table at the start and
      the texts typed can be decoded; the loop refines the controller of
      the specification with the same store around it.
    - The store at a distance ([AsyncStore]), for any store that satisfies
      the laws and any schedule of gestures, commands applied and answers
      rendered: the store holds the first list with a prefix of the log
      applied in order, the table shows a list that the store held, and
      the lists in flight are those in between ([net_invariant]); the ids
      stay unique and one row at most is editable ([net_exclusive]); a
      record that was removed does not come back and a late save of it is
      dropped ([removed_for_good], [late_update_ignored]); a move that can
      be made does not make a rendering throw ([net_runs]); left alone,
      the store and the table catch up, on the list after the whole log,
      with the session untouched ([catch_up]); the closed loop is the
      schedule that catches up after every gesture ([closedStep_eager]).
    - The order of the records ([Order]): the laws of [Store] leave the
      order of the answer open, and the controller does not depend on it:
      with two stores that satisfy the laws, started from tables with the
      same records, it is in the same session with the same buffer, has
      sent the same commands and holds the same records after any
      gestures ([stores_agree], [tables_agree]); [stores_differ_in_order]
      has two such stores whose tables differ in order after a save.

    ** Not modelled

    The components [IconButton], [ExpressionOptions] and [SettingsTooltip]
    and the helper [moveCaretToEnd] (they are opaque elements and
    attributes of the tree), the reducers of the Redux store (they are not
    in the sources: [Store] has what the table needs of them as an
    interface), a transport between table and store that loses or
    reorders messages ([AsyncStore] delays them and keeps their order, as
    the specification assumes), the content of the message catalogue,
    style values (they are carried in the tree and no theorem reads them),
    the browser's validation bubble behind [checkValidity], the focus that
    a click gives to the button clicked, non-ASCII white space and case
    folding, and React features the component does not use (hooks,
    context, error boundaries, concurrent rendering).  Every line of code
    of the two source files has its definition; what has none is the
    licence text, the imports, the [forwardRef] wrapper of the export (the
    ref is the attribute [ARef] of the input), and the type aliases
    [ExpressionTableProps] and [TitleProps], which name a combination of
    props that the model passes as arguments.  Nothing more of the sources
    is left to model: the files after [Render] are about the code in its
    environment (React, the browser, the store).
*)

From stdpp Require Export base tactics option list strings sorting.

Set Default Proof Using "Type".

(** * The state monad of handlers *)

(** A computation that reads and writes a state of type [S] and returns an
    [A].  Handlers of the component are values of [stateM World A]. *)
Definition stateM (S A : Type) : Type := S → A * S.

#[export] Instance state_ret {S} : MRet (stateM S) := λ A a s, (a, s).
#[export] Instance state_bind {S} : MBind (stateM S) :=
  λ A B f m s, let '(a, s') := m s in f a s'.
#[export] Instance state_fmap {S} : FMap (stateM S) :=
  λ A B f m s, let '(a, s') := m s in (f a, s').

Definition get {S} : stateM S S := λ s, (s, s).
Definition gets {S A} (f : S → A) : stateM S A := λ s, (f s, s).
Definition put {S} (s : S) : stateM S unit := λ _, (tt, s).
Definition modify {S} (f : S → S) : stateM S unit := λ s, (tt, f s).

(** [if (c) { m }] with no else branch. *)
Definition when {S} (c : bool) (m : stateM S unit) : stateM S unit :=
  if c then m else mret tt.

(** The value and the final state of a run. *)
Definition evalState {S A} (m : stateM S A) (s : S) : A := (m s).1.
Definition execState {S A} (m : stateM S A) (s : S) : S := (m s).2.

(** * Hint databases and tactics *)

(** [cad]: facts about the component used by [auto]; [cad_run]: rewriting
    rules that run a handler one statement at a time. *)
Create HintDb cad discriminated.
Create Rewrite HintDb cad_run.

Section monad_laws.
Context {S : Type}.
Implicit Types s : S.

Lemma run_ret {A} (a : A) s : mret (M := stateM S) a s = (a, s).
Proof. done. Qed.

Lemma run_bind {A B} (m : stateM S A) (f : A → stateM S B) s :
  (m ≫= f) s = f (m s).1 (m s).2.
Proof. unfold mbind, state_bind. by destruct (m s). Qed.

Lemma run_fmap {A B} (f : A → B) (m : stateM S A) s :
  (f <$> m) s = (f (m s).1, (m s).2).
Proof. unfold fmap, state_fmap. by destruct (m s). Qed.

Lemma run_get s : get s = (s, s).
Proof. done. Qed.

Lemma run_gets {A} (f : S → A) s : gets f s = (f s, s).
Proof. done. Qed.

Lemma run_put s s' : put s' s = (tt, s').
Proof. done. Qed.

Lemma run_modify (f : S → S) s : modify f s = (tt, f s).
Proof. done. Qed.

Lemma run_when_true (m : stateM S unit) s : when true m s = m s.
Proof. done. Qed.

Lemma run_when_false (m : stateM S unit) s : when false m s = (tt, s).
Proof. done. Qed.

Lemma run_when (c : bool) (m : stateM S unit) s :
  when c m s = if c then m s else (tt, s).
Proof. by destruct c. Qed.

(** The three monad laws, pointwise. *)
Lemma bind_ret_l {A B} (a : A) (f : A → stateM S B) s :
  (mret a ≫= f) s = f a s.
Proof. done. Qed.

Lemma bind_ret_r {A} (m : stateM S A) s : (m ≫= mret) s = m s.
Proof. rewrite run_bind. by destruct (m s). Qed.

Lemma bind_assoc {A B C} (m : stateM S A) (f : A → stateM S B)
    (g : B → stateM S C) s :
  ((m ≫= f) ≫= g) s = (m ≫= λ a, f a ≫= g) s.
Proof. rewrite !run_bind. by destruct (m s). Qed.

Lemma exec_bind {A B} (m : stateM S A) (f : A → stateM S B) s :
  execState (m ≫= f) s = execState (f (evalState m s)) (execState m s).
Proof. unfold execState, evalState. by rewrite run_bind. Qed.

Lemma eval_bind {A B} (m : stateM S A) (f : A → stateM S B) s :
  evalState (m ≫= f) s = evalState (f (evalState m s)) (execState m s).
Proof. unfold execState, evalState. by rewrite run_bind. Qed.
End monad_laws.

#[export] Hint Rewrite @run_ret @run_bind @run_fmap @run_get @run_gets
  @run_put @run_modify @run_when : cad_run.

(** [run_handler] executes the monadic code in the goal symbolically. *)
Ltac run_handler :=
  unfold execState, evalState; autorewrite with cad_run; simpl.

(** [cad_unfold]: the definitions that [unfold_all] opens: the monad's
    operations here, each component's statements and methods in its file. *)
Create HintDb cad_unfold.
#[export] Hint Unfold execState evalState when gets get put modify
  mbind state_bind mret state_ret fmap state_fmap : cad_unfold.

Ltac unfold_all := autounfold with cad_unfold in *; simpl in *.

(** [case_if] splits on the first boolean guard left in the goal. *)
Ltac case_if :=
  match goal with
  | |- context [if ?b then _ else _] =>
      let E := fresh "Hguard" in destruct b eqn:E; simpl
  end.

(** * Lists: [Array.prototype.find] and friends *)

(** [find] of the Standard Library is JavaScript's [Array.prototype.find]:
    the first element that satisfies the predicate, or [None]
    ([undefined]). *)
Section list_facts.
Context {A : Type}.
Implicit Types (l : list A) (p : A → bool).

Lemma find_Some_elem l p x : find p l = Some x → x ∈ l ∧ p x = true.
Proof.
  intros [??]%find_some. split; [by apply list_elem_of_In|done].
Qed.

Lemma find_None_iff l p : find p l = None ↔ ∀ x, x ∈ l → p x = false.
Proof.
  split.
  - intros H x Hx%list_elem_of_In. by eapply find_none.
  - induction l as [|a l IH]; simpl; [done|]. intros H.
    rewrite (H a) by left. apply IH. intros x Hx. apply H. by right.
Qed.

Lemma find_is_Some l p : is_Some (find p l) ↔ ∃ x, x ∈ l ∧ p x = true.
Proof.
  split.
  - intros [x Hx]. exists x. by apply find_Some_elem.
  - intros (x & Hx & Hp). destruct (find p l) eqn:E; [done|].
    rewrite find_None_iff in E. by rewrite E in Hp.
Qed.

Lemma filter_none_iff l p :
  List.filter p l = [] ↔ ∀ x, x ∈ l → p x = false.
Proof.
  induction l as [|a l IH]; simpl.
  - split; [by intros _ ? ?%elem_of_nil|done].
  - destruct (p a) eqn:E.
    + split; [done|]. intros H. specialize (H a). rewrite E in H.
      by discriminate H; left.
    + rewrite IH. split.
      * by intros H x [->|?]%elem_of_cons; [|apply H].
      * intros H x Hx. apply H. by right.
Qed.

Lemma filter_all l p :
  (∀ x, x ∈ l → p x = true) → List.filter p l = l.
Proof.
  induction l as [|a l IH]; simpl; [done|]. intros Hall.
  rewrite (Hall a), IH; [done| |by left]. intros x Hx. apply Hall. by right.
Qed.

Lemma find_is_Some_filter l p : is_Some (find p l) ↔ List.filter p l ≠ [].
Proof.
  induction l as [|a l IH]; simpl.
  - split; [by intros [??]|done].
  - destruct (p a); [|done]. split; [done|by eexists].
Qed.

(** With unique keys, [find] by key returns the element that has it. *)
Lemma find_unique_key {K} `{EqDecision K} (key : A → K) l x :
  NoDup (key <$> l) → x ∈ l →
  find (λ y, bool_decide (key y = key x)) l = Some x.
Proof.
  induction l as [|a l IH]; simpl; [by intros _ ?%elem_of_nil|].
  intros [Ha Hl]%NoDup_cons [->|Hx]%elem_of_cons.
  - by rewrite bool_decide_eq_true_2.
  - rewrite bool_decide_eq_false_2; [by apply IH|].
    intros E. apply Ha. rewrite E. by apply list_elem_of_fmap_2.
Qed.

(** With unique keys, at most one element has a given key. *)
Lemma filter_unique_key {K} `{EqDecision K} (key : A → K) (k : K) l :
  NoDup (key <$> l) →
  length (List.filter (λ y, bool_decide (key y = k)) l) ≤ 1.
Proof.
  induction l as [|a l IH]; simpl; [lia|].
  intros [Ha Hl]%NoDup_cons. case_bool_decide as E; simpl; [|by apply IH].
  subst k. rewrite (proj2 (filter_none_iff l _)); [simpl; lia|].
  intros y Hy. apply bool_decide_eq_false_2. intros E. apply Ha.
  rewrite <-E. by apply list_elem_of_fmap_2.
Qed.

Lemma filter_none_find l p : List.filter p l = [] ↔ find p l = None.
Proof.
  rewrite filter_none_iff, find_None_iff. done.
Qed.

(** Logs that only grow: the shapes in which a handler extends one. *)
Lemma grows_same l : ∃ k, l = l ++ k.
Proof. exists []. by rewrite app_nil_r. Qed.

Lemma grows_app l k : ∃ k', l ++ k = l ++ k'.
Proof. by exists k. Qed.

Lemma grows1_same l : ∃ k, l = l ++ k ∧ length k ≤ 1.
Proof. exists []. rewrite app_nil_r. simpl. auto with lia. Qed.

Lemma grows1_one l x : ∃ k, l ++ [x] = l ++ k ∧ length k ≤ 1.
Proof. by exists [x]. Qed.

Lemma grows1_option l (o : option A) :
  ∃ k, l ++ option_list o = l ++ k ∧ length k ≤ 1.
Proof. exists (option_list o). split; [done|]. destruct o; simpl; lia. Qed.

Lemma StronglySorted_snoc (R : relation A) l x :
  StronglySorted R l → Forall (λ y, R y x) l →
  StronglySorted R (l ++ [x]).
Proof.
  intros Hs Hb. apply StronglySorted_app.
  split_and!; [|done|repeat constructor].
  intros y z Hy ->%list_elem_of_singleton.
  rewrite Forall_forall in Hb. by apply Hb.
Qed.

Lemma filter_StronglySorted (R : relation A) p l :
  StronglySorted R l → StronglySorted R (List.filter p l).
Proof.
  induction 1 as [|x l Hl IH Hx]; simpl; [constructor|].
  destruct (p x); [|done]. constructor; [done|].
  apply Forall_forall. intros y [Hy _]%list_elem_of_In%filter_In.
  rewrite Forall_forall in Hx. by apply Hx, list_elem_of_In.
Qed.

Lemma filter_length_le p l : length (List.filter p l) ≤ length l.
Proof. induction l as [|x l IH]; simpl; [done|]. destruct (p x); simpl; lia. Qed.

(** Induction on the length of a list, for functions that consume several
    elements at a time. *)
Lemma list_length_ind (P : list A → Prop) :
  (∀ l, (∀ l', length l' < length l → P l') → P l) → ∀ l, P l.
Proof.
  intros IH l. induction l as [l IHl] using
    (well_founded_induction (Nat.lt_wf_0_projected length)).
  by apply IH.
Qed.
End list_facts.

(** Two keys that identify the same elements are unique together. *)
Lemma NoDup_fmap_equiv {A B C} (f : A → B) (g : A → C) (l : list A) :
  (∀ x y, f x = f y ↔ g x = g y) → NoDup (f <$> l) ↔ NoDup (g <$> l).
Proof.
  intros Hfg. induction l as [|x l IH]; [by split; constructor|].
  rewrite !fmap_cons, !NoDup_cons, IH, !list_elem_of_fmap.
  apply and_iff_compat_r, not_iff_compat.
  split; intros (y & Hy & ?); exists y; (split; [by apply Hfg|done]).
Qed.

(** Unique keys stay unique when elements are filtered out. *)
Lemma NoDup_fmap_filter {A B} (f : A → B) (P : A → bool) (l : list A) :
  NoDup (f <$> l) → NoDup (f <$> List.filter P l).
Proof.
  induction l as [|y l IH]; simpl; [done|].
  intros [Hy Hnd]%NoDup_cons. destruct (P y); simpl; [|eauto].
  apply NoDup_cons. split; [|eauto].
  intros (z & Hz & Hin)%list_elem_of_fmap.
  apply list_elem_of_In, filter_In in Hin as [Hin%list_elem_of_In _].
  apply Hy. rewrite Hz. by apply list_elem_of_fmap_2.
Qed.

Lemma elem_of_flat_map {A B} (f : A → list B) (l : list A) (y : B) :
  y ∈ flat_map f l ↔ ∃ x, x ∈ l ∧ y ∈ f x.
Proof.
  rewrite list_elem_of_In, in_flat_map. by setoid_rewrite list_elem_of_In.
Qed.

(** Induction on the length of a string. *)
Lemma string_length_ind (P : string → Prop) :
  (∀ s, (∀ s', String.length s' < String.length s → P s') → P s) →
  ∀ s, P s.
Proof.
  intros IH s. induction s as [s IHs] using
    (well_founded_induction (Nat.lt_wf_0_projected String.length)).
  by apply IH.
Qed.

#[export] Hint Resolve grows_same grows_app grows1_same grows1_one
  grows1_option : cad.
