(* ===== verification/JsString.v ===== *)
(** * JavaScript string primitives

    The operations of the JavaScript core language that the two components
    call on strings: truthiness ([if (s)], [a || b]), [String.prototype.trim],
    [toLowerCase] and [includes].  They are not code of the repository; they
    are defined here from the language specification, on byte strings, and
    the white space that [trim] removes is the ASCII part of the
    specification's WhiteSpace and LineTerminator productions (TAB, LF, VT,
    FF, CR, SP). *)

From Stdlib Require Import Ascii.
From S2P Require Import Prelude.

(** ** Truthiness *)

(** A string is truthy when it is not empty. *)
Definition truthy (s : string) : bool :=
  match s with
  | EmptyString => false
  | String _ _ => true
  end.

(** [undefined] is falsy, a defined string is truthy when not empty. *)
Definition truthyO (o : option string) : bool :=
  match o with
  | Some s => truthy s
  | None => false
  end.

(** [a || b] on a possibly undefined string [a] and a string [b]. *)
Definition orElse (a : option string) (b : string) : string :=
  match a with
  | Some s => if truthy s then s else b
  | None => b
  end.

(** ** [String.prototype.trim] *)

Definition isWhiteSpace (c : ascii) : bool := Ascii.is_space c.

Fixpoint trimStart (s : string) : string :=
  match s with
  | EmptyString => EmptyString
  | String c s' => if isWhiteSpace c then trimStart s' else s
  end.

Fixpoint trimEnd (s : string) : string :=
  match s with
  | EmptyString => EmptyString
  | String c s' =>
      let t := trimEnd s' in
      if isWhiteSpace c && negb (truthy t) then EmptyString else String c t
  end.

Definition trim (s : string) : string := trimEnd (trimStart s).

(** Every character of the string is white space. *)
Fixpoint allWhiteSpace (s : string) : bool :=
  match s with
  | EmptyString => true
  | String c s' => isWhiteSpace c && allWhiteSpace s'
  end.

(** The first and the last character, when there is one. *)
Definition firstChar (s : string) : option ascii :=
  match s with
  | EmptyString => None
  | String c _ => Some c
  end.

Fixpoint lastChar (s : string) : option ascii :=
  match s with
  | EmptyString => None
  | String c EmptyString => Some c
  | String _ s' => lastChar s'
  end.

(** ** [toLowerCase] and [includes] *)

Definition lowerChar (c : ascii) : ascii :=
  let n := nat_of_ascii c in
  if (65 <=? n)%nat && (n <=? 90)%nat then ascii_of_nat (n + 32) else c.

Fixpoint toLowerCase (s : string) : string :=
  match s with
  | EmptyString => EmptyString
  | String c s' => String (lowerChar c) (toLowerCase s')
  end.

(** [s.includes(sub)]: [sub] occurs in [s] as a contiguous substring. *)
Fixpoint includes (s sub : string) : bool :=
  String.prefix sub s ||
  match s with
  | EmptyString => false
  | String _ s' => includes s' sub
  end.

(** ** Lemmas *)

Lemma truthy_true_iff s : truthy s = true ↔ s ≠ "".
Proof. by destruct s. Qed.

Lemma truthy_false_iff s : truthy s = false ↔ s = "".
Proof. by destruct s. Qed.

Lemma truthyO_true_iff o : truthyO o = true ↔ ∃ s, o = Some s ∧ s ≠ "".
Proof.
  destruct o as [s|]; simpl; [rewrite truthy_true_iff|]; naive_solver.
Qed.

Lemma truthyO_false_iff o : truthyO o = false ↔ o = None ∨ o = Some "".
Proof.
  destruct o as [s|]; simpl; [rewrite truthy_false_iff|]; naive_solver.
Qed.

Lemma orElse_truthy a b : truthyO a = true → orElse a b = default b a.
Proof. destruct a as [s|]; simpl; [by intros ->|done]. Qed.

Lemma orElse_falsy a b : truthyO a = false → orElse a b = b.
Proof. destruct a as [s|]; simpl; [by intros ->|done]. Qed.

Lemma trimStart_all_ws s : allWhiteSpace s = true → trimStart s = "".
Proof.
  induction s as [|c s IH]; simpl; [done|].
  intros [-> ?]%andb_true_iff. auto.
Qed.

Lemma trimEnd_all_ws s : allWhiteSpace s = true → trimEnd s = "".
Proof.
  induction s as [|c s IH]; simpl; [done|].
  intros [-> ?]%andb_true_iff. by rewrite IH.
Qed.

Lemma trimEnd_empty_iff s : trimEnd s = "" ↔ allWhiteSpace s = true.
Proof.
  split; [|apply trimEnd_all_ws].
  induction s as [|c s IH]; simpl; [done|].
  destruct (isWhiteSpace c); simpl; [|done].
  destruct (trimEnd s); simpl; [auto|done].
Qed.

Lemma trimStart_empty_iff s : trimStart s = "" ↔ allWhiteSpace s = true.
Proof.
  split; [|apply trimStart_all_ws].
  induction s as [|c s IH]; simpl; [done|].
  destruct (isWhiteSpace c); simpl; [auto|done].
Qed.

Lemma allWhiteSpace_trimStart s :
  allWhiteSpace (trimStart s) = allWhiteSpace s.
Proof.
  induction s as [|c s IH]; simpl; [done|].
  destruct (isWhiteSpace c) eqn:E; simpl; [done|by rewrite E].
Qed.

(** [trim] yields the empty string exactly on blank input: this is what
    makes a white-space-only buffer reach the validator as [""]. *)
Lemma trim_empty_iff s : trim s = "" ↔ allWhiteSpace s = true.
Proof.
  unfold trim. by rewrite trimEnd_empty_iff, allWhiteSpace_trimStart.
Qed.

Lemma trimStart_first s c :
  firstChar (trimStart s) = Some c → isWhiteSpace c = false.
Proof.
  induction s as [|a s IH]; simpl; [done|].
  destruct (isWhiteSpace a) eqn:E; simpl; [done|]. by intros [= <-].
Qed.

Lemma trimEnd_last s c :
  lastChar (trimEnd s) = Some c → isWhiteSpace c = false.
Proof.
  induction s as [|a s IH]; simpl; [done|].
  destruct (trimEnd s) as [|b t] eqn:Et; simpl in *.
  - destruct (isWhiteSpace a) eqn:E; simpl; [done|]. by intros [= <-].
  - rewrite andb_false_r. simpl. done.
Qed.

Lemma trimEnd_first s c :
  firstChar s = Some c → isWhiteSpace c = false →
  firstChar (trimEnd s) = Some c.
Proof. destruct s; simpl; [done|]. by intros [= ->] ->. Qed.

Lemma trimStart_fixed s :
  (∀ c, firstChar s = Some c → isWhiteSpace c = false) → trimStart s = s.
Proof. destruct s as [|c s]; simpl; [done|]. intros H. by rewrite H. Qed.

Lemma trimEnd_fixed s :
  (∀ c, lastChar s = Some c → isWhiteSpace c = false) → trimEnd s = s.
Proof.
  induction s as [|a s IH]; simpl; [done|]. intros H.
  destruct s as [|b t].
  - simpl. by rewrite H.
  - rewrite IH by done. simpl. by rewrite andb_false_r.
Qed.

Lemma trimStart_idemp s : trimStart (trimStart s) = trimStart s.
Proof. apply trimStart_fixed, trimStart_first. Qed.

Lemma trimEnd_idemp s : trimEnd (trimEnd s) = trimEnd s.
Proof. apply trimEnd_fixed, trimEnd_last. Qed.

(** The result of [trim] neither starts nor ends with white space. *)
Lemma trim_first s c : firstChar (trim s) = Some c → isWhiteSpace c = false.
Proof.
  unfold trim. destruct (trimStart s) as [|a t] eqn:E; simpl; [done|].
  pose proof (trimStart_first s a) as Ha. rewrite E in Ha.
  rewrite Ha by done. simpl. intros [= <-]. by apply Ha.
Qed.

Lemma trim_last s c : lastChar (trim s) = Some c → isWhiteSpace c = false.
Proof. apply trimEnd_last. Qed.

Lemma trim_fixed s :
  (∀ c, firstChar s = Some c → isWhiteSpace c = false) →
  (∀ c, lastChar s = Some c → isWhiteSpace c = false) →
  trim s = s.
Proof. intros H1 H2. unfold trim. by rewrite trimStart_fixed, trimEnd_fixed. Qed.

Lemma trim_idemp s : trim (trim s) = trim s.
Proof. apply trim_fixed; [apply trim_first|apply trim_last]. Qed.

Lemma trimStart_length s : String.length (trimStart s) ≤ String.length s.
Proof. induction s as [|c s IH]; simpl; [done|]. case_match; simpl; lia. Qed.

Lemma trimEnd_length s : String.length (trimEnd s) ≤ String.length s.
Proof. induction s as [|c s IH]; simpl; [done|]. case_match; simpl; lia. Qed.

Lemma trim_length s : String.length (trim s) ≤ String.length s.
Proof.
  unfold trim. etrans; [apply trimEnd_length|apply trimStart_length].
Qed.

Lemma toLowerCase_length s :
  String.length (toLowerCase s) = String.length s.
Proof. induction s; simpl; congruence. Qed.

Lemma lowerChar_idemp c : lowerChar (lowerChar c) = lowerChar c.
Proof. by destruct c as [[] [] [] [] [] [] [] []]. Qed.

Lemma toLowerCase_idemp s : toLowerCase (toLowerCase s) = toLowerCase s.
Proof. induction s; simpl; [done|]. by rewrite lowerChar_idemp, IHs. Qed.

Lemma prefix_refl s : String.prefix s s = true.
Proof. induction s as [|a s IH]; simpl; [done|]. by destruct (ascii_dec a a). Qed.

Lemma includes_empty s : includes s "" = true.
Proof. by destruct s. Qed.

(** ** Concatenation, as in template literals *)

Lemma length_append s t :
  String.length (s +:+ t) = String.length s + String.length t.
Proof. induction s as [|c s IH]; simpl; [done|]. by rewrite IH. Qed.

Lemma lastChar_append s t : t ≠ "" → lastChar (s +:+ t) = lastChar t.
Proof.
  intros Ht. induction s as [|c s IH]; simpl; [done|].
  rewrite <-IH. destruct (s +:+ t) eqn:Hs; [|done].
  apply (f_equal String.length) in Hs. rewrite length_append in Hs.
  destruct t; [done|simpl in Hs; lia].
Qed.

Lemma append_inj_l s1 s2 t : s1 +:+ t = s2 +:+ t → s1 = s2.
Proof.
  revert s2. induction s1 as [|c s1 IH]; intros [|c2 s2] Heq.
  - done.
  - apply (f_equal String.length) in Heq. rewrite !length_append in Heq.
    simpl in Heq. lia.
  - apply (f_equal String.length) in Heq. rewrite !length_append in Heq.
    simpl in Heq. lia.
  - injection Heq as -> Heq. f_equal. by apply IH.
Qed.
