(* ===== verification/Uri.v ===== *)
(** * [decodeURIComponent]

    [TextInputEditable] shows every value through [decodeURIComponent].  The
    function is part of the JavaScript core language, not of the repository;
    it is defined here from the language specification (the abstract
    operation Decode with an empty reserved set), on byte strings: a literal
    character is copied, an escape [%XX] yields the byte [XX], and the
    bytes that come from escapes must form well-formed UTF-8 (the table of
    well-formed byte sequences of the Unicode standard).  A malformed input
    makes the function throw [URIError]; the model returns [None].

    The lemmas: the induction principle of the tokenizer ([tokenize_ind]);
    a text without [%] decodes to itself, and only such a text does
    ([decodeURIComponent_fixed]); a trailing [%] makes the function throw;
    the decoded text is shorter than the text by two characters per escape
    ([decodeURIComponent_length]). *)

From Stdlib Require Import Ascii.
From S2P Require Import Prelude JsString.

(** ** Tokens: literal characters and escapes *)

Definition hexDigit (c : ascii) : option nat :=
  let n := nat_of_ascii c in
  if (48 <=? n) && (n <=? 57) then Some (n - 48)
  else if (65 <=? n) && (n <=? 70) then Some (n - 55)
  else if (97 <=? n) && (n <=? 102) then Some (n - 87)
  else None.

Variant Token :=
  | TLit (c : ascii)     (* a character other than [%] *)
  | TEsc (b : nat).      (* [%XX], the byte it denotes *)

(** Splits the string into tokens; [None] when a [%] is not followed by two
    hexadecimal digits. *)
Fixpoint tokenize (s : string) : option (list Token) :=
  match s with
  | EmptyString => Some []
  | String c rest =>
      if Ascii.eqb c "%" then
        match rest with
        | String h (String l rest') =>
            match hexDigit h, hexDigit l with
            | Some a, Some b => cons (TEsc (16 * a + b)) <$> tokenize rest'
            | _, _ => None
            end
        | _ => None
        end
      else cons (TLit c) <$> tokenize rest
  end.

(** ** Well-formed UTF-8 *)

Definition inRange (lo hi b : nat) : bool := (lo <=? b) && (b <=? hi).

(** The second byte allowed after the lead byte [b1] of a three-byte or a
    four-byte sequence. *)
Definition secondOk3 (b1 b2 : nat) : bool :=
  if b1 =? 224 then inRange 160 191 b2
  else if b1 =? 237 then inRange 128 159 b2
  else inRange 128 191 b2.

Definition secondOk4 (b1 b2 : nat) : bool :=
  if b1 =? 240 then inRange 144 191 b2
  else if b1 =? 244 then inRange 128 143 b2
  else inRange 128 191 b2.

Definition isCont (b : nat) : bool := inRange 128 191 b.

Definition chr (b : nat) : ascii := ascii_of_nat b.

(** Decodes the tokens; an escape with the high bit set must start a
    well-formed sequence made of escapes only. *)
Fixpoint decodeTokens (ts : list Token) : option string :=
  match ts with
  | [] => Some EmptyString
  | TLit c :: r => String c <$> decodeTokens r
  | TEsc b1 :: r =>
      if b1 <? 128 then String (chr b1) <$> decodeTokens r
      else if inRange 194 223 b1 then
        match r with
        | TEsc b2 :: r' =>
            if isCont b2
            then (λ s, String (chr b1) (String (chr b2) s)) <$> decodeTokens r'
            else None
        | _ => None
        end
      else if inRange 224 239 b1 then
        match r with
        | TEsc b2 :: TEsc b3 :: r' =>
            if secondOk3 b1 b2 && isCont b3
            then (λ s, String (chr b1) (String (chr b2) (String (chr b3) s)))
                   <$> decodeTokens r'
            else None
        | _ => None
        end
      else if inRange 240 244 b1 then
        match r with
        | TEsc b2 :: TEsc b3 :: TEsc b4 :: r' =>
            if secondOk4 b1 b2 && isCont b3 && isCont b4
            then (λ s, String (chr b1) (String (chr b2)
                         (String (chr b3) (String (chr b4) s))))
                   <$> decodeTokens r'
            else None
        | _ => None
        end
      else None
  end.

(** [decodeURIComponent(s)]; [None] stands for the [URIError] it throws. *)
Definition decodeURIComponent (s : string) : option string :=
  tokenize s ≫= decodeTokens.

(** The string has no [%]. *)
Fixpoint noPercent (s : string) : bool :=
  match s with
  | EmptyString => true
  | String c rest => negb (Ascii.eqb c "%") && noPercent rest
  end.

(** The number of [%] in the string: the escapes of a well-formed one. *)
Fixpoint percents (s : string) : nat :=
  match s with
  | EmptyString => 0
  | String c rest => (if Ascii.eqb c "%" then 1 else 0) + percents rest
  end.

Definition isEsc (t : Token) : bool :=
  match t with TEsc _ => true | TLit _ => false end.

(** What [tokenize] guarantees of a token: an escape denotes a byte and a
    literal is not a [%]. *)
Definition tokenOk (t : Token) : Prop :=
  match t with TEsc b => b < 256 | TLit c => c ≠ "%"%char end.

(** ** The tokenizer *)

Lemma hexDigit_lt c a : hexDigit c = Some a → a < 16.
Proof.
  unfold hexDigit. repeat case_match; intros; simplify_eq;
    repeat match goal with
    | H : _ && _ = true |- _ => apply andb_true_iff in H as [??]
    | H : (_ <=? _) = true |- _ => apply Nat.leb_le in H
    end; lia.
Qed.

Lemma hexDigit_not_percent c a :
  hexDigit c = Some a → Ascii.eqb c "%" = false.
Proof.
  intros Hc. destruct (Ascii.eqb c "%") eqn:Ec; [|done].
  by apply Ascii.eqb_eq in Ec as ->.
Qed.

(** Induction on the way [tokenize] reads a string: a literal character,
    an escape, or a [%] that two hexadecimal digits do not follow. *)
Lemma tokenize_ind (P : string → option (list Token) → Prop) :
  P "" (Some []) →
  (∀ c s, Ascii.eqb c "%" = false → P s (tokenize s) →
     P (String c s) (cons (TLit c) <$> tokenize s)) →
  (∀ h l s a b, hexDigit h = Some a → hexDigit l = Some b →
     P s (tokenize s) →
     P (String "%" (String h (String l s)))
       (cons (TEsc (16 * a + b)) <$> tokenize s)) →
  (∀ s, (∀ h l s', s = String h (String l s') →
           hexDigit h = None ∨ hexDigit l = None) →
        P (String "%" s) None) →
  ∀ s, P s (tokenize s).
Proof.
  intros Hnil Hlit Hesc Hbad s.
  induction s as [s IH] using string_length_ind.
  destruct s as [|c s]; [done|]. simpl tokenize.
  destruct (Ascii.eqb c "%") eqn:Ec.
  - apply Ascii.eqb_eq in Ec as ->.
    destruct s as [|h [|l s]]; [by apply Hbad..|].
    destruct (hexDigit h) as [a|] eqn:Eh, (hexDigit l) as [b|] eqn:El.
    1: apply Hesc; [done..|apply IH; simpl; lia].
    all: apply Hbad; intros; simplify_eq; eauto.
  - apply Hlit; [done|]. apply IH. simpl. lia.
Qed.

(** The tokens of a string: one per literal character and one per escape,
    which takes three characters; the escapes are the [%] of the string. *)
Lemma tokenize_spec s ts :
  tokenize s = Some ts →
  length ts + 2 * percents s = String.length s
  ∧ length (List.filter isEsc ts) = percents s
  ∧ Forall tokenOk ts.
Proof.
  revert ts. pattern s, (tokenize s). apply tokenize_ind; clear s.
  - by intros ts [= <-].
  - intros c s Ec IH ts [ts' [Hts ->]]%fmap_Some.
    destruct (IH ts' Hts) as (Hl & Hp & Hf). simpl. rewrite Ec.
    split_and!; [lia|done|].
    constructor; [|done]. simpl. by intros ->.
  - intros h l s a b Eh El IH ts [ts' [Hts ->]]%fmap_Some.
    destruct (IH ts' Hts) as (Hl & Hp & Hf). simpl.
    rewrite (hexDigit_not_percent h a), (hexDigit_not_percent l b) by done.
    apply hexDigit_lt in Eh, El.
    split_and!; [lia|simpl; lia|constructor; [simpl; lia|done]].
  - done.
Qed.

Lemma percents_noPercent s : percents s = 0 ↔ noPercent s = true.
Proof.
  induction s as [|c s IH]; simpl; [done|].
  destruct (Ascii.eqb c "%"); simpl; [by split|done].
Qed.

Lemma tokenize_noPercent s :
  noPercent s = true →
  tokenize s = Some (TLit <$> String.list_ascii_of_string s).
Proof.
  induction s as [|c s IH]; simpl; [done|].
  intros [Hc Hs]%andb_true_iff. apply negb_true_iff in Hc.
  by rewrite Hc, IH.
Qed.

Lemma decodeTokens_literals l :
  decodeTokens (TLit <$> l) = Some (String.string_of_list_ascii l).
Proof.
  induction l as [|c l IH]; [done|]. rewrite fmap_cons. simpl decodeTokens.
  by rewrite IH.
Qed.

(** Text without [%] is shown as it is. *)
Lemma decodeURIComponent_noPercent s :
  noPercent s = true → decodeURIComponent s = Some s.
Proof.
  intros Hs. unfold decodeURIComponent. rewrite tokenize_noPercent by done.
  simpl. by rewrite decodeTokens_literals, String.string_of_list_ascii_of_string.
Qed.

(** A trailing [%] makes the function throw. *)
Lemma tokenize_trailing s :
  lastChar s = Some "%"%char → tokenize s = None.
Proof.
  pattern s, (tokenize s). apply tokenize_ind; clear s; [done| | |done].
  - intros c s Ec IH Hl. destruct s as [|c' s]; simpl in Hl;
      [by simplify_eq|by rewrite IH].
  - intros h l s a b Eh El IH Hl. destruct s as [|c' s]; simpl in Hl;
      [by simplify_eq|by rewrite IH].
Qed.

Lemma decodeURIComponent_trailing_percent s :
  lastChar s = Some "%"%char → decodeURIComponent s = None.
Proof.
  intros Hl. unfold decodeURIComponent. by rewrite tokenize_trailing.
Qed.

(** ** Lengths *)

(** Every token yields one character. *)
Lemma decodeTokens_length ts s :
  decodeTokens ts = Some s → String.length s = length ts.
Proof.
  revert s. induction ts as [ts IH] using list_length_ind. intros s.
  destruct ts as [|[c|b1] r]; simpl.
  - by intros [= <-].
  - intros [s' [Hs ->]]%fmap_Some. simpl. f_equal. apply IH; [simpl; lia|done].
  - repeat case_match; try done;
      intros [s' [Hs ->]]%fmap_Some; simpl; repeat f_equal;
      (apply IH; [simpl; lia|done]).
Qed.

(** Decoding shortens the text by two characters per escape. *)
Lemma decodeURIComponent_length s d :
  decodeURIComponent s = Some d →
  String.length d + 2 * percents s = String.length s.
Proof.
  unfold decodeURIComponent. intros (ts & Hts & Hd)%bind_Some.
  apply decodeTokens_length in Hd. apply tokenize_spec in Hts as (Hl & _).
  lia.
Qed.

(** The decoded text is the text itself exactly when it has no [%]. *)
Lemma decodeURIComponent_fixed s :
  decodeURIComponent s = Some s ↔ noPercent s = true.
Proof.
  split; [|apply decodeURIComponent_noPercent].
  intros Hs%decodeURIComponent_length. apply percents_noPercent. lia.
Qed.
