(* ===== verification/Dom.v ===== *)
(** * The part of the DOM that the handlers touch

    [ExpressionTable] keeps a ref to the input element of the row under edit
    and calls on it: [parentElement.classList.add/remove('was-validated')],
    [setCustomValidity], [checkValidity] and [focus]; [componentDidUpdate]
    compares [document.activeElement] with
    [document.getElementById('formText')].  This file models exactly that
    much of the browser: an input element is its custom validity message and
    the class list of its parent; the document is the focused element and
    whether an element with id [formText] is mounted.

    The browser is not code of the repository: the definitions follow the
    DOM standard ([DOMTokenList], the constraint-validation API). *)

From S2P Require Import Prelude JsString.

(** ** [DOMTokenList] *)

(** A class list is an ordered set of tokens. *)
Definition ClassList := list string.

Definition classList_contains (c : string) (l : ClassList) : bool :=
  bool_decide (c ∈ l).

(** [add] appends the token unless it is present. *)
Definition classList_add (c : string) (l : ClassList) : ClassList :=
  if classList_contains c l then l else l ++ [c].

(** [remove] deletes every occurrence of the token. *)
Definition classList_remove (c : string) (l : ClassList) : ClassList :=
  List.filter (λ x, negb (bool_decide (x = c))) l.

(** ** Elements *)

(** The parent of the input: the [div] that [TextInputEditable] renders. *)
Record HTMLElement := mkHTMLElement {
  classList : ClassList;
}.

(** The input element behind [this.editInput]. *)
Record HTMLInputElement := mkHTMLInputElement {
  parentElement : option HTMLElement;
  validationMessage : string;
}.

(** [el.setCustomValidity(s)] *)
Definition setCustomValidity (s : string) (el : HTMLInputElement)
    : HTMLInputElement :=
  {| parentElement := parentElement el; validationMessage := s |}.

(** [el.checkValidity()]: [false] when a custom validity message is set.
    The call changes nothing in the element; the sources ignore its result. *)
Definition checkValidity (el : HTMLInputElement) : bool :=
  negb (truthy (validationMessage el)).

(** [if (el.parentElement) el.parentElement.classList.f(...)] *)
Definition withParentClassList (f : ClassList → ClassList)
    (el : HTMLInputElement) : HTMLInputElement :=
  match parentElement el with
  | Some p =>
      {| parentElement := Some {| classList := f (classList p) |};
         validationMessage := validationMessage el |}
  | None => el
  end.

(** The element is shown as invalid: its parent carries [was-validated]. *)
Definition wasValidated (el : HTMLInputElement) : bool :=
  match parentElement el with
  | Some p => classList_contains "was-validated" (classList p)
  | None => false
  end.

(** The input as React mounts it: inside [<div className="editableTextInput">],
    with no custom validity. *)
Definition freshInput : HTMLInputElement :=
  {| parentElement := Some {| classList := ["editableTextInput"] |};
     validationMessage := "" |}.

(** ** The document *)

(** The elements that can hold the focus, by identity. *)
Variant Element :=
  | ElBody        (* nothing in particular is focused *)
  | ElFormText    (* the element with id [formText], outside the table *)
  | ElEditInput   (* the input behind [this.editInput] *)
  | ElOther.      (* any other focusable element of the page *)

#[export] Instance Element_eq_dec : EqDecision Element.
Proof. solve_decision. Defined.

Record Document := mkDocument {
  activeElement : option Element;
  formTextMounted : bool;
}.

(** [document.getElementById('formText')] *)
Definition getElementById_formText (d : Document) : option Element :=
  if formTextMounted d then Some ElFormText else None.

(** [el.focus()] on the edit input. *)
Definition focusEditInput (d : Document) : Document :=
  {| activeElement := Some ElEditInput; formTextMounted := formTextMounted d |}.

(** ** Lemmas *)

Lemma classList_contains_add c l :
  classList_contains c (classList_add c l) = true.
Proof.
  unfold classList_add. destruct (classList_contains c l) eqn:E; [done|].
  apply bool_decide_eq_true_2, elem_of_app. right. by left.
Qed.

Lemma classList_contains_remove c l :
  classList_contains c (classList_remove c l) = false.
Proof.
  apply bool_decide_eq_false_2. unfold classList_remove.
  intros [_ H]%list_elem_of_In%filter_In. by rewrite bool_decide_eq_true_2 in H.
Qed.

Lemma classList_add_idemp c l :
  classList_add c (classList_add c l) = classList_add c l.
Proof.
  unfold classList_add at 1. by rewrite classList_contains_add.
Qed.

Lemma classList_remove_idemp c l :
  classList_remove c (classList_remove c l) = classList_remove c l.
Proof.
  unfold classList_remove. induction l as [|x l IH]; simpl; [done|].
  case_bool_decide; simpl; [done|].
  rewrite bool_decide_eq_false_2 by done. simpl. by rewrite IH.
Qed.

Lemma classList_remove_other c d l :
  c ≠ d →
  classList_contains d (classList_remove c l) = classList_contains d l.
Proof.
  intros Hne. unfold classList_contains, classList_remove.
  apply bool_decide_ext. rewrite !list_elem_of_In, filter_In.
  split; [by intros [??]|]. intros H. split; [done|].
  rewrite bool_decide_eq_false_2; [done|]. by intros ->.
Qed.

Lemma classList_add_other c d l :
  c ≠ d →
  classList_contains d (classList_add c l) = classList_contains d l.
Proof.
  intros Hne. unfold classList_add. destruct (classList_contains c l); [done|].
  unfold classList_contains. apply bool_decide_ext.
  rewrite elem_of_app, list_elem_of_singleton. naive_solver.
Qed.

Lemma wasValidated_add el :
  is_Some (parentElement el) →
  wasValidated (withParentClassList (classList_add "was-validated") el) = true.
Proof.
  intros [p Hp]. unfold wasValidated, withParentClassList. rewrite Hp. simpl.
  apply classList_contains_add.
Qed.

Lemma wasValidated_remove el :
  wasValidated (withParentClassList (classList_remove "was-validated") el)
  = false.
Proof.
  unfold wasValidated, withParentClassList.
  destruct (parentElement el) as [p|] eqn:Hp; simpl; [|by rewrite Hp].
  apply classList_contains_remove.
Qed.

Lemma wasValidated_setCustomValidity s el :
  wasValidated (setCustomValidity s el) = wasValidated el.
Proof. done. Qed.

Lemma validationMessage_withParentClassList f el :
  validationMessage (withParentClassList f el) = validationMessage el.
Proof. unfold withParentClassList. by destruct (parentElement el). Qed.

Lemma parentElement_withParentClassList f el :
  is_Some (parentElement (withParentClassList f el))
  ↔ is_Some (parentElement el).
Proof.
  unfold withParentClassList.
  destruct (parentElement el) eqn:E; simpl; [|by rewrite E].
  split; by eexists.
Qed.

Lemma checkValidity_setCustomValidity s el :
  checkValidity (setCustomValidity s el) = negb (truthy s).
Proof. done. Qed.

Lemma freshInput_valid :
  checkValidity freshInput = true ∧ wasValidated freshInput = false.
Proof. done. Qed.
