(* ===== verification/Types.v ===== *)
(** * Typings and external collaborators

    The types that [ExpressionTable.tsx] uses without declaring them (the
    global typings [Expression] and [ListType], the Redux actions built by
    [removeExpressionUI] and [updateExpressionUI]) and the functions it
    imports from outside the two source files: the domain validator
    [validateExpressionDomain], the message catalogue
    [browser.i18n.getMessage] and [shortid.generate].

    The types are read off the way the sources use them; the functions are
    the fields of the class [Env], so everything downstream is proved for an
    arbitrary validator, catalogue and id generator.  [sampleEnv] is one
    instance, used to run the scenarios.  The one assumption that some
    theorems make on the validator, that it refuses the empty text, is the
    class [EnvLaws]. *)

From stdpp Require Import pretty.
From S2P Require Import Prelude JsString.

(** ** [ListType] and [Expression] *)

Variant ListType := WHITE | GREY.

#[export] Instance ListType_eq_dec : EqDecision ListType.
Proof. solve_decision. Defined.

(** An expression: a domain-matching rule.  The sources read [expression],
    [id], [listType] and write [storeId]; every other own property
    ([cleanAllCookies], [cookieNames], ...) is only copied by the object
    spread, and is kept here as the association list [others]. *)
Record Expression := mkExpression {
  expression : string;
  id : option string;
  listType : ListType;
  storeId : string;
  others : list (string * string);
}.

#[export] Instance Expression_eq_dec : EqDecision Expression.
Proof. solve_decision. Defined.

(** [{...e, expression: x, storeId: s}] *)
Definition withExpression (x s : string) (e : Expression) : Expression :=
  {| expression := x; id := id e; listType := listType e; storeId := s;
     others := others e |}.

(** [{...e, listType: t}] *)
Definition withListType (t : ListType) (e : Expression) : Expression :=
  {| expression := expression e; id := id e; listType := t;
     storeId := storeId e; others := others e |}.

(** [`${listType}`]: the enum's string value. *)
Definition ListType_toString (t : ListType) : string :=
  match t with
  | WHITE => "WHITE"
  | GREY => "GREY"
  end.

(** ** Redux actions *)

(** The two commands the table sends to the store. *)
Variant ReduxAction :=
  | removeExpressionUI (payload : Expression)
  | updateExpressionUI (payload : Expression).

#[export] Instance ReduxAction_eq_dec : EqDecision ReduxAction.
Proof. solve_decision. Defined.

Definition isUpdate (a : ReduxAction) : bool :=
  match a with
  | updateExpressionUI _ => true
  | removeExpressionUI _ => false
  end.

(** ** The environment *)

Class Env := mkEnv {
  (** [validateExpressionDomain(input)]: the error message, [""] if valid. *)
  validateExpressionDomain : string → string;
  (** [browser.i18n.getMessage(key)] *)
  i18n_getMessage : string → string;
  (** [shortid.generate()]: the [n]-th identifier it hands out. *)
  shortid_generate : nat → string;
}.

(** A validator in the spirit of the extension's: empty input and input
    with a space or a comma are refused. *)
Definition sampleValidate (input : string) : string :=
  if negb (truthy (trim input)) then "inputErrorEmpty"
  else if includes (trim input) "," then "inputErrorComma"
  else if includes (trim input) " " then "inputErrorSpace"
  else "".

Definition sampleEnv : Env :=
  {| validateExpressionDomain := sampleValidate;
     i18n_getMessage := λ key, key;
     shortid_generate := λ n, "sid" +:+ pretty n |}.

(** What the table expects of the validator: it refuses the empty text,
    with a message that is not blank.  The table itself never tests the
    buffer for emptiness; the theorems that need this say so by the class. *)
Class EnvLaws `{Env} := mkEnvLaws {
  validate_empty : trim (validateExpressionDomain "") ≠ "";
}.

#[export] Instance sampleEnv_laws : @EnvLaws sampleEnv.
Proof. by split. Qed.
