(* ===== verification/Vdom.v ===== *)
(** * Rendered trees

    What a React component returns from [render]: a tree of elements with
    attributes, some of which are event handlers.  A handler of the sources
    is a closure created during render; in the model it is the message
    ([Msg]) that says which method the closure calls and with which
    arguments, so a rendered tree can be inspected for the gestures it
    offers ([clicks], [changes], [keyUps]), for the nodes that carry the
    ref ([refs]) and for the React keys of its elements ([keys]). *)

From S2P Require Import Prelude.

(** ** Attributes *)

Inductive Attr (Msg : Type) : Type :=
  | AStr (name value : string)            (* [name="value"] *)
  | ABool (name : string) (b : bool)      (* [name={true}] *)
  | ANum (name : string) (n : nat)        (* [name={1}] *)
  | AStyle (name : string) (decls : list (string * string))
  | AExtern (name fn : string)            (* an imported callback *)
  | ARef                                  (* [ref={ref}] *)
  | AOnClick (m : Msg)
  | AOnChange (f : string → Msg)          (* applied to [e.target.value] *)
  | AOnKeyUp (f : string → list Msg).     (* applied to [e.key] *)

Arguments AStr {Msg} _ _.
Arguments ABool {Msg} _ _.
Arguments ANum {Msg} _ _.
Arguments AStyle {Msg} _ _.
Arguments AExtern {Msg} _ _.
Arguments ARef {Msg}.
Arguments AOnClick {Msg} _.
Arguments AOnChange {Msg} _.
Arguments AOnKeyUp {Msg} _.

(** ** Nodes *)

Inductive VNode (Msg : Type) : Type :=
  | VText (s : string)
  | VElem (tag : string) (key : option string) (attrs : list (Attr Msg))
      (children : list (VNode Msg))
  | VNothing    (* [false], [undefined] or [''] in child position *)
  | VExtern (element : string).
                (* an element built by the caller, opaque to the component *)

Arguments VText {Msg} _.
Arguments VElem {Msg} _ _ _ _.
Arguments VNothing {Msg}.
Arguments VExtern {Msg} _.

Section queries.
Context {Msg : Type}.

Definition isRef (a : Attr Msg) : bool :=
  match a with ARef => true | _ => false end.

Definition attrClick (a : Attr Msg) : list Msg :=
  match a with AOnClick m => [m] | _ => [] end.

Definition attrChange (a : Attr Msg) : list (string → Msg) :=
  match a with AOnChange f => [f] | _ => [] end.

Definition attrKeyUp (a : Attr Msg) : list (string → list Msg) :=
  match a with AOnKeyUp f => [f] | _ => [] end.

Definition attrStr (name : string) (a : Attr Msg) : list string :=
  match a with
  | AStr n v => if bool_decide (n = name) then [v] else []
  | _ => []
  end.

(** The messages the tree offers to a click, in document order. *)
Fixpoint clicks (v : VNode Msg) : list Msg :=
  match v with
  | VElem _ _ attrs children =>
      flat_map attrClick attrs ++ flat_map clicks children
  | _ => []
  end.

(** The [onChange] handlers of the tree. *)
Fixpoint changes (v : VNode Msg) : list (string → Msg) :=
  match v with
  | VElem _ _ attrs children =>
      flat_map attrChange attrs ++ flat_map changes children
  | _ => []
  end.

(** The [onKeyUp] handlers of the tree. *)
Fixpoint keyUps (v : VNode Msg) : list (string → list Msg) :=
  match v with
  | VElem _ _ attrs children =>
      flat_map attrKeyUp attrs ++ flat_map keyUps children
  | _ => []
  end.

(** The number of nodes that carry the ref. *)
Fixpoint refs (v : VNode Msg) : nat :=
  match v with
  | VElem _ _ attrs children =>
      length (List.filter isRef attrs) + list_sum (map refs children)
  | _ => 0
  end.

(** The [name] attributes of the elements with tag [tag]. *)
Fixpoint attrsOf (tag name : string) (v : VNode Msg) : list string :=
  match v with
  | VElem t _ attrs children =>
      (if bool_decide (t = tag) then flat_map (attrStr name) attrs else [])
      ++ flat_map (attrsOf tag name) children
  | _ => []
  end.

(** All text of the tree, in document order. *)
Fixpoint texts (v : VNode Msg) : list string :=
  match v with
  | VText s => [s]
  | VElem _ _ _ children => flat_map texts children
  | VNothing | VExtern _ => []
  end.

(** The React keys of the tree, in document order. *)
Fixpoint keys (v : VNode Msg) : list string :=
  match v with
  | VElem _ key _ children => option_list key ++ flat_map keys children
  | _ => []
  end.

(** The number of elements with tag [tag]. *)
Fixpoint countTag (tag : string) (v : VNode Msg) : nat :=
  match v with
  | VElem t _ _ children =>
      (if bool_decide (t = tag) then 1 else 0)
      + list_sum (map (countTag tag) children)
  | _ => 0
  end.
End queries.
