(* ===== verification/TextInputEditable.v ===== *)
(** * [TextInputEditable]

    The row component of [src/ui/common_components/TextInputEditable.tsx]:
    the props interface [OwnProps] (here [TextInputOwnProps], the table has
    an [OwnProps] of its own), the title [TextInputTitle], the handler
    that the input gets for [onKeyUp], and the component itself, a function
    from the props to the tree it renders, in its two branches ([canEdit]
    or not).  The component shows its values through [decodeURIComponent],
    which can throw: the result is an [option], [None] for the [URIError].

    The theorems say which gestures each branch offers and to which
    callback each gesture is forwarded, what the field shows and how long
    the text shown is, when the component throws, and that the [onKeyUp]
    handler calls nothing. *)

From S2P Require Import Prelude JsString Uri Vdom.

Section component.
Context {Msg : Type}.

(** [interface OwnProps] of [TextInputEditable.tsx] *)
Record TextInputOwnProps := mkTextInputOwnProps {
  altEditClear : string;
  altEditSave : string;
  altEditStart : string;
  canEdit : bool;
  defaultText : option string;
  editValue : option string;
  invalidFeedback : option string;
  name : string;
  onChange : string → Msg;
  onEditClear : Msg;
  onEditSave : Msg;
  onEditStart : Msg;
  text : option string;
  tooltipHref : option string;
  type : option string;
  value : option string;
}.

(** [s && s.length > 0] for an optional string [s]. *)
Definition nonEmpty (s : option string) : bool :=
  truthyO s && (0 <? String.length (default "" s)).

(** [TextInputTitle] *)
Definition TextInputTitle (name : string) (text tooltipHref : option string)
    : VNode Msg :=
  VElem "div" None [AStr "className" "textInputTitle"]
    [ if nonEmpty text
      then VElem "label" None
             [AStr "htmlFor" name; AStr "aria-labelledby" name]
             [VText (default "" text)]
      else VNothing;
      if nonEmpty tooltipHref
      then VElem "SettingsTooltip" None
             [AStr "hrefURL" (default "" tooltipHref)] []
      else VNothing ].

(** The arrow function given to [onKeyUp]: the callbacks it calls for the
    key [e.key].  The source names the callback in an expression statement
    ([onEditSave;]) and does not call it. *)
Definition onKeyUp (p : TextInputOwnProps) (key : string) : list Msg :=
  let k := toLowerCase key in
  if String.eqb k "enter" then []
  else if includes k "escape" then []
  else [].

(** The value shown in the input: [decodeURIComponent((editValue || '')
    .toString())]. *)
Definition shownEditValue (p : TextInputOwnProps) : option string :=
  decodeURIComponent (orElse (editValue p) "").

(** The text shown read-only: [decodeURIComponent(value || defaultText ||
    '')]. *)
Definition shownValue (p : TextInputOwnProps) : option string :=
  decodeURIComponent
    (orElse (value p) (orElse (defaultText p) "")).

(** [TextInputEditable(props, ref)] *)
Definition TextInputEditable (p : TextInputOwnProps) : option (VNode Msg) :=
  if canEdit p then
    shown ← shownEditValue p;
    Some (VElem "div" None [AStr "className" "editableTextInput"]
      [ TextInputTitle (name p) (text p) (tooltipHref p);
        VElem "input" None
          [ AStr "id" (name p);
            AStr "name" (name p);
            AStr "className" "form-control";
            AStyle "style" [("display", "inline-block"); ("margin", "0")];
            ARef;
            ABool "autoFocus" true;
            AStr "value" shown;
            AExtern "onFocus" "moveCaretToEnd";
            AOnChange (onChange p);
            AOnKeyUp (onKeyUp p);
            AStr "type" (orElse (type p) "text");
            ABool "formNoValidate" true ] [];
        if nonEmpty (invalidFeedback p)
        then VElem "div" None [AStr "className" "invalid-feedback"]
               [VText (default "" (invalidFeedback p))]
        else VNothing;
        VElem "IconButton" None
          [ AStr "title" (altEditClear p);
            AStr "className" "btn-outline-danger";
            AStr "iconName" "ban";
            AStyle "styleReact" [("marginTop", "8px"); ("width", "45%")];
            AOnClick (onEditClear p) ] [];
        VElem "IconButton" None
          [ AStr "title" (altEditSave p);
            AStr "className" "btn-outline-success";
            AStr "iconName" "save";
            AStyle "styleReact"
              [("float", "right"); ("marginTop", "8px"); ("width", "45%")];
            AOnClick (onEditSave p) ] [] ])
  else
    shown ← shownValue p;
    Some (VElem "div" None []
      [ TextInputTitle (name p) (text p) (tooltipHref p);
        VElem "textarea" None
          [ AStr "id" (name p);
            AStr "name" (name p);
            AStr "className" "form-control form-control-plaintext";
            ABool "readOnly" true;
            ANum "rows" 1;
            AStyle "style"
              [ ("margin", "0"); ("overflowX", "scroll");
                ("paddingLeft", "5px"); ("paddingRight", "5px");
                ("resize", "none"); ("whiteSpace", "nowrap") ] ]
          [VText shown];
        VElem "IconButton" None
          [ AStr "title" (altEditStart p);
            AStr "iconName" "pen";
            AStr "className" "btn-outline-info showOnRowHover";
            AStyle "styleReact" [("marginTop", "5px"); ("width", "100%")];
            AOnClick (onEditStart p) ] [] ]).

(** ** Lemmas *)

Implicit Types (p : TextInputOwnProps) (v : VNode Msg).

Lemma nonEmpty_truthyO s : nonEmpty s = truthyO s.
Proof. by destruct s as [[|c s]|]. Qed.

Lemma TextInputTitle_no_handlers name text href :
  clicks (TextInputTitle name text href) = []
  ∧ changes (TextInputTitle name text href) = []
  ∧ keyUps (TextInputTitle name text href) = []
  ∧ refs (TextInputTitle name text href) = 0.
Proof.
  unfold TextInputTitle. by destruct (nonEmpty text), (nonEmpty href).
Qed.

(** The key handler calls no callback, whatever the key. *)
Lemma onKeyUp_nothing p key : onKeyUp p key = [].
Proof. unfold onKeyUp. by repeat case_match. Qed.

(** The component throws exactly when the value it shows is not a
    well-formed URI component. *)
Lemma TextInputEditable_throws p :
  TextInputEditable p = None ↔
  (if canEdit p then shownEditValue p else shownValue p) = None.
Proof.
  unfold TextInputEditable. destruct (canEdit p).
  - by destruct (shownEditValue p).
  - by destruct (shownValue p).
Qed.

(** Read-only branch: one gesture, forwarded to [onEditStart]; no input,
    no ref. *)
Lemma TextInputEditable_readonly p v :
  canEdit p = false → TextInputEditable p = Some v →
  clicks v = [onEditStart p] ∧ changes v = [] ∧ keyUps v = []
  ∧ refs v = 0 ∧ countTag "input" v = 0.
Proof.
  unfold TextInputEditable. intros -> Hv.
  destruct (shownValue p) as [shown|]; simplify_eq/=.
  unfold TextInputTitle. by repeat case_match.
Qed.

(** Editable branch: the clicks are cancel then save, the input forwards
    its changes to [onChange] and carries the ref. *)
Lemma TextInputEditable_editable p v :
  canEdit p = true → TextInputEditable p = Some v →
  clicks v = [onEditClear p; onEditSave p] ∧ changes v = [onChange p]
  ∧ keyUps v = [onKeyUp p] ∧ refs v = 1 ∧ countTag "input" v = 1.
Proof.
  unfold TextInputEditable. intros -> Hv.
  destruct (shownEditValue p) as [shown|]; simplify_eq/=.
  unfold TextInputTitle. by repeat case_match.
Qed.

(** The field gives no React key: its nodes are matched by position. *)
Lemma TextInputEditable_keys p v : TextInputEditable p = Some v → keys v = [].
Proof.
  unfold TextInputEditable, TextInputTitle. intros Hv.
  destruct (canEdit p);
    [destruct (shownEditValue p)|destruct (shownValue p)];
    simplify_eq/=; by repeat case_match.
Qed.

(** * The contract of the field *)

(** C26: the field only forwards gestures.  Read-only, it offers one
    click, forwarded to [onEditStart], and has no input.  Editable, it
    offers cancel and save, in this order, forwarded to [onEditClear] and
    [onEditSave], and one input, which forwards its changes to [onChange]
    and carries the ref. *)
Theorem field_gestures p v :
  TextInputEditable p = Some v →
  clicks v
  = (if canEdit p then [onEditClear p; onEditSave p] else [onEditStart p])
  ∧ changes v = (if canEdit p then [onChange p] else [])
  ∧ refs v = (if canEdit p then 1 else 0)
  ∧ countTag "input" v = (if canEdit p then 1 else 0).
Proof.
  intros Hv. destruct (canEdit p) eqn:Hc.
  - by destruct (TextInputEditable_editable p v Hc Hv) as (-> & -> & _ & -> & ->).
  - by destruct (TextInputEditable_readonly p v Hc Hv) as (-> & -> & _ & -> & ->).
Qed.

(** The text of the title, if any. *)
Definition titleTexts (p : TextInputOwnProps) : list string :=
  if nonEmpty (text p) then [default "" (text p)] else [].

(** C27: what the field shows.  Editable: the input holds the decoded
    [editValue], and the error message [invalidFeedback] is shown below it
    exactly when it is not empty.  Read-only: the text is the decoded
    [value] (or [defaultText]). *)
Theorem field_shows p v :
  TextInputEditable p = Some v →
  ∃ shown,
    (if canEdit p then shownEditValue p else shownValue p) = Some shown
    ∧ attrsOf "input" "value" v = (if canEdit p then [shown] else [])
    ∧ texts v
      = titleTexts p ++
        (if canEdit p
         then if nonEmpty (invalidFeedback p)
              then [default "" (invalidFeedback p)] else []
         else [shown]).
Proof.
  unfold TextInputEditable, TextInputTitle, titleTexts. intros Hv.
  destruct (canEdit p);
    [destruct (shownEditValue p) as [x|]|destruct (shownValue p) as [x|]];
    simplify_eq/=; exists x; by repeat case_match.
Qed.

(** A text without a percent sign is shown as it is, in the input and
    read-only: decoding changes escapes only. *)
Lemma plain_text_shown_as_is p :
  (noPercent (orElse (editValue p) "") = true →
   shownEditValue p = Some (orElse (editValue p) ""))
  ∧ (noPercent (orElse (value p) (orElse (defaultText p) "")) = true →
     shownValue p = Some (orElse (value p) (orElse (defaultText p) ""))).
Proof.
  unfold shownEditValue, shownValue.
  split; intros Hn; by apply decodeURIComponent_noPercent.
Qed.

(** The text shown is never longer than the text stored: it is
    shorter by two characters for each escape of the stored text, in the
    input and read-only. *)
Theorem shown_text_length p d :
  (shownEditValue p = Some d →
   String.length d + 2 * percents (orElse (editValue p) "")
   = String.length (orElse (editValue p) ""))
  ∧ (shownValue p = Some d →
     String.length d
     + 2 * percents (orElse (value p) (orElse (defaultText p) ""))
     = String.length (orElse (value p) (orElse (defaultText p) ""))).
Proof. split; apply decodeURIComponent_length. Qed.
End component.

Arguments TextInputOwnProps : clear implicits.

(** ** The contract on a sample field *)

(** A field whose callbacks are named by strings. *)
Definition sampleField (edit : bool) (shown : string) : TextInputOwnProps string :=
  {| altEditClear := "stop"; altEditSave := "save"; altEditStart := "edit";
     canEdit := edit; defaultText := None; editValue := Some shown;
     invalidFeedback := Some "inputErrorSpace"; name := "id1";
     onChange := λ value, "onChange " +:+ value;
     onEditClear := "onEditClear"; onEditSave := "onEditSave";
     onEditStart := "onEditStart";
     text := None; tooltipHref := None; type := Some "url";
     value := Some shown |}.

Lemma field_gestures_witness :
  ∃ v, TextInputEditable (sampleField true "a%20b") = Some v
       ∧ clicks v = ["onEditClear"; "onEditSave"] ∧ refs v = 1.
Proof.
  eexists. split; [by vm_compute|].
  by edestruct (field_gestures (sampleField true "a%20b"))
    as (-> & _ & -> & _).
Defined.

Lemma field_shows_witness :
  ∃ v, TextInputEditable (sampleField true "a%20b") = Some v
       ∧ attrsOf "input" "value" v = ["a b"]
       ∧ texts v = ["inputErrorSpace"].
Proof.
  eexists. split; [by vm_compute|].
  by edestruct (field_shows (sampleField true "a%20b"))
    as (x & [= <-] & -> & ->).
Defined.

Lemma shown_text_length_witness :
  shownEditValue (sampleField true "a%20b") = Some "a b"
  ∧ String.length "a b" + 2 * 1 = String.length "a%20b".
Proof.
  split; [by vm_compute|].
  by apply (shown_text_length (sampleField true "a%20b") "a b").
Defined.
