(* ===== verification/Component.v ===== *)
(** * The instance of [ExpressionTable]

    Everything a method of the class can read or write, as one record
    [World]: [this.state] (class [EmptyState]), [this.props] ([OwnProps]),
    the instance field [this.editInput], the document, the Redux actions
    dispatched so far, the timers started by [sleep], and React's queue of
    pending [setState] updates.  On top of it, the primitive statements the
    methods are made of: [setState], the calls on [this.editInput], the
    dispatch props ([interface DispatchProps], built by [mapDispatchToProps]
    and handed over by [connect]), and [sleep(ms).then(task)].

    The messages [Msg] are the closures that [render] creates: one
    constructor per arrow function of the source.  The file also holds the
    sample table on which the examples of the development run. *)

From S2P Require Import Prelude JsString Dom Types Vdom.

(** ** Messages: the closures created by [render] *)

Inductive Msg :=
  | MsgRemove (expression : Expression)
      (* [() => { onRemoveExpression(expression); }] *)
  | MsgChange (value : string)
      (* [(e) => this.setState({expressionInput: e.target.value})] *)
  | MsgEditClear                      (* [() => this.clearEdit()] *)
  | MsgEditSave                       (* [() => this.commitEdit()] *)
  | MsgEditStart (expression : Expression)
      (* [() => this.startEditing(expression)] *)
  | MsgToggle (expression : Expression).
      (* [() => onUpdateExpression({...expression, listType: ...})] *)

#[export] Instance Msg_eq_dec : EqDecision Msg.
Proof. solve_decision. Defined.

(** ** State and props *)

(** [class EmptyState]: the React state of the table. *)
Record EmptyState := mkEmptyState {
  expressionInput : string;
  editMode : bool;
  id : option string;
  invalid : string;
}.

#[export] Instance EmptyState_eq_dec : EqDecision EmptyState.
Proof. solve_decision. Defined.

(** [new EmptyState()] *)
Definition newEmptyState : EmptyState :=
  {| expressionInput := ""; editMode := false; id := Some ""; invalid := "" |}.

(** [interface OwnProps].  [expressions] is optional in the model because
    the methods guard against [undefined] ([this.props.expressions || []]);
    [emptyElement], a [JSX.Element] built by the caller, is known by name. *)
Record OwnProps := mkOwnProps {
  expressions : option (list Expression);
  expressionColumnTitle : string;
  storeId : string;
  emptyElement : string;
}.

(** [this.props.expressions || []] *)
Definition expressionsOrEmpty (p : OwnProps) : list Expression :=
  default [] (expressions p).

(** A partial state, the argument of [setState]: the fields it names. *)
Record StateUpdate := mkStateUpdate {
  set_expressionInput : option string;
  set_editMode : option bool;
  set_id : option (option string);
  set_invalid : option string;
}.

Definition noUpdate : StateUpdate :=
  {| set_expressionInput := None; set_editMode := None; set_id := None;
     set_invalid := None |}.

(** The update that names every field: [setState(new EmptyState())]. *)
Definition fullUpdate (s : EmptyState) : StateUpdate :=
  {| set_expressionInput := Some (expressionInput s);
     set_editMode := Some (editMode s);
     set_id := Some (id s);
     set_invalid := Some (invalid s) |}.

(** React's shallow merge of a partial state into the state. *)
Definition applyUpdate (s : EmptyState) (u : StateUpdate) : EmptyState :=
  {| expressionInput := default (expressionInput s) (set_expressionInput u);
     editMode := default (editMode s) (set_editMode u);
     id := default (id s) (set_id u);
     invalid := default (invalid s) (set_invalid u) |}.

(** The state of a session on the record [e], as [startEditing] sets it. *)
Definition sessionOn (e : Expression) : EmptyState :=
  {| expressionInput := expression e; editMode := true;
     id := Types.id e; invalid := "" |}.

(** The state with another buffer: [{...state, expressionInput: value}]. *)
Definition withBuffer (value : string) (s : EmptyState) : EmptyState :=
  {| expressionInput := value; editMode := editMode s; id := id s;
     invalid := invalid s |}.

(** The state with another error: [{...state, invalid: message}]. *)
Definition withInvalid (message : string) (s : EmptyState) : EmptyState :=
  {| expressionInput := expressionInput s; editMode := editMode s;
     id := id s; invalid := message |}.

(** ** Timers *)

(** The callbacks that the component hands to [sleep(...).then]. *)
Variant Task := TaskClearEdit.

Record Timer := mkTimer {
  due : nat;       (* the time, in ms, at which the promise resolves *)
  task : Task;
}.

(** ** The world *)

(** The input element that React has mounted for the row under edit, with
    the React key of that row. *)
Record Mounted := mkMounted {
  rowKey : string;
  element : HTMLInputElement;
}.

(** A reference to the mounted input: the value of [this.editInput] when it
    is neither [undefined] nor [null]. *)
Variant InputRef := RefInput.

Record World := mkWorld {
  state : EmptyState;                (* [this.state] *)
  props : OwnProps;                  (* [this.props] *)
  editInput : option InputRef;       (* [this.editInput] *)
  mounted : option Mounted;          (* the DOM: the input of the edited row *)
  document : Document;
  dispatched : list ReduxAction;     (* actions sent to the store *)
  timers : list Timer;               (* pending [sleep] promises *)
  pending : list StateUpdate;        (* queued [setState] calls *)
  clock : nat;                       (* the current time in ms *)
}.

(** [constructor(props)]: [this.state = new EmptyState()], no ref yet. *)
Definition constructor (p : OwnProps) (d : Document) : World :=
  {| state := newEmptyState; props := p; editInput := None; mounted := None;
     document := d; dispatched := []; timers := []; pending := [];
     clock := 0 |}.

(** The element [this.editInput] points to.  A reference that outlives its
    element points to a detached node, which nothing can observe. *)
Definition derefEditInput (w : World) : option HTMLInputElement :=
  match editInput w with
  | Some RefInput => element <$> mounted w
  | None => None
  end.

(** ** Primitive statements *)

(** [this.setState(u)]: React queues the update; [this.state] changes when
    the queue is flushed, after the handler returns. *)
Definition setState (u : StateUpdate) : stateM World unit :=
  modify (λ w, {| w with pending := pending w ++ [u] |}).

(** [this.editInput = c] *)
Definition setEditInput (c : option InputRef) : stateM World unit :=
  modify (λ w, {| w with editInput := c |}).

Definition mapElement (f : HTMLInputElement → HTMLInputElement)
    (m : Mounted) : Mounted :=
  {| rowKey := rowKey m; element := f (element m) |}.

(** A mutating call on the element behind [this.editInput]. *)
Definition onEditInput (f : HTMLInputElement → HTMLInputElement)
    : stateM World unit :=
  modify (λ w,
    match editInput w with
    | Some RefInput => {| w with mounted := mapElement f <$> mounted w |}
    | None => w
    end).

(** [this.editInput.checkValidity()] *)
Definition callCheckValidity : stateM World bool :=
  gets (λ w, from_option checkValidity true (derefEditInput w)).

(** [this.editInput.focus()] *)
Definition callFocus : stateM World unit :=
  modify (λ w, {| w with document := focusEditInput (document w) |}).

(** [dispatch(a)] *)
Definition dispatch (a : ReduxAction) : stateM World unit :=
  modify (λ w, {| w with dispatched := dispatched w ++ [a] |}).

(** [interface DispatchProps]: the two callbacks that the table gets beside
    its own props. *)
Record DispatchProps := mkDispatchProps {
  onRemoveExpression : Expression → stateM World unit;
  onUpdateExpression : Expression → stateM World unit;
}.

(** [mapDispatchToProps(dispatch)]: each callback wraps its payload in the
    action of its name and dispatches it. *)
Definition mapDispatchToProps (dispatch : ReduxAction → stateM World unit)
    : DispatchProps :=
  {| onRemoveExpression payload := dispatch (removeExpressionUI payload);
     onUpdateExpression payload := dispatch (updateExpressionUI payload) |}.

(** [connect(null, mapDispatchToProps)(ExpressionTable)]: the dispatch props
    of the exported component are built from the [dispatch] of the store,
    once, and are the same at every rendering. *)
Definition connected : DispatchProps := mapDispatchToProps dispatch.

(** [sleep(ms).then(() => task)]: a timer due [ms] from now. *)
Definition sleepThen (ms : nat) (t : Task) : stateM World unit :=
  modify (λ w,
    {| w with timers := timers w ++ [{| due := clock w + ms; task := t |}] |}).

(** Merging a queue of updates, oldest first. *)
Definition applyUpdates (s : EmptyState) (us : list StateUpdate) : EmptyState :=
  foldl applyUpdate s us.

(** ** Sample data

    A table of two rules shown in the container ["firefox-container-1"], and
    the world in which the first rule is under edit with a given buffer: the
    data on which the examples of the development run. *)

Definition rule1 : Expression :=
  {| expression := "example.com"; Types.id := Some "id1"; listType := WHITE;
     Types.storeId := "default"; others := [("cleanAllCookies", "true")] |}.

Definition rule2 : Expression :=
  {| expression := "*.test.org"; Types.id := Some "id2"; listType := GREY;
     Types.storeId := "default"; others := [] |}.

Definition sampleProps : OwnProps :=
  {| expressions := Some [rule1; rule2];
     expressionColumnTitle := "Expression";
     storeId := "firefox-container-1";
     emptyElement := "noExpressions" |}.

Definition sampleDocument : Document :=
  {| activeElement := Some ElBody; formTextMounted := true |}.

Definition editing (buffer : string) : World :=
  {| state := {| expressionInput := buffer; editMode := true;
                 id := Some "id1"; invalid := "" |};
     props := sampleProps;
     editInput := Some RefInput;
     mounted := Some {| rowKey := "example.com-WHITE";
                        element := freshInput |};
     document := focusEditInput sampleDocument;
     dispatched := []; timers := []; pending := []; clock := 0 |}.

(** ** Automation *)

#[export] Hint Unfold setState setEditInput onEditInput callCheckValidity
  callFocus dispatch mapDispatchToProps connected sleepThen
  expressionsOrEmpty derefEditInput : cad_unfold.

(** [run w] opens the world [w] and executes the handlers in the goal and the
    hypotheses on it. *)
Ltac destruct_world w :=
  destruct w as [?st ?pr ?ei ?mt ?doc ?disp ?tms ?pend ?clk].
Ltac run w := destruct_world w; unfold_all; simplify_eq/=.

(** ** Lemmas on state updates *)

Lemma applyUpdate_noUpdate s : applyUpdate s noUpdate = s.
Proof. by destruct s. Qed.

Lemma applyUpdate_fullUpdate s s' : applyUpdate s (fullUpdate s') = s'.
Proof. by destruct s'. Qed.

Lemma applyUpdates_app s us vs :
  applyUpdates s (us ++ vs) = applyUpdates (applyUpdates s us) vs.
Proof. apply foldl_app. Qed.

Lemma applyUpdates_full_last s us s' :
  applyUpdates s (us ++ [fullUpdate s']) = s'.
Proof. rewrite applyUpdates_app. simpl. apply applyUpdate_fullUpdate. Qed.
