(* ===== verification/ExpressionTable.v ===== *)
(** * The methods of [ExpressionTable]

    One definition per method of the class in
    [src/ui/common_components/ExpressionTable.tsx], written in the state
    monad over [World] one statement per line of the source:
    [startEditing], [componentDidUpdate], [clearEdit], [commitEdit],
    [validateEdit], [setInvalid], and [handle], which runs the closure that
    a message stands for.

    The lemmas of the first part are the equations of the methods, one per
    branch: what the method returns, what it queues with [setState], what it
    does to the input element, what it dispatches and which timer it
    starts.  The second part is the frame: what no method touches
    ([framed]), from which [Runtime] derives the invariant of the reachable
    worlds.  The third part is the contract of the handlers, in the terms of
    the user.  Everything here holds in every world, reachable or not: the
    methods are public. *)

From S2P Require Import Prelude JsString Dom Types Vdom Component.

Section methods.
Context `{Env}.

(** [startEditing(expression)] *)
Definition startEditing (expression : Expression) : stateM World unit :=
  setState {|
    set_editMode := Some true;
    set_expressionInput := Some (Types.expression expression);
    set_id := Some (Types.id expression);
    set_invalid := Some "" |}.

(** [componentDidUpdate()] *)
Definition componentDidUpdate : stateM World unit :=
  w ← get;
  when (bool_decide (is_Some (editInput w))
        && editMode (state w)
        && bool_decide (activeElement (document w)
                        ≠ getElementById_formText (document w)))
    callFocus.

(** [clearEdit()] *)
Definition clearEdit : stateM World unit :=
  w ← get;
  when (bool_decide (is_Some (editInput w)))
    (onEditInput (withParentClassList (classList_remove "was-validated"));;
     onEditInput (setCustomValidity "");;
     callCheckValidity;;
     setEditInput None);;
  setState (fullUpdate newEmptyState).

(** [setInvalid(s)] *)
Definition setInvalid (s : string) : stateM World bool :=
  w ← get;
  if negb (bool_decide (is_Some (editInput w))) then mret false else
  setState {|
    set_editMode := None; set_expressionInput := None; set_id := None;
    set_invalid := Some s |};;
  onEditInput (setCustomValidity s);;
  onEditInput (withParentClassList (classList_add "was-validated"));;
  callCheckValidity;;
  mret false.

(** [validateEdit()] *)
Definition validateEdit : stateM World bool :=
  w ← get;
  if negb (editMode (state w))
     || negb (bool_decide (is_Some (editInput w)))
     || negb (truthyO (id (state w)))
  then mret false else
  let result :=
    trim (validateExpressionDomain (trim (expressionInput (state w)))) in
  if truthy result then setInvalid result else
  onEditInput (setCustomValidity "");;
  onEditInput (withParentClassList (classList_remove "was-validated"));;
  callCheckValidity;;
  mret true.

(** [commitEdit()] *)
Definition commitEdit : stateM World unit :=
  valid ← validateEdit;
  if negb valid then mret tt else
  w ← get;
  let original :=
    find (λ expression, bool_decide (Types.id expression = id (state w)))
         (expressionsOrEmpty (props w)) in
  match original with
  | Some original =>
      onUpdateExpression connected
        (withExpression (expressionInput (state w)) (storeId (props w))
           original)
  | None => mret tt
  end;;
  sleepThen 200 TaskClearEdit.

(** The list type that the toggle button asks for. *)
Definition toggled (expression : Expression) : Expression :=
  withListType
    (if bool_decide (listType expression = GREY) then WHITE else GREY)
    expression.

(** The closure behind each message. *)
Definition handle (m : Msg) : stateM World unit :=
  match m with
  | MsgRemove expression => onRemoveExpression connected expression
  | MsgChange value =>
      setState {|
        set_expressionInput := Some value;
        set_editMode := None; set_id := None; set_invalid := None |}
  | MsgEditClear => clearEdit
  | MsgEditSave => commitEdit
  | MsgEditStart expression => startEditing expression
  | MsgToggle expression => onUpdateExpression connected (toggled expression)
  end.

(** The task behind a timer: [() => this.clearEdit()]. *)
Definition runTask (t : Task) : stateM World unit :=
  match t with
  | TaskClearEdit => clearEdit
  end.

(** ** Vocabulary of the specifications *)

(** The three guards of [validateEdit] let the validation run. *)
Definition canValidate (w : World) : bool :=
  editMode (state w)
  && bool_decide (is_Some (editInput w))
  && truthyO (id (state w)).

(** The message that [validateEdit] computes from the buffer. *)
Definition validationResult (w : World) : string :=
  trim (validateExpressionDomain (trim (expressionInput (state w)))).

(** The record that [commitEdit] looks up. *)
Definition original (w : World) : option Expression :=
  find (λ expression, bool_decide (Types.id expression = id (state w)))
       (expressionsOrEmpty (props w)).

(** The update command that [commitEdit] builds from the record. *)
Definition updateOf (w : World) (o : Expression) : ReduxAction :=
  updateExpressionUI
    (withExpression (expressionInput (state w)) (storeId (props w)) o).

(** The element after the calls that mark it valid, and invalid. *)
Definition markValid (el : HTMLInputElement) : HTMLInputElement :=
  withParentClassList (classList_remove "was-validated")
    (setCustomValidity "" el).

Definition markInvalid (s : string) (el : HTMLInputElement)
    : HTMLInputElement :=
  withParentClassList (classList_add "was-validated")
    (setCustomValidity s el).

(** The DOM after a mutation through [this.editInput]. *)
Definition throughRef (f : HTMLInputElement → HTMLInputElement) (w : World)
    : option Mounted :=
  match editInput w with
  | Some RefInput => mapElement f <$> mounted w
  | None => mounted w
  end.

(** The partial state [{invalid: s}]. *)
Definition invalidUpdate (s : string) : StateUpdate :=
  {| set_editMode := None; set_expressionInput := None; set_id := None;
     set_invalid := Some s |}.

(** The timer that [commitEdit] starts. *)
Definition teardownTimer (w : World) : Timer :=
  {| due := clock w + 200; task := TaskClearEdit |}.
End methods.

#[export] Hint Unfold startEditing componentDidUpdate clearEdit setInvalid
  validateEdit commitEdit handle runTask canValidate validationResult
  original updateOf throughRef invalidUpdate teardownTimer : cad_unfold.

(** * Functional specification of the methods *)

Section specs.
Context `{Env}.
Implicit Types (w : World) (el : HTMLInputElement).

Lemma markValid_commute el :
  withParentClassList (classList_remove "was-validated")
    (setCustomValidity "" el)
  = setCustomValidity ""
      (withParentClassList (classList_remove "was-validated") el).
Proof. destruct el as [[p|] m]; done. Qed.

Lemma mapElement_compose f g (m : Mounted) :
  mapElement f (mapElement g m) = mapElement (f ∘ g) m.
Proof. done. Qed.

(** ** [validateEdit] *)

Lemma canValidate_true w :
  canValidate w = true ↔
  editMode (state w) = true ∧ is_Some (editInput w)
  ∧ truthyO (id (state w)) = true.
Proof.
  unfold canValidate. rewrite !andb_true_iff, bool_decide_eq_true. tauto.
Qed.

(** A guard fails: [validateEdit] returns [false] and touches nothing. *)
Lemma validateEdit_refused w :
  canValidate w = false → validateEdit w = (false, w).
Proof.
  intros Hg. run w. destruct (editMode _), ei, (truthyO _); by simplify_eq/=.
Qed.

(** The validator reports an error: [false] is returned, [{invalid: msg}]
    is queued and the element is marked invalid with the message. *)
Lemma validateEdit_invalid w :
  canValidate w = true → validationResult w ≠ "" →
  validateEdit w =
    (false, {| w with
               mounted := throughRef (markInvalid (validationResult w)) w;
               pending := pending w ++ [invalidUpdate (validationResult w)] |}).
Proof.
  intros (Hm & [[] He] & Hi)%canValidate_true Hr%truthy_true_iff.
  run w. rewrite Hm, Hi, Hr. simpl. by destruct mt.
Qed.

(** The validator accepts: [true] is returned, the element is marked
    valid, and nothing is queued: [this.state.invalid] is left as it is. *)
Lemma validateEdit_valid w :
  canValidate w = true → validationResult w = "" →
  validateEdit w = (true, {| w with mounted := throughRef markValid w |}).
Proof.
  intros (Hm & [[] He] & Hi)%canValidate_true Hr.
  run w. rewrite Hm, Hi, Hr. simpl. by destruct mt.
Qed.

(** [validateEdit] returns [true] exactly when the guards hold and the
    validator accepts the trimmed buffer. *)
Lemma validateEdit_true_iff w :
  evalState validateEdit w = true ↔
  canValidate w = true ∧ validationResult w = "".
Proof.
  unfold evalState. destruct (canValidate w) eqn:Hg.
  - destruct (decide (validationResult w = "")) as [Hr|Hr].
    + rewrite validateEdit_valid by done. naive_solver.
    + rewrite validateEdit_invalid by done. naive_solver.
  - rewrite validateEdit_refused by done. naive_solver.
Qed.

(** ** [commitEdit] *)

(** Validation fails: [commitEdit] is [validateEdit] and nothing more. *)
Lemma commitEdit_aborted w :
  evalState validateEdit w = false →
  commitEdit w = (tt, execState validateEdit w).
Proof.
  unfold commitEdit, evalState, execState. rewrite run_bind.
  by intros ->.
Qed.

Lemma commitEdit_invalid w :
  canValidate w = true → validationResult w ≠ "" →
  commitEdit w =
    (tt, {| w with
            mounted := throughRef (markInvalid (validationResult w)) w;
            pending := pending w ++ [invalidUpdate (validationResult w)] |}).
Proof.
  intros Hg Hr. rewrite commitEdit_aborted.
  - unfold execState. by rewrite validateEdit_invalid.
  - unfold evalState. by rewrite validateEdit_invalid.
Qed.

(** Validation succeeds: the update for the record found is dispatched
    (none if no record has the id), then the teardown timer is started. *)
Lemma commitEdit_committed w :
  canValidate w = true → validationResult w = "" →
  commitEdit w =
    (tt, {| w with
            mounted := throughRef markValid w;
            dispatched :=
              dispatched w ++ option_list (updateOf w <$> original w);
            timers := timers w ++ [teardownTimer w] |}).
Proof.
  intros Hg Hr. unfold commitEdit. rewrite run_bind.
  rewrite validateEdit_valid by done. simpl. rewrite run_bind. simpl.
  run w. destruct (find _ _); simpl; by rewrite ?app_nil_r.
Qed.

(** ** [clearEdit], [startEditing], [componentDidUpdate] *)

(** [clearEdit] marks the element valid, drops the ref and queues the
    reset of the whole state. *)
Lemma clearEdit_spec w :
  clearEdit w =
    (tt, {| w with
            editInput := None;
            mounted := throughRef markValid w;
            pending := pending w ++ [fullUpdate newEmptyState] |}).
Proof.
  run w. destruct ei as [[]|]; simpl; [|done].
  by destruct mt as [[k [[p|] m]]|].
Qed.

Lemma startEditing_spec expression w :
  startEditing expression w =
    (tt, {| w with
            pending := pending w ++ [fullUpdate
              {| editMode := true;
                 expressionInput := Types.expression expression;
                 id := Types.id expression;
                 invalid := "" |}] |}).
Proof. by run w. Qed.

(** The condition under which [componentDidUpdate] moves the focus. *)
Definition wantsFocus (w : World) : bool :=
  bool_decide (is_Some (editInput w))
  && editMode (state w)
  && bool_decide (activeElement (document w)
                  ≠ getElementById_formText (document w)).

Lemma componentDidUpdate_spec w :
  componentDidUpdate w =
    (tt, if wantsFocus w
         then {| w with document := focusEditInput (document w) |}
         else w).
Proof. unfold wantsFocus. run w. by case_match. Qed.
End specs.

(** * What the methods leave alone *)

Section frame.
Context `{Env}.
Implicit Types (w : World) (el : HTMLInputElement).

(** A mutation of the element that does not detach it. *)
Definition keepsParent (f : HTMLInputElement → HTMLInputElement) : Prop :=
  ∀ el, is_Some (parentElement el) → is_Some (parentElement (f el)).

(** [framed w w']: [w'] is [w] after a method.  No method assigns
    [this.state], [this.props], the clock or the focus; the mounted input
    stays mounted under its key; the ref is kept, or dropped together with
    a [setState]; the queue of updates, the timers and the log of actions
    only grow, the timers by the teardown timer at most and the log by one
    action at most. *)
Record framed (w w' : World) : Prop := mkFramed {
  fr_state : state w' = state w;
  fr_props : props w' = props w;
  fr_clock : clock w' = clock w;
  fr_document : document w' = document w;
  fr_mounted :
    ∃ f, keepsParent f ∧ mounted w' = mapElement f <$> mounted w;
  fr_ref : editInput w' = editInput w
           ∨ (editInput w' = None ∧ pending w' ≠ []);
  fr_pending : ∃ us, pending w' = pending w ++ us;
  fr_timers : timers w' = timers w
              ∨ timers w' = timers w ++ [teardownTimer w];
  fr_dispatched :
    ∃ acts, dispatched w' = dispatched w ++ acts ∧ length acts ≤ 1;
}.

Lemma mapElement_id (m : Mounted) : mapElement (λ el, el) m = m.
Proof. by destruct m. Qed.

Lemma keepsParent_markValid : keepsParent markValid.
Proof.
  intros el ?. unfold markValid. by apply parentElement_withParentClassList.
Qed.

Lemma keepsParent_markInvalid s : keepsParent (markInvalid s).
Proof.
  intros el ?. unfold markInvalid.
  by apply parentElement_withParentClassList.
Qed.

Lemma mounted_unchanged w :
  ∃ g, keepsParent g ∧ mounted w = mapElement g <$> mounted w.
Proof.
  exists (λ el, el). split; [by intros el|].
  destruct (mounted w) as [m|]; simpl; [|done]. by rewrite mapElement_id.
Qed.

Lemma throughRef_mapElement f w :
  keepsParent f →
  ∃ g, keepsParent g ∧ throughRef f w = mapElement g <$> mounted w.
Proof.
  intros Hf. unfold throughRef. destruct (editInput w) as [[]|]; [by eauto|].
  apply mounted_unchanged.
Qed.

#[local] Hint Resolve keepsParent_markValid keepsParent_markInvalid
  throughRef_mapElement mounted_unchanged : cad.

(** [frame] proves [framed w w'] when [w'] is [w] with some fields set. *)
Ltac frame := split; simpl; eauto 6 with cad.

Lemma framed_refl w : framed w w.
Proof. frame. Qed.

Lemma framed_validateEdit w : framed w (execState validateEdit w).
Proof.
  unfold execState. destruct (canValidate w) eqn:Hg.
  - destruct (decide (validationResult w = "")) as [Hr|Hr].
    + rewrite validateEdit_valid by done. frame.
    + rewrite validateEdit_invalid by done. frame.
  - rewrite validateEdit_refused by done. frame.
Qed.

Lemma framed_commitEdit w : framed w (execState commitEdit w).
Proof.
  destruct (evalState validateEdit w) eqn:Hv.
  - apply validateEdit_true_iff in Hv as [Hg Hr].
    unfold execState. rewrite commitEdit_committed by done. frame.
  - unfold execState at 1. rewrite commitEdit_aborted by done.
    apply framed_validateEdit.
Qed.

Lemma framed_clearEdit w : framed w (execState clearEdit w).
Proof.
  unfold execState. rewrite clearEdit_spec. frame.
  right. split; [done|]. by destruct (pending w).
Qed.

Lemma framed_startEditing e w : framed w (execState (startEditing e) w).
Proof. unfold execState. rewrite startEditing_spec. frame. Qed.

(** Every closure of [render] respects the frame. *)
Lemma framed_handle m w : framed w (execState (handle m) w).
Proof.
  destruct m; simpl.
  - frame.
  - frame.
  - apply framed_clearEdit.
  - apply framed_commitEdit.
  - apply framed_startEditing.
  - frame.
Qed.

Lemma framed_runTask t w : framed w (execState (runTask t) w).
Proof. destruct t. apply framed_clearEdit. Qed.
End frame.

(** * The contract of the handlers

    What each gesture does to the world, in the terms of the user: the
    command sent to the store, the timer started, the state after React has
    merged the queued updates ([applyUpdates]). *)

Section contract.
Context `{Env}.
Implicit Types (w : World) (el : HTMLInputElement) (e o : Expression).

Lemma original_id w o : original w = Some o → Types.id o = id (state w).
Proof.
  unfold original. intros [_ Hid]%find_Some_elem.
  by apply bool_decide_eq_true in Hid.
Qed.


(** C1: a save with a ref, in edit mode, on a buffer that the validator
    accepts, for an id that a record [o] of the props has, sends to the
    store exactly one command: the update of [o] with the buffer (as typed,
    not trimmed) for text and the store id of the props; [o]'s id, list type
    and other fields are those of the record.  It marks the input valid,
    starts one timer due 200 ms later for the teardown, and queues no state
    update. *)
Theorem commitEdit_dispatches_update w o :
  editMode (state w) = true → is_Some (editInput w) →
  truthyO (id (state w)) = true →
  trim (validateExpressionDomain (trim (expressionInput (state w)))) = "" →
  find (λ e, bool_decide (Types.id e = id (state w)))
       (expressionsOrEmpty (props w)) = Some o →
  execState commitEdit w =
    {| w with
       mounted := throughRef markValid w;
       dispatched := dispatched w ++
         [updateExpressionUI
            {| expression := expressionInput (state w);
               Types.id := id (state w);
               listType := listType o;
               Types.storeId := storeId (props w);
               others := others o |}];
       timers := timers w ++ [{| due := clock w + 200;
                                 task := TaskClearEdit |}] |}.
Proof.
  intros Hm He Hi Hr Ho.
  assert (canValidate w = true) as Hg by by apply canValidate_true.
  unfold execState. rewrite commitEdit_committed by done.
  change (find _ _) with (original w) in Ho.
  rewrite Ho, <-(original_id w o Ho). done.
Qed.

(** C2: a save on a buffer that the validator refuses sends nothing to the
    store and starts no timer; it queues [{invalid: message}], so that the
    message is the error of the state once React has merged the queue, and
    marks the input invalid with the message. *)
Theorem commitEdit_rejects_invalid w message :
  editMode (state w) = true → is_Some (editInput w) →
  truthyO (id (state w)) = true →
  trim (validateExpressionDomain (trim (expressionInput (state w))))
  = message →
  message ≠ "" →
  let w' := execState commitEdit w in
  w' = {| w with
          mounted := throughRef (markInvalid message) w;
          pending := pending w ++ [invalidUpdate message] |}
  ∧ invalid (applyUpdates (state w) (pending w')) = message
  ∧ editMode (applyUpdates (state w) (pending w'))
    = editMode (applyUpdates (state w) (pending w)).
Proof.
  intros Hm He Hi <- Hr.
  assert (canValidate w = true) as Hg by by apply canValidate_true.
  cbv zeta. unfold execState.
  rewrite commitEdit_invalid by done. simpl.
  by rewrite applyUpdates_app.
Qed.

(** C3: a save outside a session (not in edit mode, without a ref, or with
    an id that is undefined or empty) does nothing at all. *)
Theorem commitEdit_without_session w :
  editMode (state w) = false ∨ editInput w = None
  ∨ id (state w) = None ∨ id (state w) = Some "" →
  commitEdit w = (tt, w).
Proof.
  intros Hg. assert (canValidate w = false) as Hc.
  { apply not_true_is_false. intros (Hm & [x He] & Hi)%canValidate_true.
    destruct Hg as [?|[?|[Hn|Hn]]];
      [congruence|congruence|by rewrite Hn in Hi..]. }
  rewrite commitEdit_aborted.
  - unfold execState. by rewrite validateEdit_refused.
  - unfold evalState. by rewrite validateEdit_refused.
Qed.

(** C4: cancel ([clearEdit]) sends nothing to the store and starts no
    timer; it drops the ref, marks the input valid, and queues the reset of
    the whole state: whatever was queued before, the state that React merges
    is the initial one. *)
Theorem clearEdit_resets w :
  let w' := execState clearEdit w in
  applyUpdates (state w) (pending w') = newEmptyState
  ∧ editInput w' = None
  ∧ mounted w' = throughRef markValid w
  ∧ dispatched w' = dispatched w ∧ timers w' = timers w.
Proof.
  simpl. unfold execState. rewrite clearEdit_spec. simpl.
  by rewrite applyUpdates_full_last.
Qed.

(** C5: [startEditing(e)] makes [e] the target of the session: the state
    that React merges is in edit mode, has the text of [e] for buffer, the
    id of [e] for id and no error, whatever the state and the queue were (a
    session on another record is replaced).  The ref, the DOM, the store and
    the timers are not touched. *)
Theorem startEditing_targets e w :
  let w' := execState (startEditing e) w in
  applyUpdates (state w) (pending w')
  = {| expressionInput := expression e; editMode := true;
       id := Types.id e; invalid := "" |}
  ∧ {| w' with pending := pending w |} = w.
Proof.
  cbv zeta. unfold execState. rewrite startEditing_spec. simpl.
  rewrite applyUpdates_full_last. by destruct w.
Qed.

(** C9: [componentDidUpdate] moves the focus to the edit input when there
    is a ref, the table is in edit mode and the focus is not on [#formText];
    otherwise, in particular while the user types in [#formText], it does
    nothing. *)
Theorem componentDidUpdate_focus w :
  (is_Some (editInput w) ∧ editMode (state w) = true
   ∧ activeElement (document w) ≠ getElementById_formText (document w) →
   execState componentDidUpdate w
   = {| w with document := {| activeElement := Some ElEditInput;
                              formTextMounted :=
                                formTextMounted (document w) |} |})
  ∧ (editInput w = None ∨ editMode (state w) = false
     ∨ activeElement (document w) = getElementById_formText (document w) →
     execState componentDidUpdate w = w).
Proof.
  unfold execState. rewrite componentDidUpdate_spec. unfold wantsFocus.
  split.
  - intros (He & -> & Hf). by rewrite !bool_decide_eq_true_2.
  - intros [->|[->|Hf]]; [done|by rewrite andb_false_r|].
    rewrite (bool_decide_eq_false_2 (_ ≠ _)) by naive_solver.
    by rewrite andb_false_r.
Qed.

(** C10: the remove button sends the removal of its record, the toggle
    button the update of its record with the other list type and every
    other field kept; neither touches anything but the log of commands. *)
Theorem handle_row_buttons e w :
  execState (handle (MsgRemove e)) w
  = {| w with dispatched := dispatched w ++ [removeExpressionUI e] |}
  ∧ execState (handle (MsgToggle e)) w
    = {| w with dispatched := dispatched w ++ [updateExpressionUI (toggled e)] |}
  ∧ listType (toggled e) ≠ listType e
  ∧ withListType (listType e) (toggled e) = e.
Proof.
  split_and!; [done|done| |]; destruct e as [x i [] s o]; done.
Qed.


(** A buffer of white space only is validated as the empty string: the
    validator sees the trimmed buffer. *)
Lemma validationResult_blank w :
  allWhiteSpace (expressionInput (state w)) = true →
  validationResult w = trim (validateExpressionDomain "").
Proof.
  intros Ha. unfold validationResult.
  by rewrite (proj2 (trim_empty_iff _) Ha).
Qed.

(** A save that the guards or the validator stop sends nothing and starts
    no timer. *)
Lemma commitEdit_stopped w :
  canValidate w = false ∨ validationResult w ≠ "" →
  dispatched (execState commitEdit w) = dispatched w
  ∧ timers (execState commitEdit w) = timers w.
Proof.
  unfold execState. destruct (canValidate w) eqn:Hg; intros [?|Hr]; try done.
  - by rewrite commitEdit_invalid.
  - rewrite commitEdit_aborted; unfold evalState, execState;
      by rewrite validateEdit_refused.
  - rewrite commitEdit_aborted; unfold evalState, execState;
      by rewrite validateEdit_refused.
Qed.

(** C30: a buffer that is empty or white space only is never committed.
    The table does not test the buffer itself: it trims it and relies on
    the validator to refuse the empty text ([EnvLaws]).  With such a
    validator a save of a blank buffer sends nothing to the store and starts
    no timer, in any world; in a session it queues the validator's message
    for the empty text as the error. *)
Theorem blank_buffer_not_committed `{!EnvLaws} w :
  allWhiteSpace (expressionInput (state w)) = true →
  dispatched (execState commitEdit w) = dispatched w
  ∧ timers (execState commitEdit w) = timers w
  ∧ (canValidate w = true →
     pending (execState commitEdit w)
     = pending w ++ [invalidUpdate (trim (validateExpressionDomain ""))]).
Proof.
  intros Ha. pose proof (validationResult_blank w Ha) as Hr.
  assert (validationResult w ≠ "") as Hne by (rewrite Hr; apply validate_empty).
  destruct (commitEdit_stopped w) as [-> ->]; [by right|].
  split_and!; [done..|]. intros Hg. unfold execState.
  by rewrite commitEdit_invalid, Hr.
Qed.
End contract.

(** ** The contract on the sample table *)

Lemma commitEdit_dispatches_update_witness :
  dispatched (execState (commitEdit (H := sampleEnv)) (editing " example.org"))
  = [updateExpressionUI
       {| expression := " example.org"; Types.id := Some "id1";
          listType := WHITE; Types.storeId := "firefox-container-1";
          others := [("cleanAllCookies", "true")] |}].
Proof.
  by rewrite (commitEdit_dispatches_update (H := sampleEnv)
                (editing " example.org") rule1 eq_refl
                (mk_is_Some _ _ eq_refl) eq_refl eq_refl eq_refl).
Defined.

Lemma commitEdit_rejects_invalid_witness :
  invalid (applyUpdates (state (editing "bad url"))
             (pending (execState (commitEdit (H := sampleEnv))
                         (editing "bad url"))))
  = "inputErrorSpace".
Proof.
  apply (commitEdit_rejects_invalid (H := sampleEnv) (editing "bad url")
           "inputErrorSpace");
    [reflexivity|by eexists|reflexivity|reflexivity|discriminate].
Defined.

Lemma commitEdit_without_session_witness :
  commitEdit (H := sampleEnv) (constructor sampleProps sampleDocument)
  = (tt, constructor sampleProps sampleDocument).
Proof. apply commitEdit_without_session. by left. Defined.


Lemma blank_buffer_not_committed_witness :
  dispatched (execState (commitEdit (H := sampleEnv)) (editing "   ")) = []
  ∧ timers (execState (commitEdit (H := sampleEnv)) (editing "   ")) = []
  ∧ pending (execState (commitEdit (H := sampleEnv)) (editing "   "))
    = [invalidUpdate "inputErrorEmpty"].
Proof.
  destruct (blank_buffer_not_committed (H := sampleEnv) (editing "   "))
    as (-> & -> & ->); done.
Defined.
