(* ===== verification/Render.v ===== *)
(** * [ExpressionTable.render]

    The [render] method of the table: the empty-state fallback, the table
    head, and one row per expression with the remove button, the
    [TextInputEditable] field, the options summary and the list-type toggle.
    A row is editable when [editMode && id === expression.id] ([rowCanEdit]).

    The theorems relate the rendered tree to the state and the props: the
    tree is the caller's placeholder exactly when there is no expression; it
    carries one ref per editable row, at most one when the ids are unique;
    the gestures it offers are, row by row, remove, then start (read-only
    row) or cancel and save (editable row), then toggle; its rows are keyed
    by the text and the list type of their records ([keyOf_inj],
    [render_keys]). *)

From S2P Require Import Prelude JsString Uri Dom Types Vdom.
From S2P Require Import TextInputEditable Component.

Section render.
Context `{Env}.

(** [canEdit={editMode && id === expression.id}] *)
Definition rowCanEdit (s : EmptyState) (expression : Expression) : bool :=
  editMode s && bool_decide (id s = Types.id expression).

(** [key={`${expression.expression}-${expression.listType}`}] *)
Definition keyOf (expression : Expression) : string :=
  Types.expression expression +:+ "-"
  +:+ ListType_toString (listType expression).

(** [expression.listType === 'WHITE'] *)
Definition isWhite (expression : Expression) : bool :=
  bool_decide (ListType_toString (listType expression) = "WHITE").

(** The props that [render] gives to the field of row [i]. *)
Definition fieldProps (s : EmptyState) (i : nat) (expression : Expression)
    : TextInputOwnProps Msg :=
  {| altEditClear := i18n_getMessage "stopEditingText";
     altEditSave := i18n_getMessage "saveExpressionText";
     altEditStart := i18n_getMessage "editExpressionText";
     canEdit := rowCanEdit s expression;
     editValue := Some (expressionInput s);
     invalidFeedback := Some (invalid s);
     name := orElse (Types.id expression) (shortid_generate i);
     onChange := MsgChange;
     onEditClear := MsgEditClear;
     onEditSave := MsgEditSave;
     onEditStart := MsgEditStart expression;
     type := Some "url";
     value := Some (Types.expression expression);
     defaultText := None; text := None; tooltipHref := None |}.

(** One [<tr>] of the table body. *)
Definition renderRow (s : EmptyState) (i : nat) (expression : Expression)
    : option (VNode Msg) :=
  field ← TextInputEditable (fieldProps s i expression);
  Some (VElem "tr" (Some (keyOf expression)) []
    [ VElem "td" None [AStyle "style" [("textAlign", "center")]]
        [ VElem "IconButton" None
            [ AStr "title" (i18n_getMessage "removeExpressionText");
              AStr "className" "btn-outline-danger";
              AStr "iconName" "trash";
              AOnClick (MsgRemove expression) ] [] ];
      VElem "td" None [AStr "className" "editableExpression"] [field];
      VElem "td" None []
        [ VElem "div" None [AStyle "style" [("verticalAlign", "middle")]]
            [ VElem "ExpressionOptions" None
                [AStr "expression" (Types.expression expression)] [] ] ];
      VElem "td" None []
        [ VElem "div" None
            [AStyle "style"
               [("display", "block"); ("verticalAlign", "middle")]]
            [ VText (if isWhite expression
                     then i18n_getMessage "whiteListWordText"
                     else i18n_getMessage "greyListWordText") ];
          VElem "IconButton" None
            [ AStr "title"
                (if isWhite expression
                 then i18n_getMessage "toggleToGreyListWordText"
                 else i18n_getMessage "toggleToWhiteListWordText");
              AStr "iconName" "exchange-alt";
              AStr "className" "btn-outline-dark showOnRowHover";
              AStyle "styleReact" [("marginTop", "5px"); ("width", "100%")];
              AOnClick (MsgToggle expression) ] [] ] ]).

(** [expressions.map((expression) => <tr>...</tr>)], rows numbered from
    [i]; the first row that throws makes the whole map throw. *)
Fixpoint renderRows (s : EmptyState) (i : nat) (es : list Expression)
    : option (list (VNode Msg)) :=
  match es with
  | [] => Some []
  | expression :: es' =>
      row ← renderRow s i expression;
      rows ← renderRows s (S i) es';
      Some (row :: rows)
  end.

Definition tableHead (p : Component.OwnProps) : VNode Msg :=
  VElem "thead" None []
    [ VElem "tr" None []
        [ VElem "th" None [AStr "scope" "col"] [];
          VElem "th" None [AStr "scope" "col"]
            [VText (expressionColumnTitle p)];
          VElem "th" None [AStr "scope" "col"]
            [VText (i18n_getMessage "optionsText")];
          VElem "th" None [AStr "scope" "col"]
            [VText (i18n_getMessage "listTypeText")] ] ].

(** [render()], as a function of [this.props] and [this.state]. *)
Definition render (p : Component.OwnProps) (s : EmptyState)
    : option (VNode Msg) :=
  let expressions := default [] (expressions p) in
  if length expressions =? 0 then Some (VExtern (emptyElement p)) else
  rows ← renderRows s 0 expressions;
  Some (VElem "table" None
    [AStr "className" "table table-striped table-hover table-bordered"]
    [ tableHead p;
      VElem "tbody" None [AStr "className" "expressionTable"] rows ]).

(** ** Vocabulary of the specifications *)

(** The rows that are rendered editable. *)
Definition editableRows (s : EmptyState) (es : list Expression)
    : list Expression :=
  List.filter (rowCanEdit s) es.

(** The clicks that one row offers, in document order. *)
Definition rowClicks (s : EmptyState) (expression : Expression) : list Msg :=
  [MsgRemove expression]
  ++ (if rowCanEdit s expression
      then [MsgEditClear; MsgEditSave]
      else [MsgEditStart expression])
  ++ [MsgToggle expression].

(** The text that the field of a row has to decode. *)
Definition rowShown (s : EmptyState) (expression : Expression)
    : option string :=
  if rowCanEdit s expression
  then decodeURIComponent (expressionInput s)
  else decodeURIComponent (Types.expression expression).
End render.

(** * Properties of the rendered tree *)

Section render_facts.
Context `{Env}.
Implicit Types (s : EmptyState) (p : Component.OwnProps)
  (es : list Expression) (v row : VNode Msg) (rows : list (VNode Msg)).

Lemma orElse_Some_empty x : orElse (Some x) "" = x.
Proof. by destruct x. Qed.

Lemma rowCanEdit_true s e :
  rowCanEdit s e = true ↔ editMode s = true ∧ id s = Types.id e.
Proof.
  unfold rowCanEdit. by rewrite andb_true_iff, bool_decide_eq_true.
Qed.

(** ** One row *)

Lemma field_shown s i e :
  (if canEdit (fieldProps s i e)
   then shownEditValue (fieldProps s i e)
   else shownValue (fieldProps s i e)) = rowShown s e.
Proof.
  unfold rowShown, shownEditValue, shownValue. simpl.
  destruct (rowCanEdit s e);
    [by destruct (expressionInput s)|by destruct (Types.expression e)].
Qed.

(** A row throws exactly when its text is not decodable. *)
Lemma renderRow_None s i e : renderRow s i e = None ↔ rowShown s e = None.
Proof.
  rewrite <-(field_shown s i e), <-TextInputEditable_throws.
  unfold renderRow. by destruct (TextInputEditable _).
Qed.

Lemma renderRow_Some s i e row :
  renderRow s i e = Some row →
  clicks row = rowClicks s e
  ∧ changes row = (if rowCanEdit s e then [MsgChange] else [])
  ∧ refs row = (if rowCanEdit s e then 1 else 0).
Proof.
  unfold renderRow, rowClicks. intros Hrow.
  destruct (TextInputEditable _) as [field|] eqn:Hf; simplify_eq/=.
  destruct (rowCanEdit s e) eqn:Hc.
  - destruct (TextInputEditable_editable (fieldProps s i e) _ Hc Hf)
      as (-> & -> & _ & -> & _). by rewrite !app_nil_r.
  - destruct (TextInputEditable_readonly (fieldProps s i e) _ Hc Hf)
      as (-> & -> & _ & -> & _). by rewrite !app_nil_r.
Qed.

(** ** All rows *)

Lemma renderRows_None s i es :
  renderRows s i es = None ↔ ∃ e, e ∈ es ∧ rowShown s e = None.
Proof.
  revert i. induction es as [|e es IH]; intros i; simpl.
  - split; [done|]. by intros (? & ?%elem_of_nil & _).
  - destruct (renderRow s i e) as [row|] eqn:Hrow; simpl.
    + destruct (renderRows s (S i) es) as [rows|] eqn:Hrows; simpl.
      * split; [done|]. intros (e' & [->|He']%elem_of_cons & Hn).
        -- apply (renderRow_None s i) in Hn. congruence.
        -- assert (renderRows s (S i) es = None) as Hx; [|congruence].
           apply IH. eauto.
      * split; [|done]. intros _. apply IH in Hrows as (e' & ? & ?).
        exists e'. split; [by right|done].
    + split; [|done]. intros _. exists e. split; [by left|].
      by apply (renderRow_None s i).
Qed.

Lemma renderRows_Some s i es rows :
  renderRows s i es = Some rows →
  flat_map clicks rows = flat_map (rowClicks s) es
  ∧ flat_map changes rows = (λ _, MsgChange) <$> editableRows s es
  ∧ list_sum (map refs rows) = length (editableRows s es)
  ∧ length rows = length es.
Proof.
  revert i rows. induction es as [|e es IH]; intros i rows; simpl.
  - by intros [= <-].
  - destruct (renderRow s i e) as [row|] eqn:Hrow; simpl; [|done].
    destruct (renderRows s (S i) es) as [rows'|] eqn:Hrows; simpl; [|done].
    intros [= <-]. simpl.
    destruct (IH _ _ Hrows) as (-> & -> & -> & ->).
    destruct (renderRow_Some _ _ _ _ Hrow) as (-> & -> & ->).
    unfold editableRows. simpl. by destruct (rowCanEdit s e).
Qed.

(** ** The table *)

(** No expression: the caller's placeholder is rendered, not the table. *)
Lemma render_empty p s :
  expressionsOrEmpty p = [] → render p s = Some (VExtern (emptyElement p)).
Proof. unfold render, expressionsOrEmpty. by intros ->. Qed.

Lemma render_nonempty p s :
  expressionsOrEmpty p ≠ [] →
  render p s =
    rows ← renderRows s 0 (expressionsOrEmpty p);
    Some (VElem "table" None
      [AStr "className" "table table-striped table-hover table-bordered"]
      [ tableHead p;
        VElem "tbody" None [AStr "className" "expressionTable"] rows ]).
Proof.
  unfold render, expressionsOrEmpty.
  by destruct (default [] (expressions p)).
Qed.

(** [render] throws exactly when the text of some row is not decodable. *)
Lemma render_None p s :
  render p s = None ↔
  ∃ e, e ∈ expressionsOrEmpty p ∧ rowShown s e = None.
Proof.
  destruct (decide (expressionsOrEmpty p = [])) as [He|He].
  - rewrite render_empty, He by done. split; [done|].
    by intros (? & ?%elem_of_nil & _).
  - rewrite render_nonempty by done. rewrite <-(renderRows_None s 0).
    by destruct (renderRows _ _ _).
Qed.

(** The table offers the gestures of its rows, in order, and carries one
    ref per editable row. *)
Lemma render_table p s v :
  expressionsOrEmpty p ≠ [] → render p s = Some v →
  clicks v = flat_map (rowClicks s) (expressionsOrEmpty p)
  ∧ changes v
    = (λ _, MsgChange) <$> editableRows s (expressionsOrEmpty p)
  ∧ refs v = length (editableRows s (expressionsOrEmpty p)).
Proof.
  intros He. rewrite render_nonempty by done. intros Hv.
  destruct (renderRows _ _ _) as [rows|] eqn:Hrows; simplify_eq/=.
  destruct (renderRows_Some _ _ _ _ Hrows) as (-> & -> & -> & _).
  by rewrite !app_nil_r.
Qed.

(** ** Key handlers *)

Definition callsNothing (f : string → list Msg) : Prop := ∀ key, f key = [].

Lemma renderRow_keyUps s i e row :
  renderRow s i e = Some row → Forall callsNothing (keyUps row).
Proof.
  unfold renderRow. intros Hrow.
  destruct (TextInputEditable _) as [field|] eqn:Hf; simplify_eq/=.
  rewrite !app_nil_r. destruct (rowCanEdit s e) eqn:Hc.
  - destruct (TextInputEditable_editable (fieldProps s i e) _ Hc Hf)
      as (_ & _ & -> & _).
    constructor; [|done]. intros key. apply onKeyUp_nothing.
  - by destruct (TextInputEditable_readonly (fieldProps s i e) _ Hc Hf)
      as (_ & _ & -> & _).
Qed.

Lemma renderRows_keyUps s i es rows :
  renderRows s i es = Some rows →
  Forall callsNothing (flat_map keyUps rows).
Proof.
  revert i rows. induction es as [|e es IH]; intros i rows; simpl.
  - by intros [= <-].
  - destruct (renderRow s i e) as [row|] eqn:Hrow; simpl; [|done].
    destruct (renderRows s (S i) es) as [rows'|] eqn:Hrows; simpl; [|done].
    intros [= <-]. simpl. apply Forall_app. eauto using renderRow_keyUps.
Qed.

(** No key handler of the table calls a callback. *)
Lemma render_keyUps p s v :
  render p s = Some v → Forall callsNothing (keyUps v).
Proof.
  destruct (decide (expressionsOrEmpty p = [])) as [He|He].
  - rewrite render_empty by done. by intros [= <-].
  - rewrite render_nonempty by done. intros Hv.
    destruct (renderRows _ _ _) as [rows|] eqn:Hrows; simplify_eq/=.
    rewrite !app_nil_r. eauto using renderRows_keyUps.
Qed.

(** ** Exclusivity *)

(** When the ids of the records are unique, at most one row is editable,
    whatever the state. *)
Lemma editableRows_unique s es :
  NoDup (Types.id <$> es) → length (editableRows s es) ≤ 1.
Proof.
  intros Hnd. unfold editableRows, rowCanEdit. destruct (editMode s); simpl.
  - erewrite filter_ext; [by apply (filter_unique_key Types.id (id s))|].
    intros e. apply bool_decide_ext. naive_solver.
  - rewrite (proj2 (filter_none_iff es _)); [simpl; lia|done].
Qed.

Lemma editableRows_idle s es : editMode s = false → editableRows s es = [].
Proof.
  intros Hm. apply filter_none_iff. intros e _. unfold rowCanEdit.
  by rewrite Hm.
Qed.

Lemma editableRows_elem s es e :
  e ∈ editableRows s es ↔ e ∈ es ∧ rowCanEdit s e = true.
Proof. unfold editableRows. by rewrite list_elem_of_In, filter_In, list_elem_of_In. Qed.

(** With unique ids, an editable row is the only one. *)
Lemma editableRows_single s es e :
  NoDup (Types.id <$> es) → e ∈ es → rowCanEdit s e = true →
  editableRows s es = [e].
Proof.
  intros Hnd He Hc. pose proof (editableRows_unique s es Hnd) as Hl.
  assert (e ∈ editableRows s es) as Hin by by apply editableRows_elem.
  destruct (editableRows s es) as [|x [|y l]]; simpl in Hl; [| |lia].
  - by apply elem_of_nil in Hin.
  - by apply list_elem_of_singleton in Hin as ->.
Qed.

(** With unique ids, the session on [e] makes the row of [e] editable and no
    other. *)
Lemma editableRows_session es e :
  NoDup (Types.id <$> es) → e ∈ es → editableRows (sessionOn e) es = [e].
Proof.
  intros Hnd He. apply editableRows_single; [done..|].
  by apply rowCanEdit_true.
Qed.

(** ** When [render] returns *)

Lemma render_Some_iff p s :
  is_Some (render p s) ↔
  ∀ e, e ∈ expressionsOrEmpty p → is_Some (rowShown s e).
Proof.
  rewrite <-not_eq_None_Some, render_None. split.
  - intros Hn e He. apply not_eq_None_Some. naive_solver.
  - intros Ha (e & He & Hn). apply Ha in He. rewrite Hn in He.
    by destruct He.
Qed.

(** Outside a session, [render] returns when the text of every record can
    be decoded. *)
Lemma render_idle p s :
  editMode s = false →
  is_Some (render p s) ↔
  ∀ e, e ∈ expressionsOrEmpty p → is_Some (decodeURIComponent (expression e)).
Proof.
  intros Hm. rewrite render_Some_iff. unfold rowShown, rowCanEdit.
  by rewrite Hm.
Qed.

(** Starting a session on a record of the table does not make [render]
    throw. *)
Lemma render_session p s e :
  editMode s = false → is_Some (render p s) → e ∈ expressionsOrEmpty p →
  is_Some (render p (sessionOn e)).
Proof.
  intros Hm Hv He. rewrite render_idle in Hv by done.
  apply render_Some_iff.
  intros e' He'. unfold rowShown. destruct (rowCanEdit _ _); by apply Hv.
Qed.

(** In a session, [render] returns for another buffer exactly when the
    buffer can be decoded. *)
Lemma render_buffer p s value :
  is_Some (render p s) → editableRows s (expressionsOrEmpty p) ≠ [] →
  is_Some (render p (withBuffer value s))
  ↔ is_Some (decodeURIComponent value).
Proof.
  rewrite !render_Some_iff. intros Hv Hne. split.
  - intros Hb. destruct (editableRows _ _) as [|e l] eqn:Hl; [done|].
    assert (e ∈ editableRows s (expressionsOrEmpty p)) as Hin
      by (rewrite Hl; left).
    apply editableRows_elem in Hin as [He Hc].
    specialize (Hb e He). unfold rowShown in Hb.
    by replace (rowCanEdit (withBuffer value s) e) with true in Hb.
  - intros Hd e He. specialize (Hv e He). unfold rowShown in *.
    change (rowCanEdit (withBuffer value s) e) with (rowCanEdit s e).
    by destruct (rowCanEdit s e).
Qed.

(** A row is editable exactly when the lookup of [commitEdit] succeeds in
    edit mode. *)
Lemma editableRows_find s es :
  editableRows s es ≠ [] ↔
  editMode s = true
  ∧ is_Some (find (λ e, bool_decide (Types.id e = id s)) es).
Proof.
  unfold editableRows. rewrite <-find_is_Some_filter, !find_is_Some.
  setoid_rewrite rowCanEdit_true. setoid_rewrite bool_decide_eq_true.
  naive_solver.
Qed.

(** ** React keys *)

(** The key of a row determines the text and the list type of its record,
    and nothing else of it. *)
Lemma keyOf_inj e1 e2 :
  keyOf e1 = keyOf e2 ↔
  expression e1 = expression e2 ∧ listType e1 = listType e2.
Proof.
  unfold keyOf. split; [|by intros [-> ->]].
  destruct (listType e1), (listType e2); simpl; intros Hk.
  - by apply append_inj_l in Hk.
  - apply (f_equal lastChar) in Hk. by rewrite !lastChar_append in Hk.
  - apply (f_equal lastChar) in Hk. by rewrite !lastChar_append in Hk.
  - by apply append_inj_l in Hk.
Qed.

Lemma renderRow_keys s i e row :
  renderRow s i e = Some row → keys row = [keyOf e] ∧ countTag "tr" row = 1.
Proof.
  unfold renderRow. intros Hrow.
  destruct (TextInputEditable _) as [field|] eqn:Hf; simplify_eq/=.
  rewrite (TextInputEditable_keys _ _ Hf).
  assert (countTag "tr" field = 0) as ->; [|done].
  revert Hf. unfold TextInputEditable, TextInputTitle. intros Hf.
  destruct (canEdit _);
    [destruct (shownEditValue _)|destruct (shownValue _)];
    simplify_eq/=; by repeat case_match.
Qed.

Lemma renderRows_keys s i es rows :
  renderRows s i es = Some rows →
  flat_map keys rows = keyOf <$> es
  ∧ list_sum (map (countTag "tr") rows) = length es.
Proof.
  revert i rows. induction es as [|e es IH]; intros i rows; simpl.
  - by intros [= <-].
  - destruct (renderRow s i e) as [row|] eqn:Hrow; simpl; [|done].
    destruct (renderRows s (S i) es) as [rows'|] eqn:Hrows; simpl; [|done].
    intros [= <-]. simpl.
    destruct (IH _ _ Hrows) as [-> ->].
    by destruct (renderRow_keys _ _ _ _ Hrow) as [-> ->].
Qed.

(** * The contract of [render] *)

(** C6: a session edits one record and no other: when the ids of the
    table are unique and a row is rendered editable, every other row is
    rendered read-only, whatever the state. *)
Theorem edit_exclusive s es e1 e2 :
  NoDup (Types.id <$> es) → e1 ∈ es → e2 ∈ es →
  rowCanEdit s e1 = true → e2 ≠ e1 → rowCanEdit s e2 = false.
Proof.
  intros Hnd H1 H2 Hc1 Hne. apply not_true_is_false. intros Hc2.
  pose proof (editableRows_unique s es Hnd) as Hl.
  assert (e1 ∈ editableRows s es) as Hi1 by by apply editableRows_elem.
  assert (e2 ∈ editableRows s es) as Hi2 by by apply editableRows_elem.
  destruct (editableRows s es) as [|x [|y l]]; simpl in Hl; [| |lia].
  - by apply elem_of_nil in Hi1.
  - apply list_elem_of_singleton in Hi1, Hi2. congruence.
Qed.

(** C7: what the table offers.  Without expressions, [render] returns the
    placeholder of the caller and offers nothing.  Otherwise each row
    offers, in this order, remove; then cancel and save if the row is
    editable, start if it is not; then toggle.  The editable rows, and only
    they, carry an input that forwards its changes and takes the ref. *)
Theorem render_offers_gestures p s v :
  render p s = Some v →
  clicks v = flat_map (rowClicks s) (expressionsOrEmpty p)
  ∧ changes v = (λ _, MsgChange) <$> editableRows s (expressionsOrEmpty p)
  ∧ refs v = length (editableRows s (expressionsOrEmpty p))
  ∧ (expressionsOrEmpty p = [] → v = VExtern (emptyElement p)).
Proof.
  destruct (decide (expressionsOrEmpty p = [])) as [He|He].
  - rewrite render_empty, He by done. by intros [= <-].
  - intros (? & ? & ?)%render_table; done.
Qed.

(** C8: [render] throws exactly when the text that some row has to decode
    is not a well-formed URI component: the buffer for an editable row, the
    text of the record for a read-only row. *)
Theorem render_throws_iff p s :
  render p s = None ↔
  ∃ e, e ∈ expressionsOrEmpty p
       ∧ decodeURIComponent
           (if rowCanEdit s e then expressionInput s else expression e)
         = None.
Proof.
  rewrite render_None. unfold rowShown.
  split; intros (e & He & Hn); exists e; by destruct (rowCanEdit s e).
Qed.

(** C35: the shape of the table.  The tree has one body row per record, in
    the order of the props, under the key made of the text and the list
    type of the record, and no other key.  The keys are pairwise distinct,
    as React requires of siblings, exactly when no two records have the
    same text and the same list type. *)
Theorem render_keys p s v :
  render p s = Some v → expressionsOrEmpty p ≠ [] →
  keys v = keyOf <$> expressionsOrEmpty p
  ∧ countTag "tr" v = S (length (expressionsOrEmpty p))
  ∧ (NoDup (keys v) ↔
     NoDup ((λ e, (expression e, listType e)) <$> expressionsOrEmpty p)).
Proof.
  intros Hv He. rewrite render_nonempty in Hv by done.
  destruct (renderRows _ _ _) as [rows|] eqn:Hrows; simplify_eq/=.
  destruct (renderRows_keys _ _ _ _ Hrows) as [-> ->].
  rewrite !app_nil_r. split_and!; [done|lia|].
  apply NoDup_fmap_equiv. intros e1 e2. by rewrite keyOf_inj, pair_eq.
Qed.
End render_facts.

(** ** The contract on the sample table *)

Lemma edit_exclusive_witness : rowCanEdit (sessionOn rule1) rule2 = false.
Proof.
  apply (edit_exclusive (sessionOn rule1) [rule1; rule2] rule1 rule2);
    [apply (bool_decide_unpack (NoDup _)); by vm_compute
    |left|right; left|done|done].
Defined.

Lemma render_offers_gestures_witness :
  ∃ v, render (H := sampleEnv) sampleProps (sessionOn rule1) = Some v
       ∧ clicks v = [MsgRemove rule1; MsgEditClear; MsgEditSave;
                     MsgToggle rule1;
                     MsgRemove rule2; MsgEditStart rule2; MsgToggle rule2]
       ∧ refs v = 1.
Proof.
  eexists. split; [by vm_compute|].
  by edestruct (render_offers_gestures (H := sampleEnv) sampleProps
                  (sessionOn rule1)) as (-> & _ & -> & _).
Defined.

Lemma render_keys_witness :
  ∃ v, render (H := sampleEnv) sampleProps newEmptyState = Some v
       ∧ keys v = ["example.com-WHITE"; "*.test.org-GREY"]
       ∧ countTag "tr" v = 3.
Proof.
  eexists. split; [by vm_compute|].
  by edestruct (render_keys (H := sampleEnv) sampleProps newEmptyState)
    as (-> & -> & _).
Defined.
