(* ===== verification/Runtime.v ===== *)
(** * The component at run time

    What React and the browser do around the methods of [ExpressionTable]:

    - after a handler that called [setState], React merges the queued
      updates ([flush]), calls [render], commits the tree ([reconcile]: the
      input of the editable row is mounted, kept or unmounted; the ref
      callback [(c) => (this.editInput = c)] is called with the element or
      with [null]; a freshly mounted input takes the focus because of
      [autoFocus]) and calls [componentDidUpdate] ([update]);
    - a [render] that throws takes the component down ([Crashed]);
    - the promise of [sleep(200)] resolves when its time has come and runs
      its task, then React updates as after any handler ([elapse]);
    - the parent can give new props at any time ([EvProps]).

    An [Event] is one turn of the event loop; [step] is the transition
    function of the component and [reachable] the worlds it can be in.
    React and the browser are not code of the repository: [flush],
    [reconcile], [update], [elapse] follow their documented behaviour, and
    call the methods of [ExpressionTable] and [Render] where React calls
    them.  The queue of [setState] is flushed when the handler or the task
    has returned; [clearEdit], the one method that runs in a task, calls
    [setState] as its last statement, so the model is also that of a React
    that updates synchronously outside its own event handlers.

    The second half of the file is the invariant [wf] of the worlds between
    two events and the proof that [mount] establishes it and every event
    keeps it ([step_wf], [reachable_wfApp]).  The invariant is decidable
    ([wf_dec]), so it can be checked on a given world by evaluation. *)

From stdpp Require Import sorting.
From S2P Require Import Prelude JsString Uri Dom Types Vdom.
From S2P Require Import TextInputEditable Component ExpressionTable Render.

(** The component is mounted and running, or was taken down by a render
    that threw. *)
Variant App :=
  | Running (w : World)
  | Crashed (w : World).

(** One turn of the event loop. *)
Variant Event :=
  | EvMsg (m : Msg)           (* a gesture calls the closure [m] *)
  | EvKey (key : string)      (* a key is released in the edit input *)
  | EvElapse (ms : nat)       (* time passes *)
  | EvProps (p : Component.OwnProps)   (* the parent passes new props *)
  | EvFocus (el : Element).   (* the user moves the focus *)

Section runtime.
Context `{Env}.

(** React merges the queued updates into [this.state]. *)
Definition flush (w : World) : World :=
  {| w with state := applyUpdates (state w) (pending w); pending := [] |}.

(** The row whose input the ref points to after a commit: the ref callback
    of each editable row is called in document order, the last one wins. *)
Definition refRow (w : World) : option Expression :=
  last (editableRows (state w) (expressionsOrEmpty (props w))).

(** The focus after the focused element was removed from the document. *)
Definition blurEditInput (d : Document) : Document :=
  if bool_decide (activeElement d = Some ElEditInput)
  then {| activeElement := Some ElBody;
          formTextMounted := formTextMounted d |}
  else d.

(** React commits the rendered tree.  The input of row [e] is the element
    that was there if the row (by its key) already showed an input, and a
    fresh element, which takes the focus ([autoFocus]), otherwise. *)
Definition reconcile (w : World) : World :=
  match refRow w with
  | Some e =>
      match mounted w with
      | Some m =>
          if bool_decide (rowKey m = keyOf e)
          then {| w with editInput := Some RefInput |}
          else {| w with
                  editInput := Some RefInput;
                  mounted := Some {| rowKey := keyOf e;
                                     element := freshInput |};
                  document := focusEditInput (document w) |}
      | None =>
          {| w with
             editInput := Some RefInput;
             mounted := Some {| rowKey := keyOf e; element := freshInput |};
             document := focusEditInput (document w) |}
      end
  | None =>
      match mounted w with
      | Some _ =>
          {| w with
             editInput := None;
             mounted := None;
             document := blurEditInput (document w) |}
      | None => w
      end
  end.

(** A React update: flush, render, commit, [componentDidUpdate]. *)
Definition update (w : World) : App :=
  let w1 := flush w in
  match render (props w1) (state w1) with
  | None => Crashed w1
  | Some _ => Running (execState componentDidUpdate (reconcile w1))
  end.

(** After a handler returned: React updates if [setState] was called. *)
Definition afterHandler (w : World) : App :=
  match pending w with
  | [] => Running w
  | _ :: _ => update w
  end.

Definition runHandler (h : stateM World unit) (a : App) : App :=
  match a with
  | Running w => afterHandler (execState h w)
  | Crashed w => Crashed w
  end.

(** The promises that are due resolve in the order of the queue. *)
Definition fire (ts : list Timer) (a : App) : App :=
  foldl (λ a t, runHandler (runTask (task t)) a) a ts.

Definition isDue (now : nat) (t : Timer) : bool := due t <=? now.

Definition elapse (ms : nat) (w : World) : App :=
  let now := clock w + ms in
  fire (List.filter (isDue now) (timers w))
    (Running {| w with
                clock := now;
                timers := List.filter (λ t, negb (isDue now t)) (timers w) |}).

(** The callbacks that a released key reaches: those that the [onKeyUp]
    handlers of the tree return. *)
Definition keyMsgs (w : World) (key : string) : list Msg :=
  match render (props w) (state w) with
  | Some v => flat_map (λ f, f key) (keyUps v)
  | None => []
  end.

(** The user can focus the edit input only while it is mounted. *)
Definition moveFocus (el : Element) (w : World) : World :=
  if bool_decide (el = ElEditInput) && negb (bool_decide (is_Some (mounted w)))
  then w
  else {| w with
          document := {| activeElement := Some el;
                         formTextMounted := formTextMounted (document w) |} |}.

(** The transition function. *)
Definition step (ev : Event) (a : App) : App :=
  match a with
  | Crashed w => Crashed w
  | Running w =>
      match ev with
      | EvMsg m => runHandler (handle m) a
      | EvKey key =>
          foldl (λ a m, runHandler (handle m) a) a (keyMsgs w key)
      | EvElapse ms => elapse ms w
      | EvProps p => update {| w with props := p |}
      | EvFocus el => Running (moveFocus el w)
      end
  end.

Definition steps (evs : list Event) (a : App) : App :=
  foldl (λ a ev, step ev a) a evs.

(** The component is constructed and rendered for the first time. *)
Definition mount (p : Component.OwnProps) (d : Document) : App :=
  let w := constructor p (blurEditInput d) in
  match render p newEmptyState with
  | Some _ => Running w
  | None => Crashed w
  end.

(** The gestures that the tree on screen offers. *)
Definition offered (w : World) (ev : Event) : bool :=
  match ev, render (props w) (state w) with
  | EvMsg (MsgChange _), Some v => bool_decide (changes v ≠ [])
  | EvMsg m, Some v => bool_decide (m ∈ clicks v)
  | EvKey _, Some v => bool_decide (keyUps v ≠ [])
  | EvFocus el, _ =>
      negb (bool_decide (el = ElEditInput))
      || bool_decide (is_Some (mounted w))
  | (EvElapse _ | EvProps _), _ => true
  | _, None => false
  end.

(** The worlds the component can be in. *)
Inductive reachable : App → Prop :=
  | reachable_mount p d : reachable (mount p d)
  | reachable_step a ev : reachable a → reachable (step ev a).

(** The same, when every gesture is one that the tree offers. *)
Inductive reachableUI : App → Prop :=
  | reachableUI_mount p d : reachableUI (mount p d)
  | reachableUI_step w ev :
      reachableUI (Running w) → offered w ev = true →
      reachableUI (step ev (Running w)).

(** ** The invariant *)

(** Timers are due in the future, within the delay of [commitEdit], and
    queued in the order in which they are due. *)
Definition timersOk (w : World) : Prop :=
  Forall (λ t, clock w < due t ≤ clock w + 200) (timers w)
  ∧ StronglySorted (λ t u, due t ≤ due u) (timers w).

(** A mounted input has a parent element. *)
Definition domOk (w : World) : Prop :=
  ∀ m, mounted w = Some m → is_Some (parentElement (element m)).

(** The tree on screen is the rendering of the state and the props: no
    update is pending, the input of the last editable row is mounted under
    that row's key, the ref points to it, and the focus is on an element
    that exists. *)
Definition viewOk (w : World) : Prop :=
  pending w = []
  ∧ rowKey <$> mounted w = keyOf <$> refRow w
  ∧ (is_Some (editInput w) ↔ is_Some (mounted w))
  ∧ (activeElement (document w) = Some ElEditInput → is_Some (mounted w))
  ∧ is_Some (render (props w) (state w)).

Definition wf (w : World) : Prop := timersOk w ∧ domOk w ∧ viewOk w.

Definition wfApp (a : App) : Prop :=
  match a with
  | Running w => wf w
  | Crashed _ => True
  end.

(** The invariant can be checked on a given world by evaluation. *)
#[export] Instance timersOk_dec w : Decision (timersOk w).
Proof. unfold timersOk. apply _. Defined.

#[export] Instance domOk_dec w : Decision (domOk w).
Proof.
  unfold domOk. destruct (mounted w) as [m|].
  - destruct (decide (is_Some (parentElement (element m)))) as [Hp|Hp].
    + left. by intros ? [= <-].
    + right. intros Hall. by apply Hp, Hall.
  - left. by intros.
Defined.

#[export] Instance viewOk_dec w : Decision (viewOk w).
Proof. unfold viewOk. apply _. Defined.

#[export] Instance wf_dec w : Decision (wf w).
Proof. unfold wf. apply _. Defined.

(** ** Vocabulary of the specifications *)

(** The world after a teardown: the initial state, no ref, no input on
    screen, the focus back on the body if the input had it. *)
Definition idle (w : World) : World :=
  {| w with
     state := newEmptyState; editInput := None; mounted := None;
     pending := []; document := blurEditInput (document w) |}.

(** The world in which [ms] milliseconds have passed and the promises due
    have left the queue, before their tasks run. *)
Definition later (ms : nat) (w : World) : World :=
  {| w with
     clock := clock w + ms;
     timers := List.filter (λ t, negb (isDue (clock w + ms) t)) (timers w) |}.
End runtime.

#[export] Hint Unfold flush refRow blurEditInput reconcile update afterHandler
  runHandler isDue moveFocus : cad_unfold.

(** * The invariant holds in every reachable world *)

Section invariants.
Context `{Env}.
Implicit Types (w : World) (a : App) (ev : Event).

(** What a world satisfies after a handler and before React's update: the
    timers are in order, the mounted input is attached, and neither the
    ref nor the focus points to an input that is not there. *)
Definition preOk (w : World) : Prop :=
  timersOk w ∧ domOk w
  ∧ (is_Some (editInput w) → is_Some (mounted w))
  ∧ (activeElement (document w) = Some ElEditInput → is_Some (mounted w)).

Lemma wf_preOk w : wf w → preOk w.
Proof.
  intros (Ht & Hd & _ & _ & Hr & Hf & _).
  split_and!; [done|done|by apply Hr|done].
Qed.

(** ** React's update establishes the invariant *)

Lemma reconcile_spec w :
  let w' := reconcile w in
  (state w' = state w ∧ props w' = props w ∧ pending w' = pending w
   ∧ timers w' = timers w ∧ clock w' = clock w
   ∧ dispatched w' = dispatched w)
  ∧ rowKey <$> mounted w' = keyOf <$> refRow w
  ∧ (domOk w → domOk w')
  ∧ ((is_Some (editInput w) → is_Some (mounted w)) →
     (is_Some (editInput w') ↔ is_Some (mounted w')))
  ∧ ((activeElement (document w) = Some ElEditInput → is_Some (mounted w)) →
     activeElement (document w') = Some ElEditInput → is_Some (mounted w')).
Proof.
  unfold reconcile, domOk. destruct (refRow w) as [e|] eqn:Hrow;
    destruct (mounted w) as [m|] eqn:Hm; simpl;
    try case_bool_decide; simpl; rewrite ?Hm, ?Hrow; simpl.
  all: split_and!; eauto; try (by f_equal).
  all: try (intros; simplify_eq/=; by eauto).
  all: try (split; intros; by eauto).
  intros _. unfold blurEditInput. by case_bool_decide.
Qed.

Lemma update_wf w : preOk w → wfApp (update w).
Proof.
  intros (Ht & Hd & Hr & Hf). unfold update.
  destruct (render _ _) as [v|] eqn:Hv; simpl; [|done].
  pose proof (reconcile_spec (flush w)) as
    ((Es & Ep & Eq & Et & Ec & _) & Hk & Hd' & Hr' & Hf').
  unfold execState. rewrite componentDidUpdate_spec. simpl.
  set (w2 := reconcile (flush w)) in *.
  assert (wf w2) as Hwf2.
  { split_and!; [by unfold timersOk; rewrite Et, Ec|by apply Hd'|].
    split_and!; [by rewrite Eq| |by apply Hr'|by apply Hf'|].
    - rewrite Hk. unfold refRow. by rewrite Es, Ep.
    - rewrite Es, Ep, Hv. by eexists. }
  destruct (wantsFocus w2) eqn:Hw; [|done].
  destruct Hwf2 as (Ht2 & Hd2 & Hq2 & Hk2 & Hr2 & Hf2 & Hv2).
  split_and!; try done. split_and!; try done. intros _. apply Hr2.
  unfold wantsFocus in Hw. apply andb_true_iff in Hw as [Hw _].
  apply andb_true_iff in Hw as [Hw _]. by apply bool_decide_eq_true in Hw.
Qed.

(** ** Handlers keep it *)

Lemma framed_preOk w w' : framed w w' → preOk w → preOk w'.
Proof.
  intros [Es Ep Ec Ed (f & Hf & Em) Er _ Et _] ((Hb & Hs) & Hd & Hr & Hfo).
  assert (is_Some (mounted w') ↔ is_Some (mounted w)) as Hm.
  { rewrite Em. apply fmap_is_Some. }
  split_and!.
  - unfold timersOk. rewrite Ec. destruct Et as [->| ->]; [done|].
    split.
    + apply Forall_app. split; [done|]. constructor; [|done].
      unfold teardownTimer. simpl. lia.
    + apply StronglySorted_snoc; [done|].
      eapply Forall_impl; [exact Hb|]. simpl. intros t ?. lia.
  - intros m. rewrite Em. intros [m0 [Hm0 ->]]%fmap_Some. simpl.
    apply Hf, (Hd m0 Hm0).
  - intros He. apply Hm, Hr. destruct Er as [<-|[Er _]]; [done|].
    rewrite Er in He. by destruct He.
  - rewrite Ed, Hm. done.
Qed.

Lemma framed_viewOk w w' :
  framed w w' → pending w' = [] → viewOk w → viewOk w'.
Proof.
  intros [Es Ep Ec Ed (f & Hf & Em) Er _ Et _] Hq (_ & Hk & Hr & Hfo & Hv).
  assert (is_Some (mounted w') ↔ is_Some (mounted w)) as Hm.
  { rewrite Em. apply fmap_is_Some. }
  split_and!; [done| | | |].
  - assert (refRow w' = refRow w) as ->
      by (unfold refRow; by rewrite Es, Ep).
    rewrite <-Hk, Em. by destruct (mounted w) as [[]|].
  - destruct Er as [->|[_ ?]]; [|done]. by rewrite Hm.
  - by rewrite Ed, Hm.
  - by rewrite Es, Ep.
Qed.

(** A handler that respects the frame, followed by React's update if it
    called [setState], keeps the invariant. *)
Lemma runHandler_wf (h : stateM World unit) w :
  framed w (execState h w) → wf w → wfApp (runHandler h (Running w)).
Proof.
  intros Hfr Hwf. simpl. unfold afterHandler.
  pose proof (framed_preOk _ _ Hfr (wf_preOk _ Hwf)) as Hpre.
  destruct (pending (execState h w)) eqn:Hq; [|by apply update_wf].
  destruct Hpre as (? & ? & _). split_and!; try done.
  eapply framed_viewOk; [done..|apply Hwf].
Qed.

Lemma runHandler_wfApp (h : stateM World unit) a :
  (∀ w, framed w (execState h w)) → wfApp a → wfApp (runHandler h a).
Proof. destruct a as [w|w]; [|done]. intros Hh. by apply runHandler_wf. Qed.

(** ** Each kind of event keeps it *)

Lemma mount_wf p d : wfApp (mount p d).
Proof.
  unfold mount. destruct (render p newEmptyState) as [v|] eqn:Hv; [|done].
  split_and!; [by split; constructor|by intros m|].
  split_and!; [done| |by split; intros [??]| |by simpl; rewrite Hv].
  - unfold refRow. by rewrite editableRows_idle.
  - simpl. unfold blurEditInput. by case_bool_decide.
Qed.

Lemma fire_wf ts a : wfApp a → wfApp (fire ts a).
Proof.
  revert a. induction ts as [|t ts IH]; intros a Ha; [done|].
  apply IH, runHandler_wfApp; [|done]. intros w. apply framed_runTask.
Qed.

Lemma elapse_later ms w :
  elapse ms w
  = fire (List.filter (isDue (clock w + ms)) (timers w)) (Running (later ms w)).
Proof. done. Qed.

Lemma later_wf ms w : wf w → wf (later ms w).
Proof.
  intros ((Hb & Hs) & Hd & Hv).
  split_and!; [split|done|done].
  - apply Forall_forall. intros t [Ht Hdue]%list_elem_of_In%filter_In.
    rewrite Forall_forall in Hb. apply list_elem_of_In, Hb in Ht.
    unfold isDue in Hdue. apply negb_true_iff, Nat.leb_gt in Hdue.
    simpl. lia.
  - by apply filter_StronglySorted.
Qed.

Lemma elapse_wf ms w : wf w → wfApp (elapse ms w).
Proof. intros Hwf. rewrite elapse_later. by apply fire_wf, later_wf. Qed.

(** No key reaches a callback: the key handlers of the tree call nothing. *)
Lemma keyMsgs_nil w key : keyMsgs w key = [].
Proof.
  unfold keyMsgs. destruct (render _ _) as [v|] eqn:Hv; [|done].
  apply render_keyUps in Hv. induction Hv as [|f fs Hf _ IH]; [done|].
  simpl. by rewrite Hf, IH.
Qed.

Lemma moveFocus_wf el w : wf w → wf (moveFocus el w).
Proof.
  intros (Ht & Hd & Hq & Hk & Hr & Hf & Hv). unfold moveFocus.
  destruct (bool_decide (el = ElEditInput)) eqn:Hel; simpl.
  - apply bool_decide_eq_true in Hel as ->.
    case_bool_decide as Hm; simpl; [|done].
    by split_and!.
  - apply bool_decide_eq_false in Hel.
    split_and!; try done. split_and!; try done. simpl. by intros [= ->].
Qed.

Lemma step_wf ev a : wfApp a → wfApp (step ev a).
Proof.
  destruct a as [w|w]; [|done]. intros Hwf.
  destruct ev as [m|key|ms|p|el]; simpl.
  - apply runHandler_wf; [apply framed_handle|done].
  - by rewrite keyMsgs_nil.
  - by apply elapse_wf.
  - apply update_wf. by apply wf_preOk in Hwf.
  - by apply moveFocus_wf.
Qed.

Lemma reachableUI_reachable a : reachableUI a → reachable a.
Proof. induction 1; by constructor. Qed.

Lemma reachable_wfApp a : reachable a → wfApp a.
Proof. induction 1; [apply mount_wf|by apply step_wf]. Qed.
End invariants.
