(* ===== verification/Gestures.v ===== *)
(** * The gestures, from event to screen

    What one gesture of the user, or one tick of the clock, does to a world
    that satisfies the invariant of [Runtime]: start, typing, save, cancel
    and the teardown 200 ms after a save, each as the equation of [step] on
    that event.  The theorems on the reachable worlds are here too: the
    invariant spelled out, and the facts that follow from it. *)

From Stdlib Require Import Ascii.
From stdpp Require Import sorting.
From S2P Require Import Prelude JsString Uri Dom Types Vdom.
From S2P Require Import TextInputEditable Component ExpressionTable Render.
From S2P Require Import Runtime.

Section gestures.
Context `{Env}.
Implicit Types (w : World) (a : App) (ev : Event) (e o : Expression).

Lemma step_msg m w :
  step (EvMsg m) (Running w) = runHandler (handle m) (Running w).
Proof. done. Qed.

(** ** What the invariant says of a session *)

Lemma wf_render w : wf w → is_Some (render (props w) (state w)).
Proof. by intros (_ & _ & _ & _ & _ & _ & ?). Qed.

Lemma wf_pending w : wf w → pending w = [].
Proof. by intros (_ & _ & ? & _). Qed.

(** In a world with a ref, a row is editable. *)
Lemma wf_editable w :
  wf w → is_Some (editInput w) →
  editableRows (state w) (expressionsOrEmpty (props w)) ≠ [].
Proof.
  intros (_ & _ & _ & Hk & Hr & _) [m Hm]%Hr Hnil.
  unfold refRow in Hk. by rewrite Hm, Hnil in Hk.
Qed.

(** Without an input on screen, the focus is elsewhere. *)
Lemma wf_blur w :
  wf w → mounted w = None → blurEditInput (document w) = document w.
Proof.
  intros (_ & _ & _ & _ & _ & Hf & _) Hm. unfold blurEditInput.
  case_bool_decide as Ha; [|done]. apply Hf in Ha. rewrite Hm in Ha.
  by destruct Ha.
Qed.

(** In a world where a save can go through, the record is there. *)
Lemma wf_original w :
  wf w → canValidate w = true →
  ∃ o, original w = Some o ∧ o ∈ expressionsOrEmpty (props w)
       ∧ rowCanEdit (state w) o = true.
Proof.
  intros Hwf (Hm & He & _)%canValidate_true.
  apply (wf_editable w Hwf), editableRows_find in He as [_ [o Ho]].
  exists o. split; [done|]. apply find_Some_elem in Ho as [? Hid].
  split; [done|]. apply bool_decide_eq_true in Hid.
  by apply rowCanEdit_true.
Qed.

(** Outside a session there is neither an edit input nor a ref. *)
Lemma wf_idle w :
  wf w → editMode (state w) = false → mounted w = None ∧ editInput w = None.
Proof.
  intros (_ & _ & _ & Hk & Hr & _) Hm. unfold refRow in Hk.
  rewrite editableRows_idle in Hk by done.
  assert (mounted w = None) as Hn by (by destruct (mounted w)).
  split; [done|]. rewrite Hn in Hr. apply eq_None_not_Some. rewrite Hr.
  by intros [??].
Qed.

(** ** React's update after a handler that called [setState] *)

Lemma afterHandler_pending w :
  pending w ≠ [] →
  afterHandler w
  = match render (props w) (state (flush w)) with
    | Some _ => Running (execState componentDidUpdate (reconcile (flush w)))
    | None => Crashed (flush w)
    end.
Proof. unfold afterHandler. by destruct (pending w). Qed.

Lemma pending_startEditing e w : pending (execState (startEditing e) w) ≠ [].
Proof.
  unfold execState. rewrite startEditing_spec. simpl. by destruct (pending w).
Qed.

Lemma flush_startEditing e w :
  flush (execState (startEditing e) w)
  = {| w with state := sessionOn e; pending := [] |}.
Proof.
  unfold execState. rewrite startEditing_spec. unfold flush. simpl.
  by rewrite applyUpdates_full_last.
Qed.

(** ** Start *)

Lemma focusEditInput_wantsFocus w :
  is_Some (editInput w) → editMode (state w) = true →
  activeElement (document w) = Some ElEditInput →
  execState componentDidUpdate w = w.
Proof.
  intros He Hm Ha. unfold execState. rewrite componentDidUpdate_spec.
  destruct (wantsFocus w); [|done]. destruct w as [? ? ? ? [a f] ? ? ? ?].
  simpl in *. by rewrite Ha.
Qed.

(** C18: a click on the edit button of a row, outside a session, opens the
    session on the record of the row: the state is in edit mode with the
    text of the record for buffer, its id for id and no error; a fresh edit
    input is mounted in the row, the ref points to it and it has the focus.
    Nothing is sent to the store.  The ids of the table are assumed
    unique. *)
Theorem start_gesture w e :
  wf w → editMode (state w) = false →
  e ∈ expressionsOrEmpty (props w) →
  NoDup (Types.id <$> expressionsOrEmpty (props w)) →
  step (EvMsg (MsgEditStart e)) (Running w)
  = Running {| w with
               state := sessionOn e;
               editInput := Some RefInput;
               mounted := Some {| rowKey := keyOf e; element := freshInput |};
               document := focusEditInput (document w) |}.
Proof.
  intros Hwf Hm He Hnd. destruct (wf_idle w Hwf Hm) as [Hmt Hei].
  destruct (render_session (props w) (state w) e) as [v Hv];
    [done|apply Hwf|done|].
  rewrite step_msg. simpl handle. unfold runHandler.
  rewrite afterHandler_pending, flush_startEditing by apply pending_startEditing.
  simpl. rewrite Hv. f_equal.
  unfold reconcile, refRow. simpl.
  rewrite editableRows_session, Hmt by done. simpl.
  rewrite focusEditInput_wantsFocus by (simpl; eauto).
  by rewrite (proj1 (proj2 (proj2 Hwf))).
Qed.

(** ** Save *)

(** C14: a click on save, in a session whose buffer the validator accepts,
    sends the update of the record under edit to the store, once, marks the
    input valid and starts the teardown timer.  The screen does not change:
    the row stays editable until the timer fires. *)
Theorem save_gesture w :
  wf w → canValidate w = true → validationResult w = "" →
  ∃ o, original w = Some o ∧
    step (EvMsg MsgEditSave) (Running w)
    = Running {| w with
                 mounted := throughRef markValid w;
                 dispatched := dispatched w ++ [updateOf w o];
                 timers := timers w ++ [teardownTimer w] |}.
Proof.
  intros Hwf Hg Hr. destruct (wf_original w Hwf Hg) as (o & Ho & _).
  exists o. split; [done|]. rewrite step_msg. simpl.
  unfold execState. rewrite commitEdit_committed, Ho by done.
  unfold afterHandler. simpl. by destruct Hwf as (_ & _ & -> & _).
Qed.

(** C13: in every world that the component can reach, a save that passes
    the guards of [validateEdit] finds its record: the branch of
    [commitEdit] in which no record has the id of the state is never taken,
    and the record found is one that is rendered editable. *)
Theorem commit_target_present w :
  reachable (Running w) → canValidate w = true →
  ∃ o, original w = Some o ∧ o ∈ expressionsOrEmpty (props w)
       ∧ rowCanEdit (state w) o = true.
Proof. intros Hr%reachable_wfApp. by apply wf_original. Qed.

(** C12: the invariant of the component.  In every world it can reach: no
    state update is pending between two events; every pending timer is a
    teardown due within 200 ms, and the timers are queued in the order in
    which they are due; the ref is set exactly when an edit input is on
    screen, which is exactly when a row is rendered editable; the input on
    screen has a parent element; the focus is not on an input that is gone;
    and [render] does not throw. *)
Theorem reachable_invariant w :
  reachable (Running w) →
  pending w = []
  ∧ Forall (λ t, clock w < due t ≤ clock w + 200) (timers w)
  ∧ StronglySorted (λ t u, due t ≤ due u) (timers w)
  ∧ (is_Some (editInput w) ↔ is_Some (mounted w))
  ∧ (is_Some (mounted w)
     ↔ editableRows (state w) (expressionsOrEmpty (props w)) ≠ [])
  ∧ (∀ m, mounted w = Some m → is_Some (parentElement (element m)))
  ∧ (activeElement (document w) = Some ElEditInput → is_Some (mounted w))
  ∧ is_Some (render (props w) (state w)).
Proof.
  intros ((Hb & Hs) & Hd & Hq & Hk & He & Hf & Hv)%reachable_wfApp.
  split_and!; try done. unfold refRow in Hk.
  rewrite <-(fmap_is_Some rowKey), Hk, fmap_is_Some, last_is_Some. done.
Qed.

(** C20: releasing a key in the edit input, Enter and Escape included,
    does nothing: the handlers that [onKeyUp] names are not called. *)
Theorem key_events_ignored key a : step (EvKey key) a = a.
Proof. destruct a as [w|w]; simpl; [|done]. by rewrite keyMsgs_nil. Qed.

(** ** Teardown *)

Lemma reconcile_idle w :
  editMode (state w) = false → editInput w = None →
  (mounted w = None → blurEditInput (document w) = document w) →
  reconcile w
  = {| w with mounted := None; document := blurEditInput (document w) |}.
Proof.
  intros Hm He Hb. unfold reconcile, refRow.
  rewrite editableRows_idle by done. simpl.
  destruct w as [? ? ? [m|] ? ? ? ? ?]; simplify_eq/=; [done|].
  by rewrite Hb.
Qed.

(** The worlds in which a handler or a task may start: no update of the
    state is queued, and without an input on screen the focus is elsewhere.
    It is the part of [wf] that the teardown needs; unlike [wf] it holds
    while the promises that are due wait for their turn. *)
Definition quiet (w : World) : Prop :=
  pending w = []
  ∧ (mounted w = None → blurEditInput (document w) = document w).

Lemma wf_quiet w : wf w → quiet w.
Proof. intros Hwf. split; [apply (wf_pending w Hwf)|apply (wf_blur w Hwf)]. Qed.

(** [clearEdit] followed by React's update: the world is [idle], unless
    the read-only rendering of some row throws. *)
Lemma runHandler_clearEdit_quiet w :
  quiet w →
  runHandler clearEdit (Running w)
  = match render (props w) newEmptyState with
    | Some _ => Running (idle w)
    | None => Crashed (flush (execState clearEdit w))
    end.
Proof.
  intros [Hq Hb]. simpl.
  unfold execState. rewrite clearEdit_spec. simpl. unfold afterHandler.
  simpl. rewrite Hq. simpl. unfold update. simpl.
  destruct (render _ _) as [v|]; [|done]. f_equal.
  rewrite reconcile_idle; simpl; [| done | done |].
  - unfold execState. rewrite componentDidUpdate_spec. by unfold wantsFocus.
  - unfold throughRef. destruct (editInput w) as [[]|];
      destruct (mounted w); naive_solver.
Qed.

Lemma runHandler_clearEdit w :
  wf w →
  runHandler clearEdit (Running w)
  = match render (props w) newEmptyState with
    | Some _ => Running (idle w)
    | None => Crashed (flush (execState clearEdit w))
    end.
Proof. intros Hwf. by apply runHandler_clearEdit_quiet, wf_quiet. Qed.

Lemma blurEditInput_idemp d : blurEditInput (blurEditInput d) = blurEditInput d.
Proof. unfold blurEditInput. by repeat (case_bool_decide; simpl). Qed.

Lemma idle_idemp w : idle (idle w) = idle w.
Proof. unfold idle. simpl. by rewrite blurEditInput_idemp. Qed.

Lemma quiet_idle w : quiet (idle w).
Proof. split; [done|]. intros _. apply blurEditInput_idemp. Qed.

Lemma fire_Crashed ts w : fire ts (Crashed w) = Crashed w.
Proof. by induction ts. Qed.

Lemma fire_cons t ts a : fire (t :: ts) a = fire ts (runHandler clearEdit a).
Proof. by destruct t as [d []]. Qed.

(** Once a teardown has run, the teardowns that follow change nothing. *)
Lemma fire_idle ts w :
  wf (idle w) → is_Some (render (props w) newEmptyState) →
  fire ts (Running (idle w)) = Running (idle w).
Proof.
  intros Hwf [v Hv]. induction ts as [|t ts IH]; [done|].
  rewrite fire_cons, runHandler_clearEdit by done. simpl props.
  by rewrite Hv, idle_idemp.
Qed.

(** The promises that are due run [clearEdit] once or more: the world is
    [idle], unless the read-only rendering of some row throws. *)
Lemma fire_teardown ts w :
  wf w → ts ≠ [] →
  fire ts (Running w)
  = match render (props w) newEmptyState with
    | Some _ => Running (idle w)
    | None => Crashed (flush (execState clearEdit w))
    end.
Proof.
  intros Hwf Hts. destruct ts as [|t ts]; [done|].
  pose proof (runHandler_wf clearEdit w (framed_clearEdit w) Hwf) as Hwf'.
  rewrite fire_cons. rewrite runHandler_clearEdit in * by done.
  destruct (render _ _) as [v|] eqn:Hv; [|apply fire_Crashed].
  apply fire_idle; [done|]. by rewrite Hv.
Qed.

(** Time passes: if a promise is due the world is [idle], if none is only
    the clock moves. *)
Lemma elapse_spec w ms :
  wf w →
  step (EvElapse ms) (Running w)
  = if existsb (isDue (clock w + ms)) (timers w)
    then match render (props w) newEmptyState with
         | Some _ => Running (idle (later ms w))
         | None => Crashed (flush (execState clearEdit (later ms w)))
         end
    else Running (later ms w).
Proof.
  intros Hwf. simpl. rewrite elapse_later.
  destruct (existsb _ _) eqn:Hex.
  - apply (fire_teardown _ (later ms w)); [by apply later_wf|].
    apply existsb_exists in Hex as (t & Ht & Hd).
    intros Hnil. rewrite filter_none_iff in Hnil.
    rewrite (Hnil t) in Hd; [done|]. by apply list_elem_of_In.
  - replace (List.filter _ (timers w)) with (@nil Timer); [done|].
    symmetry. apply filter_none_iff. intros t Ht%list_elem_of_In.
    apply not_true_is_false. intros Hd.
    assert (existsb (isDue (clock w + ms)) (timers w) = true); [|congruence].
    apply existsb_exists. eauto.
Qed.

(** After 200 ms every pending promise is due. *)
Lemma wf_due w t :
  wf w → t ∈ timers w → isDue (clock w + 200) t = true.
Proof.
  intros ((Hb & _) & _) Ht. rewrite Forall_forall in Hb.
  apply Hb in Ht. unfold isDue. apply Nat.leb_le. lia.
Qed.

Lemma later_all_due w :
  wf w → timers (later 200 w) = [].
Proof.
  intros Hwf. apply filter_none_iff. intros t Ht.
  by rewrite (wf_due w t).
Qed.

(** While no promise is due, time changes the clock only. *)
Lemma elapse_early w ms :
  wf w → Forall (λ t, clock w + ms < due t) (timers w) →
  step (EvElapse ms) (Running w) = Running {| w with clock := clock w + ms |}.
Proof.
  intros Hwf Hall. rewrite elapse_spec by done.
  assert (∀ t, t ∈ timers w → isDue (clock w + ms) t = false) as Hnd.
  { intros t Ht. rewrite Forall_forall in Hall. apply Hall in Ht.
    unfold isDue. apply Nat.leb_gt. lia. }
  replace (existsb _ _) with false.
  - unfold later. f_equal. f_equal. apply filter_all.
    intros t Ht. by rewrite Hnd.
  - symmetry. apply not_true_is_false.
    intros (t & Ht%list_elem_of_In & Hd)%existsb_exists.
    by rewrite Hnd in Hd.
Qed.

(** C16: the passing of time.  Before a promise of [sleep] is due, it
    changes nothing but the clock: for 200 ms after a save the row stays
    editable.  When a promise is due, the session is torn down: the state
    is the initial one, the ref is dropped, the edit input is gone from the
    screen and the promises that were due from the queue; nothing is sent
    to the store.  (The component goes down instead if the text of some
    record cannot be decoded for the read-only rendering.) *)
Theorem teardown_after_delay w ms :
  wf w →
  (Forall (λ t, clock w + ms < due t) (timers w) →
   step (EvElapse ms) (Running w)
   = Running {| w with clock := clock w + ms |})
  ∧ (∀ t, t ∈ timers w → due t ≤ clock w + ms →
     match step (EvElapse ms) (Running w) with
     | Running w' =>
         state w' = newEmptyState ∧ editInput w' = None ∧ mounted w' = None
         ∧ dispatched w' = dispatched w ∧ clock w' = clock w + ms
         ∧ timers w'
           = List.filter (λ t, negb (due t <=? clock w + ms)) (timers w)
     | Crashed _ => render (props w) newEmptyState = None
     end).
Proof.
  intros Hwf. split; [by apply elapse_early|].
  intros t Ht Hd. rewrite elapse_spec by done.
  replace (existsb _ _) with true.
  - by destruct (render _ _).
  - symmetry. apply existsb_exists. exists t.
    split; [by apply list_elem_of_In|]. by apply Nat.leb_le.
Qed.

(** C23: a teardown timer ends the session that is open when it fires,
    not the session of the save that started it: in any world with a
    pending timer, whatever is under edit, 200 ms later the table is idle
    and every timer is gone. *)
Theorem stale_teardown_ends_session w :
  wf w → timers w ≠ [] →
  match step (EvElapse 200) (Running w) with
  | Running w' =>
      state w' = newEmptyState ∧ mounted w' = None ∧ timers w' = []
  | Crashed _ => render (props w) newEmptyState = None
  end.
Proof.
  intros Hwf Hts. rewrite elapse_spec by done.
  replace (existsb _ _) with true.
  - destruct (render _ _); [|done].
    split_and!; [done|done|]. by apply later_all_due.
  - symmetry. destruct (timers w) as [|t ts] eqn:Et; [done|]. simpl.
    rewrite (wf_due w t Hwf); [done|]. rewrite Et. left.
Qed.

(** C17: cancel leaves the session at once: after the click the state is
    the initial one, the ref is dropped and the edit input is gone from the
    screen; the store and the timers are as before.  A second cancel changes
    nothing. *)
Theorem cancel_gesture w :
  wf w → is_Some (render (props w) newEmptyState) →
  step (EvMsg MsgEditClear) (Running w) = Running (idle w)
  ∧ dispatched (idle w) = dispatched w ∧ timers (idle w) = timers w
  ∧ step (EvMsg MsgEditClear) (Running (idle w)) = Running (idle w).
Proof.
  intros Hwf [v Hv].
  pose proof (runHandler_wf clearEdit w (framed_clearEdit w) Hwf) as Hwf'.
  rewrite runHandler_clearEdit, Hv in Hwf' by done.
  rewrite !step_msg. simpl handle.
  rewrite !runHandler_clearEdit by done. simpl props.
  by rewrite Hv, idle_idemp.
Qed.

(** ** Typing *)

(** When the state changes in its buffer or its error only, the commit
    keeps the input that is on screen. *)
Lemma reconcile_fixed w :
  rowKey <$> mounted w = keyOf <$> refRow w →
  (is_Some (editInput w) ↔ is_Some (mounted w)) →
  reconcile w = w.
Proof.
  intros Hk Hr. unfold reconcile.
  destruct (refRow w) as [e|], (mounted w) as [m|] eqn:Hm; simplify_eq/=;
    [|done].
  rewrite bool_decide_eq_true_2 by done.
  destruct (proj2 Hr (mk_is_Some _ _ eq_refl)) as [[] Hei].
  destruct w; simpl in *; by subst.
Qed.

Lemma reconcile_kept w s mt :
  wf w → editMode s = editMode (state w) → id s = id (state w) →
  rowKey <$> mt = rowKey <$> mounted w →
  reconcile {| w with state := s; mounted := mt |}
  = {| w with state := s; mounted := mt |}.
Proof.
  intros (_ & _ & _ & Hk & Hr & _) Hm Hi Hmt. apply reconcile_fixed; simpl.
  - unfold refRow, editableRows, rowCanEdit in *. simpl.
    by rewrite Hm, Hi, Hmt.
  - by rewrite Hr, <-(fmap_is_Some rowKey), <-Hmt, fmap_is_Some.
Qed.

Lemma rowKey_throughRef f w :
  rowKey <$> throughRef f w = rowKey <$> mounted w.
Proof.
  unfold throughRef. by destruct (editInput w) as [[]|], (mounted w).
Qed.

Lemma render_withInvalid p s message :
  render p (withInvalid message s) = None ↔ render p s = None.
Proof. by rewrite !render_None. Qed.

Lemma flush_reject w :
  canValidate w = true → validationResult w ≠ "" → pending w = [] →
  flush (execState commitEdit w)
  = {| w with
       state := withInvalid (validationResult w) (state w);
       mounted := throughRef (markInvalid (validationResult w)) w |}.
Proof.
  intros Hg Hr Hq. unfold flush, execState.
  rewrite commitEdit_invalid by done. simpl. rewrite Hq. simpl.
  destruct w; simpl in *; by subst.
Qed.

(** C15: a click on save, in a session whose buffer the validator refuses,
    shows the error: the message is the error of the state, the input is
    marked invalid with it, and the session goes on with the same buffer.
    Nothing is sent to the store and no timer is started. *)
Theorem reject_gesture w :
  wf w → canValidate w = true → validationResult w ≠ "" →
  ∃ w', step (EvMsg MsgEditSave) (Running w) = Running w'
        ∧ state w' = withInvalid (validationResult w) (state w)
        ∧ mounted w' = throughRef (markInvalid (validationResult w)) w
        ∧ editInput w' = editInput w
        ∧ dispatched w' = dispatched w ∧ timers w' = timers w.
Proof.
  intros Hwf Hg Hr. pose proof (wf_pending w Hwf) as Hq.
  destruct (wf_render w Hwf) as [v Hv].
  rewrite step_msg. unfold runHandler. simpl handle.
  rewrite afterHandler_pending, flush_reject; try done.
  - simpl. rewrite reconcile_kept by (done || apply rowKey_throughRef).
    destruct (render _ (withInvalid _ _)) eqn:Hv'.
    + eexists. split; [done|]. unfold execState.
      rewrite componentDidUpdate_spec. by destruct (wantsFocus _).
    + apply render_withInvalid in Hv'. unfold execState in Hv'.
      rewrite commitEdit_invalid in Hv' by done. simpl in Hv'. congruence.
  - unfold execState. rewrite commitEdit_invalid by done. simpl.
    by destruct (pending w).
Qed.

Lemma flush_change value w :
  pending w = [] →
  flush (execState (handle (MsgChange value)) w)
  = {| w with state := withBuffer value (state w) |}.
Proof.
  intros Hq. unfold flush, execState. simpl. rewrite Hq. simpl.
  destruct w; simpl in *; by subst.
Qed.

Lemma step_change w value :
  wf w → is_Some (editInput w) →
  step (EvMsg (MsgChange value)) (Running w)
  = match decodeURIComponent value with
    | Some _ =>
        Running (execState componentDidUpdate
                   {| w with state := withBuffer value (state w) |})
    | None => Crashed {| w with state := withBuffer value (state w) |}
    end.
Proof.
  intros Hwf He. pose proof (wf_editable w Hwf He) as Hrows.
  assert (pending w = []) as Hq by apply Hwf.
  pose proof (render_buffer (props w) (state w) value (wf_render w Hwf) Hrows)
    as [Hrb1 Hrb2].
  rewrite step_msg. unfold runHandler.
  rewrite afterHandler_pending by (simpl; by destruct (pending w)).
  rewrite flush_change by done. simpl. rewrite reconcile_kept by done.
  destruct (render _ _), (decodeURIComponent value); try done.
  - by destruct Hrb1 as [? [=]].
  - by destruct Hrb2 as [? [=]].
Qed.

(** Typing in the edit input replaces the buffer and nothing else: the
    mode, the id and the error message of the state, the input element with
    its validation marks, the store and the timers are as before.  The text
    typed must be decodable. *)
Theorem typing_gesture w value :
  wf w → is_Some (editInput w) → is_Some (decodeURIComponent value) →
  ∃ w', step (EvMsg (MsgChange value)) (Running w) = Running w'
        ∧ state w' = withBuffer value (state w)
        ∧ mounted w' = mounted w ∧ editInput w' = editInput w
        ∧ dispatched w' = dispatched w ∧ timers w' = timers w.
Proof.
  intros Hwf He [x Hx]. rewrite step_change, Hx by done.
  eexists. split; [done|]. unfold execState.
  rewrite componentDidUpdate_spec. by destruct (wantsFocus _).
Qed.

(** C21: typing a text that ends with a percent sign takes the component
    down: [decodeURIComponent] throws from [render]. *)
Theorem typing_percent_crashes w value :
  wf w → is_Some (editInput w) → lastChar value = Some "%"%char →
  step (EvMsg (MsgChange value)) (Running w)
  = Crashed {| w with state := withBuffer value (state w) |}.
Proof.
  intros Hwf He Hl. rewrite step_change by done.
  by rewrite decodeURIComponent_trailing_percent.
Qed.

(** ** A keystroke *)

Lemma componentDidUpdate_keeps w :
  let w' := execState componentDidUpdate w in
  state w' = state w ∧ props w' = props w ∧ editInput w' = editInput w
  ∧ mounted w' = mounted w ∧ dispatched w' = dispatched w
  ∧ timers w' = timers w.
Proof.
  cbv zeta. unfold execState. rewrite componentDidUpdate_spec.
  by destruct (wantsFocus w).
Qed.

(** The text in the edit input: what [render] wrote into its [value]. *)
Definition displayed (w : World) : option string :=
  decodeURIComponent (expressionInput (state w)).

(** The user types the character [c] at the end of the text: the value of
    the input becomes the text displayed followed by [c], and [onChange] is
    called with it ([e.target.value]). *)
Definition keystroke (c : ascii) (w : World) : option Event :=
  d ← displayed w; Some (EvMsg (MsgChange (d +:+ String c ""))).

(** C32: a keystroke stores the decoded text.  The input shows the buffer
    decoded, and [onChange] stores what the input holds: after one
    character typed at the end, the buffer is the decoded old buffer
    followed by the character, and it is decoded again for display.  An
    escape in the record ([%2541] for the text [%41]) is lost by the first
    keystroke. *)
Theorem keystroke_stores_decoded w c d :
  wf w → is_Some (editInput w) → displayed w = Some d →
  is_Some (decodeURIComponent (d +:+ String c "")) →
  ∃ ev w', keystroke c w = Some ev
           ∧ step ev (Running w) = Running w'
           ∧ expressionInput (state w') = d +:+ String c ""
           ∧ displayed w' = decodeURIComponent (d +:+ String c "").
Proof.
  intros Hwf He Hd [x Hx]. unfold keystroke. rewrite Hd.
  eexists _, _. split; [done|]. rewrite step_change, Hx by done.
  split; [done|].
  destruct (componentDidUpdate_keeps
              {| w with state := withBuffer (d +:+ String c "") (state w) |})
    as (Es & _).
  unfold displayed. by rewrite Es.
Qed.

(** ** The record under edit leaves the table *)

Lemma commitEdit_refused w : canValidate w = false → execState commitEdit w = w.
Proof.
  intros Hg. unfold execState. rewrite commitEdit_aborted.
  - unfold execState. by rewrite validateEdit_refused.
  - unfold evalState. by rewrite validateEdit_refused.
Qed.

Lemma flush_nothing w : pending w = [] → flush w = w.
Proof.
  intros Hq. unfold flush. rewrite Hq. destruct w; simpl in *; by subst.
Qed.

(** When no record has the id of the state, no row is editable. *)
Lemma original_None_editableRows w :
  original w = None →
  editableRows (state w) (expressionsOrEmpty (props w)) = [].
Proof.
  intros Ho. destruct (editableRows _ _) eqn:Hrows; [done|].
  assert (editableRows (state w) (expressionsOrEmpty (props w)) ≠ [])
    as [_ [o Hx]]%editableRows_find by by rewrite Hrows.
  unfold original in Ho. congruence.
Qed.

(** Without a ref a save changes nothing, on screen or elsewhere. *)
Lemma step_save_no_ref w :
  pending w = [] → editInput w = None →
  step (EvMsg MsgEditSave) (Running w) = Running w.
Proof.
  intros Hq He. rewrite step_msg. simpl.
  rewrite commitEdit_refused; [unfold afterHandler; by rewrite Hq|].
  unfold canValidate. by rewrite He, andb_false_r.
Qed.

(** New props without a record of the id of the state: the input is
    unmounted and the ref dropped; the state, the log and the timers are
    as they were. *)
Lemma props_without_record w p :
  wf w → original {| w with props := p |} = None →
  is_Some (render p (state w)) →
  ∃ w', step (EvProps p) (Running w) = Running w' ∧ wf w'
        ∧ state w' = state w ∧ props w' = p
        ∧ editInput w' = None ∧ mounted w' = None
        ∧ dispatched w' = dispatched w ∧ timers w' = timers w.
Proof.
  intros Hwf Ho [v Hv]. set (w0 := {| w with props := p |}).
  assert (update w0 = Running (execState componentDidUpdate (reconcile w0)))
    as Hup.
  { unfold update. rewrite flush_nothing by apply (wf_pending w Hwf).
    simpl. by rewrite Hv. }
  pose proof (update_wf w0 (wf_preOk w Hwf)) as Hwf2. rewrite Hup in Hwf2.
  destruct (componentDidUpdate_keeps (reconcile w0))
    as (Es2 & Ep2 & Ee2 & Em2 & Ed2 & Et2).
  destruct (reconcile_spec w0) as ((Es & Ep & _ & Et & _ & Ed) & _).
  set (w2 := execState componentDidUpdate (reconcile w0)) in *.
  assert (refRow w2 = None) as Hrow.
  { unfold refRow. rewrite Es2, Ep2, Es, Ep.
    by rewrite (original_None_editableRows w0). }
  pose proof Hwf2 as (_ & _ & _ & Hk & Hr & _).
  assert (mounted w2 = None) as Hm.
  { rewrite Hrow in Hk. by destruct (mounted w2). }
  assert (editInput w2 = None) as He.
  { apply eq_None_not_Some. rewrite Hr, Hm. by intros [??]. }
  exists w2. split_and!; [exact Hup|done|by rewrite Es2, Es|by rewrite Ep2, Ep
    |done|done|by rewrite Ed2, Ed|by rewrite Et2, Et].
Qed.

(** ** The log of commands *)

Lemma update_dispatched w w' :
  update w = Running w' → dispatched w' = dispatched w.
Proof.
  unfold update. destruct (render _ _); [|done]. intros [= <-].
  unfold execState. rewrite componentDidUpdate_spec.
  pose proof (reconcile_spec (flush w)) as ((_ & _ & _ & _ & _ & Hd) & _).
  by destruct (wantsFocus _).
Qed.

Lemma afterHandler_dispatched w w' :
  afterHandler w = Running w' → dispatched w' = dispatched w.
Proof.
  unfold afterHandler. destruct (pending w); [by intros [= <-]|].
  apply update_dispatched.
Qed.

(** One event leaves the commands that were sent in place and appends one
    command at most. *)
Lemma step_dispatched w ev w' :
  wf w → step ev (Running w) = Running w' →
  ∃ acts, dispatched w' = dispatched w ++ acts ∧ length acts ≤ 1.
Proof.
  intros Hwf. destruct ev as [m|key|ms|p|el].
  - rewrite step_msg. intros ->%afterHandler_dispatched.
    apply framed_handle.
  - simpl. rewrite keyMsgs_nil. intros [= <-]. apply grows1_same.
  - rewrite elapse_spec by done.
    destruct (existsb _ _); [destruct (render _ _)|];
      intros [= <-]; apply grows1_same.
  - simpl. intros ->%update_dispatched. apply grows1_same.
  - simpl. intros [= <-]. unfold moveFocus. case_match; apply grows1_same.
Qed.

Lemma steps_Crashed evs w : steps evs (Crashed w) = Crashed w.
Proof. by induction evs. Qed.

Lemma steps_cons ev evs a : steps (ev :: evs) a = steps evs (step ev a).
Proof. done. Qed.

(** C24: the log of commands only grows, and by one command per event at
    most.  Along any sequence of events that leaves the table running, the
    commands that were sent before are still the first of the log, in
    their order, and the log has at most as many new commands as there
    were events: no event removes, reorders or rewrites a command that was
    sent, and no click sends two. *)
Theorem log_grows_by_one w evs w' :
  wf w → steps evs (Running w) = Running w' →
  ∃ acts, dispatched w' = dispatched w ++ acts ∧ length acts ≤ length evs.
Proof.
  revert w. induction evs as [|ev evs IH]; intros w Hwf.
  - intros [= <-]. exists []. by rewrite app_nil_r.
  - rewrite steps_cons. pose proof (step_wf ev (Running w) Hwf) as Hwf1.
    destruct (step ev (Running w)) as [w1|w1] eqn:Hs;
      [|by rewrite steps_Crashed].
    intros (acts2 & -> & Hl2)%IH; [|done].
    destruct (step_dispatched w ev w1 Hwf Hs) as (acts1 & -> & Hl1).
    exists (acts1 ++ acts2). rewrite app_assoc, length_app. simpl.
    split; [done|lia].
Qed.
End gestures.

(** * The gestures on the sample table

    The worlds of a session on the sample table, each reached from [mount]
    by the gestures named, and the theorems above applied to them. *)

#[local] Existing Instance sampleEnv.

(** The table as mounted. *)
Definition mounted0 : World := constructor sampleProps sampleDocument.

(** After a save of ["example.org"]: the command is in the log and the
    teardown timer in the queue. *)
Definition saved : World :=
  {| (editing "example.org") with
     dispatched := [updateOf (editing "example.org") rule1];
     timers := [{| due := 200; task := TaskClearEdit |}] |}.

(** A session on the second rule, opened while the timer of the save is
    pending. *)
Definition reopened : World :=
  {| saved with
     state := sessionOn rule2;
     mounted := Some {| rowKey := keyOf rule2; element := freshInput |} |}.

Lemma reachable_steps evs a : reachable a → reachable (steps evs a).
Proof.
  revert a. induction evs as [|ev evs IH]; intros a Ha; [done|].
  simpl. apply IH. by constructor.
Qed.

(** [reach evs] proves that a world is reachable: it is the world that the
    events [evs] lead to from the mounted sample table. *)
Ltac reach evs :=
  lazymatch goal with
  | |- reachable ?a =>
      replace a with (steps evs (mount sampleProps sampleDocument))
        by (vm_compute; reflexivity);
      apply reachable_steps, reachable_mount
  end.

Lemma mounted0_reachable : reachable (Running mounted0).
Proof. reach (@nil Event). Qed.

Lemma editing_reachable : reachable (Running (editing "example.com")).
Proof. reach [EvMsg (MsgEditStart rule1)]. Qed.

Lemma typed_reachable : reachable (Running (editing "example.org")).
Proof.
  reach [EvMsg (MsgEditStart rule1); EvMsg (MsgChange "example.org")].
Qed.

Lemma mistyped_reachable : reachable (Running (editing "bad url")).
Proof. reach [EvMsg (MsgEditStart rule1); EvMsg (MsgChange "bad url")]. Qed.

Lemma saved_reachable : reachable (Running saved).
Proof.
  reach [EvMsg (MsgEditStart rule1); EvMsg (MsgChange "example.org");
         EvMsg MsgEditSave].
Qed.

Lemma reopened_reachable : reachable (Running reopened).
Proof.
  reach [EvMsg (MsgEditStart rule1); EvMsg (MsgChange "example.org");
         EvMsg MsgEditSave; EvMsg MsgEditClear; EvMsg (MsgEditStart rule2)].
Qed.

Lemma sampleProps_NoDup :
  NoDup (Types.id <$> expressionsOrEmpty sampleProps).
Proof. apply (bool_decide_unpack (NoDup _)). by vm_compute. Qed.

Lemma start_gesture_witness :
  step (EvMsg (MsgEditStart rule1)) (Running mounted0)
  = Running (editing "example.com").
Proof.
  apply (start_gesture mounted0 rule1);
    [apply (reachable_wfApp _ mounted0_reachable)|done|left
    |apply sampleProps_NoDup].
Defined.

Lemma save_gesture_witness :
  ∃ o, original (editing "example.org") = Some o
       ∧ step (EvMsg MsgEditSave) (Running (editing "example.org"))
         = Running
             {| (editing "example.org") with
                mounted := throughRef markValid (editing "example.org");
                dispatched := [updateOf (editing "example.org") o];
                timers := [teardownTimer (editing "example.org")] |}.
Proof.
  apply (save_gesture (editing "example.org"));
    [apply (reachable_wfApp _ typed_reachable)|done|done].
Defined.

Lemma commit_target_present_witness :
  ∃ o, original (editing "example.org") = Some o
       ∧ o ∈ expressionsOrEmpty (props (editing "example.org"))
       ∧ rowCanEdit (state (editing "example.org")) o = true.
Proof.
  apply (commit_target_present (editing "example.org"));
    [apply typed_reachable|done].
Defined.

Lemma reachable_invariant_witness :
  pending saved = []
  ∧ Forall (λ t, clock saved < due t ≤ clock saved + 200) (timers saved)
  ∧ StronglySorted (λ t u, due t ≤ due u) (timers saved)
  ∧ (is_Some (editInput saved) ↔ is_Some (mounted saved))
  ∧ (is_Some (mounted saved)
     ↔ editableRows (state saved) (expressionsOrEmpty (props saved)) ≠ [])
  ∧ (∀ m, mounted saved = Some m → is_Some (parentElement (element m)))
  ∧ (activeElement (document saved) = Some ElEditInput
     → is_Some (mounted saved))
  ∧ is_Some (render (props saved) (state saved)).
Proof. apply (reachable_invariant saved), saved_reachable. Defined.

Lemma teardown_after_delay_witness :
  step (EvElapse 199) (Running saved)
  = Running {| saved with clock := clock saved + 199 |}
  ∧ match step (EvElapse 200) (Running saved) with
    | Running w' =>
        state w' = newEmptyState ∧ editInput w' = None ∧ mounted w' = None
        ∧ dispatched w' = dispatched saved ∧ clock w' = clock saved + 200
        ∧ timers w'
          = List.filter (λ t, negb (due t <=? clock saved + 200))
              (timers saved)
    | Crashed _ => render (props saved) newEmptyState = None
    end.
Proof.
  pose proof (reachable_wfApp _ saved_reachable) as Hwf. split.
  - apply (teardown_after_delay saved 199 Hwf).
    constructor; [simpl; lia|constructor].
  - apply (proj2 (teardown_after_delay saved 200 Hwf)
             {| due := 200; task := TaskClearEdit |}); [left|simpl; lia].
Defined.

Lemma stale_teardown_ends_session_witness :
  match step (EvElapse 200) (Running reopened) with
  | Running w' =>
      state w' = newEmptyState ∧ mounted w' = None ∧ timers w' = []
  | Crashed _ => render (props reopened) newEmptyState = None
  end.
Proof.
  apply (stale_teardown_ends_session reopened);
    [apply (reachable_wfApp _ reopened_reachable)|done].
Defined.

Lemma cancel_gesture_witness :
  step (EvMsg MsgEditClear) (Running (editing "bad url"))
  = Running (idle (editing "bad url"))
  ∧ dispatched (idle (editing "bad url")) = dispatched (editing "bad url")
  ∧ timers (idle (editing "bad url")) = timers (editing "bad url")
  ∧ step (EvMsg MsgEditClear) (Running (idle (editing "bad url")))
    = Running (idle (editing "bad url")).
Proof.
  apply (cancel_gesture (editing "bad url"));
    [apply (reachable_wfApp _ mistyped_reachable)|by eexists].
Defined.

Lemma typing_gesture_witness :
  ∃ w', step (EvMsg (MsgChange "example.org"))
          (Running (editing "example.com")) = Running w'
        ∧ state w' = withBuffer "example.org" (state (editing "example.com"))
        ∧ mounted w' = mounted (editing "example.com")
        ∧ editInput w' = editInput (editing "example.com")
        ∧ dispatched w' = dispatched (editing "example.com")
        ∧ timers w' = timers (editing "example.com").
Proof.
  apply (typing_gesture (editing "example.com") "example.org");
    [apply (reachable_wfApp _ editing_reachable)|by eexists|by eexists].
Defined.

Lemma typing_percent_crashes_witness :
  step (EvMsg (MsgChange "100%")) (Running (editing "example.com"))
  = Crashed (editing "100%").
Proof.
  apply (typing_percent_crashes (editing "example.com") "100%");
    [apply (reachable_wfApp _ editing_reachable)|by eexists|done].
Defined.

Lemma reject_gesture_witness :
  ∃ w', step (EvMsg MsgEditSave) (Running (editing "bad url")) = Running w'
        ∧ state w' = withInvalid "inputErrorSpace" (state (editing "bad url"))
        ∧ mounted w'
          = throughRef (markInvalid "inputErrorSpace") (editing "bad url")
        ∧ editInput w' = editInput (editing "bad url")
        ∧ dispatched w' = dispatched (editing "bad url")
        ∧ timers w' = timers (editing "bad url").
Proof.
  change "inputErrorSpace" with (validationResult (editing "bad url")).
  apply (reject_gesture (editing "bad url"));
    [apply (reachable_wfApp _ mistyped_reachable)|done|done].
Defined.

Lemma log_grows_by_one_witness :
  ∃ acts, dispatched saved = dispatched (editing "example.org") ++ acts
          ∧ length acts ≤ 2.
Proof.
  apply (log_grows_by_one (editing "example.org")
           [EvMsg MsgEditSave; EvKey "Enter"] saved);
    [apply (reachable_wfApp _ typed_reachable)|by vm_compute].
Defined.

Lemma escaped_reachable : reachable (Running (editing "a%2520b")).
Proof. reach [EvMsg (MsgEditStart rule1); EvMsg (MsgChange "a%2520b")]. Qed.

Lemma keystroke_stores_decoded_witness :
  ∃ ev w', keystroke "c" (editing "a%2520b") = Some ev
           ∧ step ev (Running (editing "a%2520b")) = Running w'
           ∧ expressionInput (state w') = "a%20bc"
           ∧ displayed w' = Some "a bc".
Proof.
  apply (keystroke_stores_decoded (editing "a%2520b") "c" "a%20b");
    [apply (reachable_wfApp _ escaped_reachable)|by eexists|done|by eexists].
Defined.
