(* ===== verification/Session.v ===== *)
(** * The edit session, abstractly, and its refinement by the component

    The specification describes the table as a controller with an edit
    session ([active], [targetId], [buffer], [error]), a collection of
    records, a command sink and a deferred teardown.  This file states that
    machine ([Abs], [astep]) without React, without the DOM and without the
    ref, and proves that the component implements it: on every event that
    the screen offers, the abstraction [abs] of the world after [step] is
    the abstract state after [astep], and the component goes down exactly
    when the abstract machine has no next state
    ([component_refines_session]).

    The abstract machine is the one the code implements.  Where the
    specification asks for something else, the operation says so in its
    comment: the error is kept by a successful validation, the command
    carries the buffer as typed, a save without its record does nothing at
    all. *)

From S2P Require Import Prelude JsString Uri Dom Types Vdom.
From S2P Require Import TextInputEditable Component ExpressionTable Render.
From S2P Require Import Runtime Gestures.

(** ** The abstract machine *)

(** The edit session of the specification. *)
Record EditSession := mkEditSession {
  active : bool;                (* [editMode] *)
  targetId : option string;     (* [id] *)
  buffer : string;              (* [expressionInput] *)
  error : string;               (* [invalid] *)
}.

(** The controller and its surroundings: the session, the records and the
    store id it is given, the commands it has sent, the teardowns it has
    scheduled, the time. *)
Record Abs := mkAbs {
  session : EditSession;
  table : Component.OwnProps;
  outbox : list ReduxAction;
  alarms : list Timer;
  now : nat;
}.

Definition sessionOf (s : EmptyState) : EditSession :=
  {| active := editMode s; targetId := id s; buffer := expressionInput s;
     error := invalid s |}.

(** The abstraction: what is left of a world when the DOM, the ref and
    React's queue are forgotten. *)
Definition abs (w : World) : Abs :=
  {| session := sessionOf (state w); table := props w;
     outbox := dispatched w; alarms := timers w; now := clock w |}.

(** Two worlds are the same session when they differ in the DOM, the ref,
    the focus and React's queue only. *)
Definition sameSession (w w' : World) : Prop := abs w = abs w'.

#[export] Instance sameSession_equivalence : Equivalence sameSession.
Proof. unfold sameSession. split; red; congruence. Qed.

Definition idleSession : EditSession :=
  {| active := false; targetId := Some ""; buffer := ""; error := "" |}.

(** [startEdit(record)]: from any state, the session is on the record. *)
Definition startEdit (r : Expression) : EditSession :=
  {| active := true; targetId := Types.id r; buffer := expression r;
     error := "" |}.

(** [changeBuffer(text)]: replaces the buffer; no-op outside a session. *)
Definition changeBuffer (text : string) (s : EditSession) : EditSession :=
  if active s
  then {| active := true; targetId := targetId s; buffer := text;
          error := error s |}
  else s.

(** The record under edit. *)
Definition target (a : Abs) : option Expression :=
  find (λ r, bool_decide (Types.id r = targetId (session a)))
       (expressionsOrEmpty (table a)).

Section machine.
Context `{Env}.

(** [validate()]: the message of the validator on the trimmed buffer. *)
Definition validate (s : EditSession) : string :=
  trim (validateExpressionDomain (trim (buffer s))).

(** [commitEdit()].  Outside a session, for an empty id or when the record
    is gone: nothing.  When the validator refuses the buffer: the error is
    set.  Otherwise: the update of the record with the buffer (as typed)
    and the store id of the table is sent, and the teardown is scheduled
    200 ms later; the error is left as it is. *)
Definition commit (a : Abs) : Abs :=
  let s := session a in
  if negb (active s) || negb (truthyO (targetId s)) then a else
  match target a with
  | None => a
  | Some r =>
      if truthy (validate s)
      then {| a with
              session := {| active := true; targetId := targetId s;
                            buffer := buffer s; error := validate s |} |}
      else {| a with
              outbox := outbox a ++
                [updateExpressionUI
                   (withExpression (buffer s) (storeId (table a)) r)];
              alarms := alarms a ++ [{| due := now a + 200;
                                        task := TaskClearEdit |}] |}
  end.

(** The text that the row of a record shows, decoded. *)
Definition shown (a : Abs) (r : Expression) : option string :=
  decodeURIComponent
    (if active (session a) && bool_decide (targetId (session a) = Types.id r)
     then buffer (session a)
     else expression r).

(** Every row can be shown. *)
Definition viewable (a : Abs) : bool :=
  forallb (λ r, bool_decide (is_Some (shown a r)))
          (expressionsOrEmpty (table a)).

(** The machine has a next state when the table can be shown in it. *)
Definition rerender (a : Abs) : option Abs :=
  if viewable a then Some a else None.

(** Time passes: if a teardown is due the session ends. *)
Definition tick (ms : nat) (a : Abs) : Abs :=
  let t := now a + ms in
  let rest := List.filter (λ x, negb (due x <=? t)) (alarms a) in
  if existsb (λ x, due x <=? t) (alarms a)
  then {| a with session := idleSession; alarms := rest; now := t |}
  else {| a with alarms := rest; now := t |}.

(** The transition function of the abstract machine. *)
Definition astep (ev : Event) (a : Abs) : option Abs :=
  match ev with
  | EvMsg (MsgEditStart r) => rerender {| a with session := startEdit r |}
  | EvMsg (MsgChange text) =>
      rerender {| a with session := changeBuffer text (session a) |}
  | EvMsg MsgEditSave => rerender (commit a)
  | EvMsg MsgEditClear => rerender {| a with session := idleSession |}
  | EvMsg (MsgRemove r) =>
      Some {| a with outbox := outbox a ++ [removeExpressionUI r] |}
  | EvMsg (MsgToggle r) =>
      Some {| a with outbox := outbox a ++ [updateExpressionUI (toggled r)] |}
  | EvKey _ | EvFocus _ => Some a
  | EvElapse ms => rerender (tick ms a)
  | EvProps p => rerender {| a with table := p |}
  end.

(** The abstract state of a component, running or down. *)
Definition absApp (x : App) : option Abs :=
  match x with
  | Running w => Some (abs w)
  | Crashed _ => None
  end.

(** The abstract machine on a sequence of events. *)
Definition asteps (evs : list Event) (a : option Abs) : option Abs :=
  foldl (λ x ev, x ≫= astep ev) a evs.

(** The machine when the table is mounted. *)
Definition ainit (p : Component.OwnProps) : Abs :=
  {| session := idleSession; table := p; outbox := []; alarms := [];
     now := 0 |}.

(** Every event of the sequence is offered by the screen on which it
    happens. *)
Fixpoint offeredAlong (evs : list Event) (x : App) : bool :=
  match evs, x with
  | ev :: evs', Running w => offered w ev && offeredAlong evs' (step ev x)
  | _, _ => true
  end.
End machine.

(** * The component refines the abstract machine *)

Section refinement.
Context `{Env}.
Implicit Types (w : World) (a : Abs) (ev : Event) (r : Expression).

(** ** The abstraction forgets the DOM, the ref and the queue *)

Lemma abs_ext w w' :
  state w' = state w → props w' = props w → dispatched w' = dispatched w →
  timers w' = timers w → clock w' = clock w → abs w' = abs w.
Proof. unfold abs. by intros -> -> -> -> ->. Qed.

Lemma abs_reconcile w : abs (reconcile w) = abs w.
Proof.
  pose proof (reconcile_spec w) as ((? & ? & _ & ? & ? & ?) & _).
  by apply abs_ext.
Qed.

Lemma abs_componentDidUpdate w : abs (execState componentDidUpdate w) = abs w.
Proof.
  unfold execState. rewrite componentDidUpdate_spec.
  by destruct (wantsFocus w).
Qed.

Lemma abs_moveFocus el w : abs (moveFocus el w) = abs w.
Proof. unfold moveFocus. by case_match. Qed.

(** ** The table can be shown exactly when [render] returns *)

Lemma shown_rowShown w r : shown (abs w) r = rowShown (state w) r.
Proof.
  unfold shown, rowShown, rowCanEdit. simpl. by case_match.
Qed.

Lemma viewable_render w :
  viewable (abs w) = true ↔ is_Some (render (props w) (state w)).
Proof.
  unfold viewable. rewrite forallb_forall, render_Some_iff. simpl.
  split; intros Hall r Hr.
  - apply list_elem_of_In, Hall, bool_decide_eq_true in Hr.
    by rewrite <-shown_rowShown.
  - apply bool_decide_eq_true. rewrite shown_rowShown.
    by apply Hall, list_elem_of_In.
Qed.

Lemma rerender_abs w :
  rerender (abs w)
  = match render (props w) (state w) with
    | Some _ => Some (abs w)
    | None => None
    end.
Proof.
  unfold rerender. pose proof (viewable_render w) as Hv.
  destruct (viewable (abs w)), (render _ _) as [v|]; try done.
  - by destruct (proj1 Hv eq_refl).
  - by discriminate (proj2 Hv (mk_is_Some _ _ eq_refl)).
Qed.

Lemma rerender_wf w : wf w → rerender (abs w) = Some (abs w).
Proof. intros [v Hv]%wf_render. by rewrite rerender_abs, Hv. Qed.

(** Sending a command does not change what is shown. *)
Lemma rerender_outbox a o :
  rerender {| a with outbox := o |}
  = (λ x, {| x with outbox := o |}) <$> rerender a.
Proof.
  unfold rerender. change (viewable {| a with outbox := o |}) with (viewable a).
  by destruct (viewable a).
Qed.

(** ** React's update, abstractly *)

Lemma update_abs w : absApp (update w) = rerender (abs (flush w)).
Proof.
  rewrite rerender_abs. unfold update. simpl.
  destruct (render _ _); simpl; [|done].
  by rewrite abs_componentDidUpdate, abs_reconcile.
Qed.

Lemma afterHandler_abs w :
  (pending w = [] → is_Some (render (props w) (state w))) →
  absApp (afterHandler w) = rerender (abs (flush w)).
Proof.
  intros Hv. unfold afterHandler. destruct (pending w) eqn:Hq.
  - rewrite flush_nothing, rerender_abs by done.
    by destruct (Hv eq_refl) as [v ->].
  - apply update_abs.
Qed.

(** A handler that respects the frame, then React: the abstract state is
    that of the flushed world, if it can be shown. *)
Lemma runHandler_abs (h : stateM World unit) w :
  wf w → framed w (execState h w) →
  absApp (runHandler h (Running w)) = rerender (abs (flush (execState h w))).
Proof.
  intros Hwf [Es Ep _ _ _ _ _ _ _]. simpl. apply afterHandler_abs.
  intros _. rewrite Es, Ep. by apply wf_render.
Qed.

(** ** The handlers, abstractly *)

Lemma abs_start r w :
  abs (flush (execState (startEditing r) w))
  = {| (abs w) with session := startEdit r |}.
Proof. by rewrite flush_startEditing. Qed.

Lemma abs_change text w :
  pending w = [] → editMode (state w) = true →
  abs (flush (execState (handle (MsgChange text)) w))
  = {| (abs w) with session := changeBuffer text (session (abs w)) |}.
Proof.
  intros Hq Hm. rewrite flush_change by done.
  unfold abs, changeBuffer, sessionOf. simpl. by rewrite Hm.
Qed.

Lemma abs_clear w :
  abs (flush (execState clearEdit w))
  = {| (abs w) with session := idleSession |}.
Proof.
  unfold execState. rewrite clearEdit_spec. unfold flush, abs. simpl.
  by rewrite applyUpdates_full_last.
Qed.

Lemma abs_dispatch act w :
  pending w = [] →
  abs (flush (execState (dispatch act) w))
  = {| (abs w) with outbox := outbox (abs w) ++ [act] |}.
Proof. intros Hq. by rewrite flush_nothing. Qed.

(** In edit mode without a ref, no record has the id of the state. *)
Lemma wf_no_ref w :
  wf w → editMode (state w) = true → editInput w = None → original w = None.
Proof.
  intros (_ & _ & _ & Hk & Hr & _) Hm He.
  assert (mounted w = None) as Hmt.
  { apply eq_None_not_Some. rewrite <-Hr, He. by intros [??]. }
  rewrite Hmt in Hk. unfold refRow in Hk.
  destruct (original w) as [o|] eqn:Ho; [|done].
  assert (editableRows (state w) (expressionsOrEmpty (props w)) ≠ []) as Hne.
  { apply editableRows_find. split; [done|]. by exists o. }
  by destruct (editableRows _ _) as [|x l] using rev_ind;
    [|rewrite last_snoc in Hk].
Qed.

Lemma abs_commit w :
  wf w → abs (flush (execState commitEdit w)) = commit (abs w).
Proof.
  intros Hwf. pose proof (wf_pending w Hwf) as Hq. unfold commit.
  change (target (abs w)) with (original w).
  change (validate (session (abs w))) with (validationResult w). simpl.
  destruct (canValidate w) eqn:Hg.
  - destruct (wf_original w Hwf Hg) as (o & Ho & _).
    apply canValidate_true in Hg as Hg'. destruct Hg' as (Hm & He & Hi).
    rewrite Hm, Hi, Ho. simpl.
    destruct (truthy (validationResult w)) eqn:Hr.
    + apply truthy_true_iff in Hr. rewrite flush_reject by done.
      unfold abs, sessionOf. simpl. by rewrite Hm.
    + apply truthy_false_iff in Hr. unfold execState.
      rewrite commitEdit_committed, flush_nothing by done.
      unfold abs. simpl. by rewrite Ho.
  - rewrite commitEdit_refused, flush_nothing by done.
    destruct (editMode (state w)) eqn:Hm; [|done].
    destruct (truthyO (id (state w))) eqn:Hi; [|done]. simpl.
    rewrite wf_no_ref; [done..|]. unfold canValidate in Hg.
    rewrite Hm, Hi, andb_true_r in Hg. simpl in Hg.
    apply bool_decide_eq_false in Hg. by apply eq_None_not_Some.
Qed.

(** A change is offered only in edit mode. *)
Lemma offered_change w text :
  offered w (EvMsg (MsgChange text)) = true → editMode (state w) = true.
Proof.
  unfold offered. destruct (render _ _) as [v|] eqn:Hv; [|done].
  intros Hc%bool_decide_eq_true.
  destruct (decide (expressionsOrEmpty (props w) = [])) as [He|He].
  - rewrite render_empty in Hv by done. by simplify_eq.
  - apply render_table in Hv as (_ & Hch & _); [|done]. rewrite Hch in Hc.
    destruct (editMode (state w)) eqn:Hm; [done|].
    by rewrite editableRows_idle in Hc.
Qed.

(** ** One event *)

Lemma msg_refines w m :
  wf w → offered w (EvMsg m) = true →
  absApp (step (EvMsg m) (Running w)) = astep (EvMsg m) (abs w).
Proof.
  intros Hwf Hoff. pose proof (wf_pending w Hwf) as Hq.
  rewrite step_msg, runHandler_abs by (done || apply framed_handle).
  destruct m; simpl astep.
  - simpl handle.
    by rewrite abs_dispatch, rerender_outbox, rerender_wf.
  - rewrite abs_change; [done|done|]. by apply (offered_change w value).
  - simpl handle. by rewrite abs_clear.
  - simpl handle. by rewrite abs_commit.
  - simpl handle. by rewrite abs_start.
  - simpl handle.
    by rewrite abs_dispatch, rerender_outbox, rerender_wf.
Qed.

Lemma elapse_refines w ms :
  wf w → absApp (step (EvElapse ms) (Running w)) = astep (EvElapse ms) (abs w).
Proof.
  intros Hwf. rewrite elapse_spec by done. simpl astep. unfold tick.
  change (existsb _ (alarms (abs w)))
    with (existsb (isDue (clock w + ms)) (timers w)).
  destruct (existsb _ _).
  - change (rerender _) with (rerender (abs (idle (later ms w)))).
    rewrite rerender_abs. simpl. by destruct (render _ _).
  - change (rerender _) with (rerender (abs (later ms w))).
    by rewrite rerender_wf by by apply later_wf.
Qed.

Lemma step_refines w ev :
  wf w → offered w ev = true →
  absApp (step ev (Running w)) = astep ev (abs w).
Proof.
  intros Hwf Hoff. destruct ev as [m|key|ms|p|el].
  - by apply msg_refines.
  - simpl. by rewrite keyMsgs_nil.
  - by apply elapse_refines.
  - simpl step. rewrite update_abs, flush_nothing; [done|].
    by apply (wf_pending w).
  - simpl. by rewrite abs_moveFocus.
Qed.

(** ** Sequences of events *)

Lemma asteps_None evs : asteps evs None = None.
Proof. by induction evs. Qed.

Lemma steps_refine evs x :
  wfApp x → offeredAlong evs x = true →
  absApp (steps evs x) = asteps evs (absApp x).
Proof.
  revert x. induction evs as [|ev evs IH]; intros x Hwf Hoff; [done|].
  destruct x as [w|w].
  - simpl in Hoff. apply andb_true_iff in Hoff as [Hev Hoff].
    change (steps (ev :: evs) (Running w))
      with (steps evs (step ev (Running w))).
    rewrite IH; [|by apply (step_wf ev (Running w))|done].
    by rewrite step_refines.
  - by rewrite steps_Crashed, asteps_None.
Qed.

Lemma mount_abs p d : absApp (mount p d) = rerender (ainit p).
Proof.
  unfold mount.
  change (rerender (ainit p))
    with (rerender (abs (constructor p (blurEditInput d)))).
  rewrite rerender_abs. simpl. by destruct (render _ _).
Qed.

(** C11: the component implements the abstract session machine.  From
    the mount on, along any sequence of events that the screen offers
    (clicks, typing, keys, focus moves, the passing of time, new props), the
    session, the table, the commands sent and the teardowns scheduled are
    those of the abstract machine on the same events, and the component
    goes down exactly when the abstract machine has no next state. *)
Theorem component_refines_session p d evs :
  offeredAlong evs (mount p d) = true →
  absApp (steps evs (mount p d)) = asteps evs (rerender (ainit p)).
Proof.
  intros Hoff. rewrite <-(mount_abs p d).
  apply steps_refine; [apply mount_wf|done].
Qed.

(** C33: the DOM is invisible to the session.  Two worlds of the same
    session (the same state, props, log and timers) that satisfy the
    invariant are again the same session after any event that both screens
    offer, and one goes down exactly when the other does: the validation
    marks on the input, the focus and the identity of the mounted element
    never decide what is dispatched or what the state becomes. *)
Theorem session_determined w1 w2 ev :
  wf w1 → wf w2 → sameSession w1 w2 →
  offered w1 ev = true → offered w2 ev = true →
  absApp (step ev (Running w1)) = absApp (step ev (Running w2)).
Proof.
  intros Hwf1 Hwf2 Hs Ho1 Ho2. rewrite !step_refines by done.
  by rewrite Hs.
Qed.
End refinement.

(** * The scenario of the specification

    The first rule of the sample table is edited: a text with a space is
    refused, a corrected text is saved, and 200 ms later the session is
    over. *)

#[local] Existing Instance sampleEnv.

Definition scenario : list Event :=
  [ EvMsg (MsgEditStart rule1);
    EvMsg (MsgChange "bad url");
    EvMsg MsgEditSave;
    EvMsg (MsgChange "example.org");
    EvMsg MsgEditSave;
    EvElapse 200 ].

(** The scenario of the specification, run on the component.  After
    the refused save the error is ["inputErrorSpace"] and nothing was sent;
    after the corrected save one update of the first rule, with the text
    ["example.org"], was sent and the teardown is pending, and the state
    still carries the error of the refused attempt; 200 ms later the table
    is idle again, with the command in the log and no timer left. *)
Theorem scenario_runs :
  steps (take 3 scenario) (mount sampleProps sampleDocument)
  = Running
      {| (editing "bad url") with
         state := withInvalid "inputErrorSpace" (state (editing "bad url"));
         mounted := throughRef (markInvalid "inputErrorSpace")
                      (editing "bad url") |}
  ∧ steps (take 5 scenario) (mount sampleProps sampleDocument)
    = Running
        {| saved with
           state := withInvalid "inputErrorSpace" (state saved) |}
  ∧ steps scenario (mount sampleProps sampleDocument)
    = Running
        {| mounted0 with
           dispatched :=
             [updateExpressionUI
                (withExpression "example.org" "firefox-container-1" rule1)];
           clock := 200 |}.
Proof. split_and!; by vm_compute. Qed.

Lemma component_refines_session_witness :
  absApp (steps scenario (mount sampleProps sampleDocument))
  = asteps scenario (rerender (ainit sampleProps)).
Proof.
  apply (component_refines_session sampleProps sampleDocument scenario).
  by vm_compute.
Defined.

(** The session on the first rule after the focus has moved to the body. *)
Definition unfocused : World := moveFocus ElBody (editing "example.org").

Lemma unfocused_wf : wf unfocused.
Proof. apply moveFocus_wf, (reachable_wfApp _ typed_reachable). Qed.

Lemma session_determined_witness :
  absApp (step (EvMsg MsgEditSave) (Running (editing "example.org")))
  = absApp (step (EvMsg MsgEditSave) (Running unfocused)).
Proof.
  apply (session_determined (editing "example.org") unfocused);
    [apply (reachable_wfApp _ typed_reachable)|apply unfocused_wf
    |done|by vm_compute|by vm_compute].
Defined.
