(* ===== verification/Lifecycle.v ===== *)
(** * The life of a session

    What happens to a session between its start and its end, beyond the
    single gestures of [Gestures]:

    - the user starts a session on another record while one is open: the
      session switches, the input of the first row is unmounted and a fresh
      one is mounted in the second ([switch_gesture]);
    - the parent gives new props during a session, as the store does after
      a save: the session goes on, and the input is kept or replaced by a
      fresh one according to the key of its row ([props_during_session]);
    - a save, the answer of the store and the 200 ms of the teardown, in
      one run: the table is idle on the new props and shows what was typed
      ([commit_roundtrip]);
    - a save was accepted: whatever happens next, the teardown runs at the
      latest when its 200 ms are over ([teardown_inevitable]);
    - the state of the table has one of two shapes, [new EmptyState()] or a
      session, and a teardown is pending only if an update was sent
      ([session_state_shape], [teardown_needs_commit]).  These two are
      invariants of the abstract machine of [Session], proved there on
      [astep] and carried over to the component by the refinement
      ([reachableUI_abs]). *)

From S2P Require Import Prelude JsString Uri Dom Types Vdom.
From S2P Require Import TextInputEditable Component ExpressionTable Render.
From S2P Require Import Runtime Gestures Session.

(** The time an event takes. *)
Definition duration (ev : Event) : nat :=
  match ev with EvElapse ms => ms | _ => 0 end.

(** The abstract session is idle, or active: outside a session the target,
    the buffer and the error have their initial values. *)
Definition shapeOk (a : Abs) : Prop :=
  active (session a) = false → session a = idleSession.

(** No more teardowns are scheduled than updates were sent. *)
Definition alarmsOk (a : Abs) : Prop :=
  length (alarms a) ≤ length (List.filter isUpdate (outbox a)).

(** * Switching to another record *)

Section switching.
Context `{Env}.
Implicit Types (w : World) (ev : Event) (e o : Expression).

(** A click on start, when the new session can be rendered: React renders
    the session on the record and commits. *)
Lemma step_start w e :
  wf w → is_Some (render (props w) (sessionOn e)) →
  step (EvMsg (MsgEditStart e)) (Running w)
  = Running (execState componentDidUpdate
               (reconcile {| w with state := sessionOn e |})).
Proof.
  intros Hwf [v Hv]. rewrite step_msg. simpl handle. unfold runHandler.
  rewrite afterHandler_pending, flush_startEditing by apply pending_startEditing.
  simpl. rewrite Hv. by rewrite (wf_pending w Hwf).
Qed.

(** With unique ids the editable rows are the record of [refRow], alone. *)
Lemma refRow_editableRows w o :
  NoDup (Types.id <$> expressionsOrEmpty (props w)) → refRow w = Some o →
  editableRows (state w) (expressionsOrEmpty (props w)) = [o].
Proof.
  intros Hnd Hr. unfold refRow in Hr.
  pose proof (editableRows_unique (state w) _ Hnd) as Hl.
  destruct (editableRows _ _) as [|x [|y l]]; simpl in *; [done| |lia].
  by simplify_eq.
Qed.

(** The text of every record can be decoded, once that of the record under
    edit can: the other rows are on screen. *)
Lemma wf_decodable w o e :
  wf w → NoDup (Types.id <$> expressionsOrEmpty (props w)) →
  refRow w = Some o → is_Some (decodeURIComponent (expression o)) →
  e ∈ expressionsOrEmpty (props w) →
  is_Some (decodeURIComponent (expression e)).
Proof.
  intros Hwf Hnd Hr Ho He. pose proof (wf_render w Hwf) as Hv.
  rewrite render_Some_iff in Hv.
  destruct (rowCanEdit (state w) e) eqn:Hc.
  - pose proof (refRow_editableRows w o Hnd Hr) as Hrows.
    rewrite (editableRows_single _ _ e) in Hrows by done. by simplify_eq.
  - specialize (Hv e He). unfold rowShown in Hv. by rewrite Hc in Hv.
Qed.

(** Another record can be shown under edit in place of the one that is. *)
Lemma render_switch w e o :
  wf w → NoDup (Types.id <$> expressionsOrEmpty (props w)) →
  refRow w = Some o → is_Some (decodeURIComponent (expression o)) →
  e ∈ expressionsOrEmpty (props w) →
  is_Some (render (props w) (sessionOn e)).
Proof.
  intros Hwf Hnd Hr Ho He. apply render_Some_iff. intros e' He'.
  unfold rowShown. destruct (rowCanEdit _ _); simpl; eauto using wf_decodable.
Qed.

(** C36: a click on start during a session switches the session to the
    record of the row clicked: the state is the session on that record,
    with its text for buffer and no error (the buffer and the error of the
    first session are lost without notice); the input of the first row is
    unmounted and a fresh one is mounted in the new row, takes the ref and
    the focus; nothing is sent to the store.  The ids are unique, the two
    rows have different keys, and the text of the record that was under
    edit can be decoded (its row is shown read-only again). *)
Theorem switch_gesture w e o :
  wf w → NoDup (Types.id <$> expressionsOrEmpty (props w)) →
  refRow w = Some o → is_Some (decodeURIComponent (expression o)) →
  e ∈ expressionsOrEmpty (props w) → keyOf e ≠ keyOf o →
  step (EvMsg (MsgEditStart e)) (Running w)
  = Running {| w with
               state := sessionOn e;
               editInput := Some RefInput;
               mounted := Some {| rowKey := keyOf e; element := freshInput |};
               document := focusEditInput (document w) |}.
Proof.
  intros Hwf Hnd Hr Ho He Hk.
  rewrite step_start by eauto using render_switch. f_equal.
  destruct Hwf as (_ & _ & _ & Hkey & _). rewrite Hr in Hkey.
  unfold reconcile, refRow. simpl.
  rewrite editableRows_session by done. simpl.
  destruct (mounted w) as [m|]; simplify_eq/=.
  rewrite bool_decide_eq_false_2 by congruence.
  by rewrite focusEditInput_wantsFocus by (simpl; eauto).
Qed.
End switching.

(** * New props during a session *)

Section props.
Context `{Env}.
Implicit Types (w : World) (ev : Event) (e o : Expression).

Lemma step_props w p :
  wf w → is_Some (render p (state w)) →
  step (EvProps p) (Running w)
  = Running (execState componentDidUpdate (reconcile {| w with props := p |})).
Proof.
  intros Hwf [v Hv]. simpl. unfold update.
  rewrite flush_nothing by apply (wf_pending w Hwf). simpl. by rewrite Hv.
Qed.

(** React's commit for new props that hold the record under edit: the
    input on screen is kept if the row of the record has its key, and
    replaced by a fresh one if not. *)
Lemma update_session w p e :
  wf w → NoDup (Types.id <$> expressionsOrEmpty p) →
  e ∈ expressionsOrEmpty p → rowCanEdit (state w) e = true →
  execState componentDidUpdate (reconcile {| w with props := p |})
  = if bool_decide (rowKey <$> mounted w = Some (keyOf e))
    then execState componentDidUpdate {| w with props := p |}
    else {| w with
            props := p; editInput := Some RefInput;
            mounted := Some {| rowKey := keyOf e; element := freshInput |};
            document := focusEditInput (document w) |}.
Proof.
  intros Hwf Hnd He Hc.
  apply rowCanEdit_true in Hc as Hc'. destruct Hc' as [Hm _].
  destruct Hwf as (_ & _ & _ & _ & Href & _).
  unfold reconcile, refRow. simpl.
  rewrite (editableRows_single _ _ e) by done. simpl.
  destruct (mounted w) as [m|] eqn:Hmt; simpl.
  - destruct (proj2 Href (mk_is_Some _ _ eq_refl)) as [[] Hei].
    destruct (decide (rowKey m = keyOf e)) as [Hk|Hk].
    + rewrite (bool_decide_eq_true_2 (rowKey m = keyOf e)) by done.
      rewrite (bool_decide_eq_true_2 (Some _ = Some _)) by by f_equal.
      destruct w; simpl in *; by subst.
    + rewrite (bool_decide_eq_false_2 (rowKey m = keyOf e)) by done.
      rewrite (bool_decide_eq_false_2 (Some _ = Some _)) by congruence.
      by rewrite focusEditInput_wantsFocus by (simpl; eauto).
  - by rewrite focusEditInput_wantsFocus by (simpl; eauto).
Qed.

(** C37: new props during a session, with the record under edit among
    them.  The state, the log and the timers are untouched.  If the row of
    the record has the key of the input on screen, the input stays as it
    is, with its validation marks, and [componentDidUpdate] runs.  If not
    (the text or the list type of the record changed, as after the store
    has applied the update of a save), React unmounts the input and mounts
    a fresh one under the new key, which takes the ref and, by [autoFocus],
    the focus, also from [#formText]. *)
Theorem props_during_session w p e :
  wf w → is_Some (render p (state w)) →
  NoDup (Types.id <$> expressionsOrEmpty p) →
  e ∈ expressionsOrEmpty p → rowCanEdit (state w) e = true →
  step (EvProps p) (Running w)
  = Running
      (if bool_decide (rowKey <$> mounted w = Some (keyOf e))
       then execState componentDidUpdate {| w with props := p |}
       else {| w with
               props := p; editInput := Some RefInput;
               mounted := Some {| rowKey := keyOf e; element := freshInput |};
               document := focusEditInput (document w) |}).
Proof.
  intros Hwf Hv Hnd He Hc. rewrite step_props by done. f_equal.
  by apply update_session.
Qed.

(** What new props leave alone, whatever they are. *)
Lemma step_props_keeps w p w' :
  wf w → step (EvProps p) (Running w) = Running w' →
  state w' = state w ∧ props w' = p ∧ dispatched w' = dispatched w
  ∧ timers w' = timers w ∧ clock w' = clock w.
Proof.
  intros Hwf. simpl. unfold update.
  rewrite flush_nothing by apply (wf_pending w Hwf). simpl.
  destruct (render _ _); [|done]. intros [= <-].
  destruct (componentDidUpdate_keeps (reconcile {| w with props := p |}))
    as (-> & -> & _ & _ & -> & ->).
  pose proof (reconcile_spec {| w with props := p |})
    as ((-> & -> & _ & -> & Hc & ->) & _).
  split_and!; try done.
  unfold execState. rewrite componentDidUpdate_spec.
  by destruct (wantsFocus _).
Qed.

(** A session that is on screen can be shown on any table that can be
    shown idle: its editable rows show the buffer. *)
Lemma render_other_props w p :
  wf w → is_Some (render p newEmptyState) → is_Some (editInput w) →
  is_Some (render p (state w)).
Proof.
  intros Hwf Hv He. rewrite render_idle in Hv by done.
  apply render_Some_iff. intros e Hin. unfold rowShown.
  destruct (rowCanEdit (state w) e) eqn:Hc; [|by apply Hv].
  pose proof (wf_editable w Hwf He) as Hne.
  destruct (editableRows _ _) as [|x l] eqn:Hrows; [done|].
  assert (x ∈ editableRows (state w) (expressionsOrEmpty (props w)))
    as [Hx Hcx]%editableRows_elem by (rewrite Hrows; left).
  pose proof (wf_render w Hwf) as Hr. rewrite render_Some_iff in Hr.
  specialize (Hr x Hx). unfold rowShown in Hr. by rewrite Hcx in Hr.
Qed.
End props.

(** * A save, from the click to the end of the session *)

Section roundtrip.
Context `{Env}.
Implicit Types (w : World) (ev : Event) (e o : Expression).

Lemma step_save w o :
  wf w → canValidate w = true → validationResult w = "" →
  original w = Some o →
  step (EvMsg MsgEditSave) (Running w)
  = Running {| w with
               mounted := throughRef markValid w;
               dispatched := dispatched w ++ [updateOf w o];
               timers := timers w ++ [teardownTimer w] |}.
Proof.
  intros Hwf Hg Hr Ho. rewrite step_msg. simpl.
  unfold execState. rewrite commitEdit_committed, Ho by done.
  unfold afterHandler. simpl. by rewrite (wf_pending w Hwf).
Qed.

Lemma existsb_snoc {A} (f : A → bool) l x :
  f x = true → existsb f (l ++ [x]) = true.
Proof. intros Hx. rewrite existsb_app. simpl. by rewrite Hx, orb_true_r. Qed.

(** A save, from the click to the end of the session.  The user
    saves a buffer that the validator accepts, the store answers with new
    props (any props whose texts can be decoded), and 200 ms pass.  Then the
    table is idle on the new props: the state is [new EmptyState()], no
    input is mounted and no ref set, no timer is left, the one command sent
    is the update of the record with the buffer, and the row of the record
    that was sent shows, read-only, the text that the input displayed when
    the user clicked: what was typed is what is shown after the round trip
    through the store. *)
Theorem commit_roundtrip w o p :
  wf w → canValidate w = true → validationResult w = "" →
  original w = Some o → is_Some (render p newEmptyState) →
  ∃ w',
    steps [EvMsg MsgEditSave; EvProps p; EvElapse 200] (Running w)
    = Running w'
    ∧ state w' = newEmptyState ∧ props w' = p
    ∧ editInput w' = None ∧ mounted w' = None
    ∧ dispatched w' = dispatched w ++ [updateOf w o]
    ∧ timers w' = [] ∧ clock w' = clock w + 200
    ∧ (∀ e, updateOf w o = updateExpressionUI e →
            rowShown (state w') e = displayed w).
Proof.
  intros Hwf Hg Hr Ho Hv.
  change (steps _ _) with
    (step (EvElapse 200)
       (step (EvProps p) (step (EvMsg MsgEditSave) (Running w)))).
  pose proof (step_wf (EvMsg MsgEditSave) (Running w) Hwf) as Hwf1.
  rewrite (step_save w o) in * by done.
  set (w1 := {| w with mounted := throughRef markValid w;
                dispatched := dispatched w ++ [updateOf w o];
                timers := timers w ++ [teardownTimer w] |}) in *.
  apply canValidate_true in Hg as Hg'. destruct Hg' as (Hm & He & Hi).
  pose proof (render_other_props w1 p Hwf1 Hv He) as Hv1.
  pose proof (step_wf (EvProps p) (Running w1) Hwf1) as Hwf2.
  pose proof (step_props_keeps w1 p) as Hkeep.
  rewrite (step_props w1 p) in * by done.
  set (w2 := execState componentDidUpdate _) in *.
  destruct (Hkeep w2 Hwf1 eq_refl) as (Es & Ep & Ed & Et & Ec).
  rewrite elapse_spec by done. rewrite Et, Ec, Ep.
  change (timers w1) with (timers w ++ [teardownTimer w]).
  rewrite existsb_snoc by apply Nat.leb_refl.
  destruct Hv as [v0 ->]. eexists. split; [done|]. simpl.
  split_and!; [done|done|done|done|by rewrite Ed
    |apply (later_all_due w2 Hwf2)|by rewrite Ec|by intros e [= <-]].
Qed.
End roundtrip.

(** * The teardown comes *)

Section liveness.
Context `{Env}.
Implicit Types (w : World) (ev : Event) (t : Timer).

Lemma update_keeps w w' :
  update w = Running w' → timers w' = timers w ∧ clock w' = clock w.
Proof.
  unfold update. destruct (render _ _); [|done]. intros [= <-].
  unfold execState. rewrite componentDidUpdate_spec.
  pose proof (reconcile_spec (flush w)) as ((_ & _ & _ & Ht & Hc & _) & _).
  by destruct (wantsFocus _).
Qed.

Lemma afterHandler_keeps w w' :
  afterHandler w = Running w' → timers w' = timers w ∧ clock w' = clock w.
Proof.
  unfold afterHandler. destruct (pending w); [by intros [= <-]|].
  apply update_keeps.
Qed.

(** Every event but the passing of time keeps the clock. *)
Lemma step_clock w ev w' :
  wf w → step ev (Running w) = Running w' →
  clock w' = clock w + duration ev.
Proof.
  intros Hwf. destruct ev as [m|key|ms|p|el]; simpl duration.
  - rewrite step_msg. intros [_ ->]%afterHandler_keeps.
    rewrite (fr_clock _ _ (framed_handle m w)). lia.
  - simpl. rewrite keyMsgs_nil. intros [= <-]. simpl. lia.
  - rewrite elapse_spec by done.
    destruct (existsb _ _); [destruct (render _ _)|]; by intros [= <-].
  - simpl. intros [_ ->]%update_keeps. simpl. lia.
  - simpl. intros [= <-]. unfold moveFocus. case_match; simpl; lia.
Qed.

(** A promise stays in the queue until it is due. *)
Lemma step_keeps_timer w ev w' t :
  wf w → step ev (Running w) = Running w' →
  t ∈ timers w → clock w' < due t → t ∈ timers w'.
Proof.
  intros Hwf Hs Ht Hd. pose proof (step_clock w ev w' Hwf Hs) as Hc.
  revert Hs. destruct ev as [m|key|ms|p|el].
  - rewrite step_msg. intros [-> _]%afterHandler_keeps.
    destruct (fr_timers _ _ (framed_handle m w)) as [->| ->]; [done|].
    apply elem_of_app. by left.
  - simpl. rewrite keyMsgs_nil. by intros [= <-].
  - rewrite elapse_spec by done. simpl in Hc.
    assert (t ∈ timers (later ms w)) as Hl.
    { apply list_elem_of_In, filter_In. split; [by apply list_elem_of_In|].
      unfold isDue. apply negb_true_iff, Nat.leb_gt. lia. }
    destruct (existsb _ _); [destruct (render _ _)|]; by intros [= <-].
  - simpl. by intros [-> _]%update_keeps.
  - simpl. intros [= <-]. unfold moveFocus. by case_match.
Qed.

(** When a pending promise becomes due, the session is torn down. *)
Lemma elapse_due w ms t w' :
  wf w → t ∈ timers w → due t ≤ clock w + ms →
  step (EvElapse ms) (Running w) = Running w' →
  state w' = newEmptyState ∧ mounted w' = None.
Proof.
  intros Hwf Ht Hd. rewrite elapse_spec by done.
  replace (existsb _ _) with true.
  - destruct (render _ _); by intros [= <-].
  - symmetry. apply existsb_exists. exists t.
    split; [by apply list_elem_of_In|by apply Nat.leb_le].
Qed.

Lemma wf_pending_due w t : wf w → t ∈ timers w → clock w < due t.
Proof.
  intros ((Hb & _) & _) Ht. rewrite Forall_forall in Hb.
  apply Hb in Ht. lia.
Qed.

(** C38: a scheduled teardown comes.  From a world in which a promise of
    [sleep] is pending, along any events (clicks, typing, new props, focus,
    time, offered or not) that bring the clock to the time at which the
    promise is due without taking the component down, there is a moment at
    which the promise becomes due, and at that moment the state is reset to
    [new EmptyState()] and the edit input unmounted, whatever was under
    edit then. *)
Theorem teardown_inevitable w t evs w' :
  wf w → t ∈ timers w →
  steps evs (Running w) = Running w' → due t ≤ clock w' →
  ∃ evs1 ms evs2 w1 w2,
    evs = evs1 ++ EvElapse ms :: evs2
    ∧ steps evs1 (Running w) = Running w1
    ∧ step (EvElapse ms) (Running w1) = Running w2
    ∧ clock w1 < due t ≤ clock w2
    ∧ state w2 = newEmptyState ∧ mounted w2 = None.
Proof.
  revert w. induction evs as [|ev evs IH]; intros w Hwf Ht Hs Hd.
  - pose proof (wf_pending_due w t Hwf Ht). simplify_eq/=. lia.
  - change (steps evs (step ev (Running w)) = Running w') in Hs.
    destruct (step ev (Running w)) as [w1|w1] eqn:Hev;
      [|by rewrite steps_Crashed in Hs].
    pose proof (step_wf ev (Running w) Hwf) as Hwf1. rewrite Hev in Hwf1.
    pose proof (step_clock w ev w1 Hwf Hev) as Hc.
    pose proof (wf_pending_due w t Hwf Ht) as Hnow.
    destruct (decide (due t ≤ clock w1)) as [Hdue|Hdue].
    + destruct ev as [m|key|ms|p|el]; simpl in Hc; try lia.
      exists [], ms, evs, w, w1.
      split_and!; [done|done|done|done|lia|..];
        eapply (elapse_due w ms t); (done || lia).
    + destruct (IH w1) as (evs1 & ms & evs2 & wa & wb & -> & Ha & Hb & Hr);
        [done|apply (step_keeps_timer w ev); (done || lia)|done|done|].
      exists (ev :: evs1), ms, evs2, wa, wb.
      split_and!; [done| |done|apply Hr..].
      change (steps evs1 (step ev (Running w)) = Running wa).
      by rewrite Hev.
Qed.
End liveness.

(** * Invariants of the session, through the abstract machine *)

Section invariants.
Context `{Env}.
Implicit Types (w : World) (a : Abs) (ev : Event) (x : App).

Lemma rerender_Some a a' : rerender a = Some a' → a' = a.
Proof. unfold rerender. case_match; naive_solver. Qed.

Lemma reachableUI_wf w : reachableUI (Running w) → wf w.
Proof. intros Hr%reachableUI_reachable. by apply reachable_wfApp in Hr. Qed.

(** An invariant of the abstract machine holds of the abstraction of every
    world that the component reaches through the gestures its screen
    offers. *)
Lemma reachableUI_abs (I : Abs → Prop) :
  (∀ p, I (ainit p)) →
  (∀ ev a a', astep ev a = Some a' → I a → I a') →
  ∀ w, reachableUI (Running w) → I (abs w).
Proof.
  intros Hinit Hstep w Hr. remember (Running w) as x eqn:Hx.
  revert w Hx. induction Hr as [p d|w0 ev Hr IH Hoff]; intros w Hx.
  - unfold mount in Hx. destruct (render _ _); simplify_eq. apply Hinit.
  - pose proof (step_refines w0 ev (reachableUI_wf w0 Hr) Hoff) as Href.
    rewrite Hx in Href. apply (Hstep ev (abs w0)); [done|by apply IH].
Qed.

Lemma astep_shapeOk ev a a' : astep ev a = Some a' → shapeOk a → shapeOk a'.
Proof.
  unfold shapeOk.
  destruct ev as [[]| | | |]; simpl;
    try (intros ->%rerender_Some); try (intros [= <-]); simpl; try done.
  - unfold changeBuffer. case_match; naive_solver.
  - unfold commit. repeat case_match; naive_solver.
  - unfold tick. case_match; naive_solver.
Qed.

Lemma astep_alarmsOk ev a a' :
  astep ev a = Some a' → alarmsOk a → alarmsOk a'.
Proof.
  unfold alarmsOk.
  destruct ev as [[]| | | |]; simpl;
    try (intros ->%rerender_Some); try (intros [= <-]); simpl; try done.
  1-3: unfold commit; repeat case_match; simpl;
    rewrite ?List.filter_app, ?length_app; simpl; lia.
  intros Ha. unfold tick.
  case_match; simpl; (etrans; [apply filter_length_le|done]).
Qed.

#[export] Instance sessionOf_inj : Inj (=) (=) sessionOf.
Proof. intros [] [] [=]. by subst. Qed.

(** C39: the state of the table has one of two shapes.  In every world
    that the component reaches through the gestures its screen offers, the
    state is [new EmptyState()] or in edit mode: outside a session the
    buffer and the error message are empty and the id is the initial one.
    (A change of the buffer, the one handler that writes a single field, is
    offered by an editable row only.) *)
Theorem session_state_shape w :
  reachableUI (Running w) → editMode (state w) = false →
  state w = newEmptyState.
Proof.
  intros Hr Hm.
  pose proof (reachableUI_abs shapeOk (λ _ _, eq_refl) astep_shapeOk w Hr Hm)
    as Hs.
  by apply (inj sessionOf).
Qed.

(** C40: a teardown is pending only if an update was sent.  In every world
    that the component reaches through the gestures its screen offers,
    there are at most as many promises of [sleep] in the queue as updates
    in the log of commands: [commitEdit] starts its timer only after it has
    found the record and dispatched the update. *)
Theorem teardown_needs_commit w :
  reachableUI (Running w) →
  length (timers w) ≤ length (List.filter isUpdate (dispatched w)).
Proof.
  apply (reachableUI_abs alarmsOk); [intros p; unfold alarmsOk; simpl; lia|].
  apply astep_alarmsOk.
Qed.
End invariants.

(** * On the sample table *)

#[local] Existing Instance sampleEnv.

(** The sample table after the store has applied the update of [saved]. *)
Definition echoed : Component.OwnProps :=
  {| expressions :=
       Some [withExpression "example.org" "firefox-container-1" rule1; rule2];
     expressionColumnTitle := expressionColumnTitle sampleProps;
     Component.storeId := Component.storeId sampleProps;
     emptyElement := emptyElement sampleProps |}.

Lemma reachableUI_steps evs x :
  reachableUI x → offeredAlong evs x = true → reachableUI (steps evs x).
Proof.
  revert x. induction evs as [|ev evs IH]; intros x Hx Hoff; [done|].
  destruct x as [w|w]; [|by rewrite steps_Crashed].
  simpl in Hoff. apply andb_true_iff in Hoff as [Hev Hoff].
  change (reachableUI (steps evs (step ev (Running w)))).
  apply IH; [by constructor|done].
Qed.

(** [reachUI evs] proves that a world is reachable through the screen: it
    is the world that the events [evs], each offered when it happens, lead
    to from the mounted sample table. *)
Ltac reachUI evs :=
  lazymatch goal with
  | |- reachableUI ?a =>
      replace a with (steps evs (mount sampleProps sampleDocument))
        by (vm_compute; reflexivity);
      apply reachableUI_steps; [apply reachableUI_mount|by vm_compute]
  end.

Lemma saved_reachableUI : reachableUI (Running saved).
Proof.
  reachUI [EvMsg (MsgEditStart rule1); EvMsg (MsgChange "example.org");
           EvMsg MsgEditSave].
Qed.

Lemma switch_gesture_witness :
  step (EvMsg (MsgEditStart rule2)) (Running (editing "example.org"))
  = Running
      {| (editing "example.org") with
         state := sessionOn rule2;
         mounted := Some {| rowKey := "*.test.org-GREY";
                            element := freshInput |} |}.
Proof.
  apply (switch_gesture (editing "example.org") rule2 rule1);
    [apply (reachable_wfApp _ typed_reachable)|apply sampleProps_NoDup
    |done|by eexists|right; left|done].
Defined.

Lemma props_during_session_witness :
  step (EvProps echoed) (Running saved)
  = Running
      {| saved with
         props := echoed;
         mounted := Some {| rowKey := "example.org-WHITE";
                            element := freshInput |} |}.
Proof.
  apply (props_during_session saved echoed
           (withExpression "example.org" "firefox-container-1" rule1));
    [apply (reachable_wfApp _ saved_reachable)|by eexists
    |apply (bool_decide_unpack (NoDup _)); by vm_compute|left|done].
Defined.

Lemma commit_roundtrip_witness :
  ∃ w',
    steps [EvMsg MsgEditSave; EvProps echoed; EvElapse 200]
      (Running (editing "example.org"))
    = Running w'
    ∧ state w' = newEmptyState ∧ props w' = echoed
    ∧ editInput w' = None ∧ mounted w' = None
    ∧ dispatched w'
      = [updateExpressionUI
           (withExpression "example.org" "firefox-container-1" rule1)]
    ∧ timers w' = [] ∧ clock w' = 200
    ∧ (∀ e, updateOf (editing "example.org") rule1 = updateExpressionUI e →
            rowShown (state w') e = Some "example.org").
Proof.
  apply (commit_roundtrip (editing "example.org") rule1 echoed);
    [apply (reachable_wfApp _ typed_reachable)|done|done|done|by eexists].
Defined.

Lemma teardown_inevitable_witness :
  ∃ evs1 ms evs2 w1 w2,
    [EvElapse 150; EvMsg MsgEditClear; EvMsg (MsgEditStart rule2);
     EvElapse 50]
    = evs1 ++ EvElapse ms :: evs2
    ∧ steps evs1 (Running saved) = Running w1
    ∧ step (EvElapse ms) (Running w1) = Running w2
    ∧ clock w1 < 200 ≤ clock w2
    ∧ state w2 = newEmptyState ∧ mounted w2 = None.
Proof.
  eapply (teardown_inevitable saved {| due := 200; task := TaskClearEdit |});
    [apply (reachable_wfApp _ saved_reachable)|left
    |vm_compute; reflexivity|simpl; lia].
Defined.

Lemma session_state_shape_witness :
  state (idle saved) = newEmptyState.
Proof.
  apply (session_state_shape (idle saved)); [|done].
  reachUI [EvMsg (MsgEditStart rule1); EvMsg (MsgChange "example.org");
           EvMsg MsgEditSave; EvMsg MsgEditClear].
Defined.

Lemma teardown_needs_commit_witness :
  length (timers saved) ≤ length (List.filter isUpdate (dispatched saved)).
Proof. apply (teardown_needs_commit saved), saved_reachableUI. Defined.
