(* ===== verification/EventLoop.v ===== *)
(** * The event loop

    [Runtime.elapse] lets time pass in one stroke: it takes the promises
    that are due out of the queue and folds their tasks over the world.  The
    browser does it one task at a time: as long as a promise of the queue is
    due, the first one leaves the queue and its [then] callback runs,
    followed by React's update; what the callback did to the queue counts
    for the next turn.  This file holds that loop, [drain], with fuel for
    the number of turns, and shows

    - that it comes to an end: a task of the table ([clearEdit], the only
      one that [sleep(200).then] is given) starts no promise, so that one
      turn for each promise that is due is enough fuel
      ([event_loop_terminates]), and no less is ([event_loop_needs_fuel]);
    - that it ends where [Runtime.elapse] does: in the same world, or with
      a rendering that throws. *)

From S2P Require Import Prelude JsString Uri Dom Types Vdom.
From S2P Require Import TextInputEditable Component ExpressionTable Render.
From S2P Require Import Runtime Gestures.

(** The first promise of the queue that is due, and the queue without it. *)
Fixpoint popDue (now : nat) (ts : list Timer) : option (Timer * list Timer) :=
  match ts with
  | [] => None
  | t :: ts' =>
      if isDue now t then Some (t, ts')
      else (λ '(u, rest), (u, t :: rest)) <$> popDue now ts'
  end.

(** What is left of a run: the world, unless a rendering has thrown. *)
Definition running (a : App) : option World :=
  match a with Running w => Some w | Crashed _ => None end.

(** The promises of a queue that are due, and the others. *)
Definition dueNow (now : nat) (ts : list Timer) : list Timer :=
  List.filter (isDue now) ts.

Definition notDue (now : nat) (ts : list Timer) : list Timer :=
  List.filter (λ t, negb (isDue now t)) ts.

Section loop.
Context `{Env}.
Implicit Types (w : World) (a : App) (t : Timer) (ts : list Timer).

(** The event loop at one instant.  [None]: the fuel is used up while a
    promise is still due. *)
Fixpoint drain (fuel : nat) (a : App) : option App :=
  match a with
  | Crashed _ => Some a
  | Running w =>
      match popDue (clock w) (timers w) with
      | None => Some a
      | Some (t, rest) =>
          match fuel with
          | 0 => None
          | S fuel' =>
              drain fuel'
                (runHandler (runTask (task t))
                   (Running {| w with timers := rest |}))
          end
      end
  end.

(** [ms] milliseconds pass, then the loop runs. *)
Definition elapseLoop (fuel ms : nat) (w : World) : option App :=
  drain fuel (Running {| w with clock := clock w + ms |}).

(** ** The queue *)

Lemma popDue_None now ts : popDue now ts = None ↔ dueNow now ts = [].
Proof.
  unfold dueNow. induction ts as [|t ts IH]; simpl; [done|].
  destruct (isDue now t); [done|].
  rewrite <-IH. by destruct (popDue now ts) as [[]|].
Qed.

Lemma popDue_Some now ts t rest :
  popDue now ts = Some (t, rest) →
  dueNow now ts = t :: dueNow now rest ∧ notDue now rest = notDue now ts.
Proof.
  unfold dueNow, notDue. revert t rest.
  induction ts as [|u ts IH]; intros t rest; simpl; [done|].
  destruct (isDue now u) eqn:Hu; simpl; [by intros [= -> ->]|].
  destruct (popDue now ts) as [[t' rest']|]; [|done].
  intros [= -> <-]. simpl. rewrite Hu. simpl.
  by destruct (IH _ _ eq_refl) as [-> ->].
Qed.

Lemma notDue_all now ts : dueNow now ts = [] → notDue now ts = ts.
Proof.
  unfold dueNow, notDue. induction ts as [|t ts IH]; simpl; [done|].
  destruct (isDue now t); simpl; [done|]. intros Hd. by rewrite IH.
Qed.

Lemma dueNow_existsb now ts :
  existsb (isDue now) ts = bool_decide (dueNow now ts ≠ []).
Proof.
  unfold dueNow. induction ts as [|t ts IH]; simpl; [done|].
  by destruct (isDue now t).
Qed.

(** ** One turn *)

Lemma drain_eq fuel w :
  drain fuel (Running w)
  = match popDue (clock w) (timers w) with
    | None => Some (Running w)
    | Some (t, rest) =>
        match fuel with
        | 0 => None
        | S fuel' =>
            drain fuel'
              (runHandler (runTask (task t))
                 (Running {| w with timers := rest |}))
        end
    end.
Proof. by destruct fuel. Qed.

Lemma drain_Crashed fuel w : drain fuel (Crashed w) = Some (Crashed w).
Proof. by destruct fuel. Qed.

Lemma drained w :
  dueNow (clock w) (timers w) = [] →
  {| w with timers := notDue (clock w) (timers w) |} = w.
Proof. intros Hd. rewrite notDue_all by done. by destruct w. Qed.

(** The turn of a promise that is due: the teardown, on the world without
    the promise. *)
Lemma turn_teardown w t rest :
  quiet w →
  runHandler (runTask (task t)) (Running {| w with timers := rest |})
  = match render (props w) newEmptyState with
    | Some _ => Running {| (idle w) with timers := rest |}
    | None =>
        Crashed (flush (execState clearEdit {| w with timers := rest |}))
    end.
Proof.
  intros Hq. destruct t as [d []]. simpl runTask.
  by rewrite runHandler_clearEdit_quiet.
Qed.

(** ** The loop on an idle table *)

Lemma idle_timers w ts :
  idle {| w with timers := ts |} = {| (idle w) with timers := ts |}.
Proof. done. Qed.

(** Once the table is idle, every promise that is due takes one turn of the
    loop and changes nothing but the queue. *)
Lemma drain_idle fuel w :
  idle w = w → is_Some (render (props w) newEmptyState) →
  drain fuel (Running w)
  = if bool_decide (length (dueNow (clock w) (timers w)) ≤ fuel)
    then Some (Running {| w with timers := notDue (clock w) (timers w) |})
    else None.
Proof.
  intros Hidle [v Hv]. revert w Hidle Hv.
  induction fuel as [|fuel IH]; intros w Hidle Hv; rewrite drain_eq;
    destruct (popDue _ _) as [[t rest]|] eqn:Hpop;
    try (apply popDue_None in Hpop; by rewrite Hpop, drained);
    apply popDue_Some in Hpop as [-> Hn]; simpl length.
  - by rewrite bool_decide_eq_false_2 by lia.
  - rewrite turn_teardown by (rewrite <-Hidle; apply quiet_idle).
    rewrite Hv, Hidle, IH; [|by rewrite idle_timers, Hidle|done].
    simpl. rewrite Hn.
    by rewrite (bool_decide_ext _ _ (Nat.succ_le_mono _ fuel)).
Qed.

(** ** The loop after [ms] milliseconds *)

(** The first turn tears the session down; the turns that follow find the
    table idle. *)
Lemma elapseLoop_spec fuel ms w :
  wf w →
  elapseLoop fuel ms w
  = match popDue (clock w + ms) (timers w), fuel with
    | None, _ => Some (Running (later ms w))
    | Some _, 0 => None
    | Some (t, rest), S fuel' =>
        match render (props w) newEmptyState with
        | Some _ =>
            if bool_decide (length (dueNow (clock w + ms) rest) ≤ fuel')
            then Some (Running (idle (later ms w)))
            else None
        | None =>
            Some (Crashed (flush (execState clearEdit
                     {| w with clock := clock w + ms; timers := rest |})))
        end
    end.
Proof.
  intros Hq%wf_quiet. unfold elapseLoop. rewrite drain_eq.
  simpl clock. simpl timers.
  destruct (popDue _ _) as [[t rest]|] eqn:Hpop.
  - destruct fuel as [|fuel]; [done|].
    apply popDue_Some in Hpop as [_ Hn].
    rewrite (turn_teardown {| w with clock := clock w + ms |}) by done.
    change (props {| w with clock := clock w + ms |}) with (props w).
    destruct (render _ _) as [v|] eqn:Hv; [|apply drain_Crashed].
    rewrite drain_idle;
      [|by rewrite idle_timers, idle_idemp|simpl; by rewrite Hv].
    simpl. by rewrite Hn.
  - apply popDue_None, notDue_all in Hpop. unfold later.
    by rewrite <-Hpop at 1.
Qed.

(** With less fuel than promises are due, the loop stops before the queue
    is through. *)
Lemma event_loop_needs_fuel fuel ms w :
  wf w → is_Some (render (props w) newEmptyState) →
  fuel < length (dueNow (clock w + ms) (timers w)) →
  elapseLoop fuel ms w = None.
Proof.
  intros Hwf [v Hv] Hfuel. rewrite elapseLoop_spec, Hv by done.
  destruct (popDue _ _) as [[t rest]|] eqn:Hpop.
  - apply popDue_Some in Hpop as [Hd _]. rewrite Hd in Hfuel.
    simpl in Hfuel. destruct fuel; [done|].
    by rewrite bool_decide_eq_false_2 by lia.
  - apply popDue_None in Hpop. rewrite Hpop in Hfuel. simpl in Hfuel. lia.
Qed.

(** C25: the event loop terminates.  When [ms] milliseconds have passed,
    the loop that runs the promises due one at a time, reading the queue
    again after each, comes to an end within as many turns as promises are
    due: the teardown is the only task there is, and it starts no promise.
    The loop ends where the step of the component for [EvElapse ms] does:
    in the same world, or both with a rendering that has thrown. *)
Theorem event_loop_terminates fuel ms w :
  wf w → length (dueNow (clock w + ms) (timers w)) ≤ fuel →
  ∃ a, elapseLoop fuel ms w = Some a
       ∧ running a = running (step (EvElapse ms) (Running w)).
Proof.
  intros Hwf Hfuel.
  rewrite elapseLoop_spec, elapse_spec, dueNow_existsb by done.
  destruct (popDue _ _) as [[t rest]|] eqn:Hpop.
  - apply popDue_Some in Hpop as [Hd _]. rewrite Hd in *.
    simpl in Hfuel. destruct fuel as [|fuel]; [lia|].
    rewrite (bool_decide_eq_true_2 (_ :: _ ≠ [])) by done.
    destruct (render _ _); [|by eexists].
    rewrite bool_decide_eq_true_2 by lia. by eexists.
  - apply popDue_None in Hpop. rewrite Hpop. by eexists.
Qed.
End loop.

(** * The loop on the sample table *)

#[local] Existing Instance sampleEnv.

(** Two saves in a row: two updates in the log, two teardowns pending. *)
Definition savedTwice : World :=
  {| saved with
     dispatched := dispatched saved ++ dispatched saved;
     timers := timers saved ++ timers saved |}.

Lemma savedTwice_reachable : reachable (Running savedTwice).
Proof.
  reach [EvMsg (MsgEditStart rule1); EvMsg (MsgChange "example.org");
         EvMsg MsgEditSave; EvMsg MsgEditSave].
Qed.

Lemma event_loop_terminates_witness :
  ∃ a, elapseLoop 2 200 savedTwice = Some a
       ∧ running a = running (step (EvElapse 200) (Running savedTwice)).
Proof.
  apply (event_loop_terminates 2 200 savedTwice);
    [apply (reachable_wfApp _ savedTwice_reachable)|by vm_compute].
Defined.

(** One turn is not enough for the two teardowns. *)
Example event_loop_one_turn : elapseLoop 1 200 savedTwice = None.
Proof. by vm_compute. Qed.
