(* ===== verification/Race.v ===== *)
(** * The answer of the store and the teardown, in either order

    [commitEdit] sends the update and leaves the session open for 200 ms:
    the answer of the store, new props with the text that was typed, and
    the teardown [clearEdit] are two events that nothing orders.  This file
    compares the two orders.

    - The teardown first ([teardown_then_answer]): the table goes idle on
      the old list, then renders the new one.  Between the two the row
      shows its old text.
    - The answer first ([answer_then_teardown]): the row under edit is
      rendered with the new record, then the table goes idle.
    - Both orders end in the same session, on the same table, with the
      same log, timers and clock, and without an input on screen
      ([race_settles]); they end in the same world when the focus was in
      the edit input.  Otherwise they can differ in the focus, and only
      there: when the answer comes first and changes the key of the row,
      the input is replaced by a new one, which takes the focus from
      wherever it was ([race_focus]). *)

From S2P Require Import Prelude JsString Uri Dom Types Vdom.
From S2P Require Import TextInputEditable Component ExpressionTable Render.
From S2P Require Import Runtime Gestures Session Lifecycle EventLoop.

Section race.
Context `{Env}.
Implicit Types (w : World) (p : Component.OwnProps) (ms : nat).

(** The table after the teardown and the answer: idle, on the new list. *)
Definition settled p ms w : World :=
  {| (idle (later ms w)) with props := p |}.

(** The table on which the answer has been rendered during the session. *)
Definition answered p w : World :=
  execState componentDidUpdate (reconcile {| w with props := p |}).

Lemma answered_keeps w p :
  state (answered p w) = state w ∧ props (answered p w) = p
  ∧ dispatched (answered p w) = dispatched w
  ∧ timers (answered p w) = timers w ∧ clock (answered p w) = clock w.
Proof.
  unfold answered, execState. rewrite componentDidUpdate_spec.
  destruct (reconcile_spec {| w with props := p |})
    as ((Es & Ep & _ & Et & Ec & Ed) & _).
  destruct (wantsFocus _); simpl; by rewrite Es, Ep, Et, Ec, Ed.
Qed.

(** The teardown comes first. *)
Lemma teardown_then_answer w p ms :
  wf w → existsb (isDue (clock w + ms)) (timers w) = true →
  is_Some (render (props w) newEmptyState) →
  is_Some (render p newEmptyState) →
  steps [EvElapse ms; EvProps p] (Running w) = Running (settled p ms w).
Proof.
  intros Hwf Hdue [v Hv] Hp.
  pose proof (step_wf (EvElapse ms) (Running w) Hwf) as Hwf1.
  rewrite !steps_cons, elapse_spec, Hdue, Hv in * by done.
  rewrite (step_props _ p Hwf1 Hp). simpl steps. f_equal.
  unfold reconcile, refRow. rewrite editableRows_idle by done.
  unfold execState. rewrite componentDidUpdate_spec. by simpl.
Qed.

(** The answer comes first. *)
Lemma answer_then_teardown w p ms :
  wf w → existsb (isDue (clock w + ms)) (timers w) = true →
  is_Some (render p (state w)) → is_Some (render p newEmptyState) →
  steps [EvProps p; EvElapse ms] (Running w)
  = Running {| (settled p ms w) with
               document := blurEditInput (document (answered p w)) |}.
Proof.
  intros Hwf Hdue Hs [v Hv].
  pose proof (step_wf (EvProps p) (Running w) Hwf) as Hwf1.
  rewrite !steps_cons, (step_props _ p Hwf Hs) in *.
  fold (answered p w) in *.
  destruct (answered_keeps w p) as (Es & Ep & Ed & Et & Ec).
  rewrite elapse_spec, Ec, Et, Hdue, Ep, Hv by done. simpl steps. f_equal.
  unfold settled, idle, later. simpl. by rewrite Ep, Ed, Et, Ec.
Qed.

(** The focus after the answer and the teardown, when it was in the edit
    input: on the body, as after the teardown alone. *)
Lemma answered_blur w p :
  wf w → activeElement (document w) = Some ElEditInput →
  blurEditInput (document (answered p w)) = blurEditInput (document w).
Proof.
  intros Hwf Hf. pose proof Hwf as (_ & _ & _ & _ & _ & Hm & _).
  destruct (Hm Hf) as [m Hmo].
  unfold answered, execState. rewrite componentDidUpdate_spec.
  unfold reconcile. simpl. rewrite Hmo.
  destruct (refRow _) as [e|]; [case_bool_decide|];
    destruct (wantsFocus _); simpl;
    unfold blurEditInput, focusEditInput; simpl; rewrite ?Hf; simpl;
    by rewrite ?bool_decide_eq_true_2.
Qed.

(** C19: the answer of the store and the teardown commute, up to the
    focus.  In a world in which a teardown is due within [ms], with new
    props [p] such that no rendering throws: whichever of the two comes
    first, the table ends idle on the list of [p], with the log, the
    timers and the clock of the teardown and no input on screen; the two
    worlds differ in the focus at most, and not at all if the focus was in
    the edit input. *)
Theorem race_settles w p ms :
  wf w → existsb (isDue (clock w + ms)) (timers w) = true →
  is_Some (render (props w) newEmptyState) →
  is_Some (render p (state w)) → is_Some (render p newEmptyState) →
  ∃ wa wb,
    steps [EvProps p; EvElapse ms] (Running w) = Running wa
    ∧ steps [EvElapse ms; EvProps p] (Running w) = Running wb
    ∧ wb = settled p ms w
    ∧ wa = {| wb with document := document wa |}
    ∧ abs wa = abs wb
    ∧ (activeElement (document w) = Some ElEditInput → wa = wb).
Proof.
  intros Hwf Hdue Hold Hs Hnew. eexists _, _.
  split; [by apply answer_then_teardown|].
  split; [by apply teardown_then_answer|].
  split_and!; [done..|].
  intros Hf. by rewrite answered_blur.
Qed.
End race.

(** * The race on the sample table *)

#[local] Existing Instance sampleEnv.

(** The save of ["example.org"] is on its way and the user has put the
    cursor in the field [#formText] of the page. *)
Definition savedElsewhere : World :=
  {| saved with
     document := {| activeElement := Some ElFormText;
                    formTextMounted := true |} |}.

Lemma savedElsewhere_reachable : reachable (Running savedElsewhere).
Proof.
  reach [EvMsg (MsgEditStart rule1); EvMsg (MsgChange "example.org");
         EvMsg MsgEditSave; EvFocus ElFormText].
Qed.

(** When the answer comes before the teardown, the new input takes the
    focus from [#formText], and the teardown leaves it on the body; when
    it comes after, the focus stays where the user put it. *)
Example race_focus :
  (activeElement ∘ document <$>
     running (steps [EvProps echoed; EvElapse 200] (Running savedElsewhere)))
  = Some (Some ElBody)
  ∧ (activeElement ∘ document <$>
       running (steps [EvElapse 200; EvProps echoed]
                  (Running savedElsewhere)))
    = Some (Some ElFormText).
Proof. by vm_compute. Qed.

Lemma race_settles_witness :
  ∃ wa wb,
    steps [EvProps echoed; EvElapse 200] (Running saved) = Running wa
    ∧ steps [EvElapse 200; EvProps echoed] (Running saved) = Running wb
    ∧ wb = settled echoed 200 saved
    ∧ wa = {| wb with document := document wa |}
    ∧ abs wa = abs wb
    ∧ (activeElement (document saved) = Some ElEditInput → wa = wb).
Proof.
  apply (race_settles saved echoed 200);
    [apply (reachable_wfApp _ saved_reachable)|done|by vm_compute; eexists..].
Defined.
