(* ===== verification/Unmount.v ===== *)
(** * The table leaves the screen

    [ExpressionTable] has no [componentWillUnmount], and [commitEdit] keeps
    no handle on the promise of [sleep(200)]: when the parent stops
    rendering the table while a teardown is pending, the promise still
    resolves and calls [clearEdit] on the instance that is gone.  This
    file says what happens then.

    - [unmount] is what React does when the component leaves the tree:
      the ref callback is called with [null], the input leaves the
      document, and the focus goes to the body if the input had it.  The
      promises stay in the queue of the browser.
    - A task that runs afterwards ([runGone]) calls the method as before;
      React ignores a [setState] on a component that is not mounted.
    - After the unmount a pending teardown finds no ref, touches no
      element, and its [setState] is dropped: nothing changes but the
      clock and the queue of promises ([gone_quiet]).  No command is sent
      by a table that is gone, and the commands it sent before stay sent:
      a save is not lost by leaving the page within the 200 ms
      ([gone_log]).  The state of the instance stays as it was, in edit
      mode if it was. *)

From S2P Require Import Prelude JsString Uri Dom Types Vdom.
From S2P Require Import TextInputEditable Component ExpressionTable Render.
From S2P Require Import Runtime Gestures EventLoop.

(** The component on screen, or the instance that was on screen. *)
Variant Life :=
  | Shown (a : App)
  | Gone (w : World).

(** An event of the component, or the parent taking the table away. *)
Variant LifeEvent :=
  | LEv (ev : Event)
  | LUnmount.

Section unmount.
Context `{Env}.
Implicit Types (w : World) (l : Life) (ev : Event).

(** React takes the component out of the tree. *)
Definition unmount w : World :=
  {| w with
     editInput := None; mounted := None;
     document := blurEditInput (document w) |}.

(** A task runs on the instance that is gone: the [setState] calls of the
    method are ignored. *)
Definition runGone (t : Task) w : World :=
  {| (execState (runTask t) w) with pending := [] |}.

(** Time passes: the promises that are due run their tasks. *)
Definition elapseGone ms w : World :=
  foldl (λ w t, runGone (task t) w) (later ms w)
    (dueNow (clock w + ms) (timers w)).

Definition lstep (e : LifeEvent) l : Life :=
  match l, e with
  | Shown a, LEv ev => Shown (step ev a)
  | Shown (Running w), LUnmount => Gone (unmount w)
  | Shown (Crashed w), LUnmount => Gone (unmount w)
  | Gone w, LEv (EvElapse ms) => Gone (elapseGone ms w)
  | Gone w, _ => Gone w
  end.

Definition lsteps (es : list LifeEvent) l : Life :=
  foldl (λ l e, lstep e l) l es.

(** The instance of a component that is gone. *)
Definition goneOk w : Prop :=
  editInput w = None ∧ mounted w = None ∧ pending w = [].

Lemma unmount_goneOk w : pending w = [] → goneOk (unmount w).
Proof. done. Qed.

(** The teardown on an instance that is gone does nothing. *)
Lemma runGone_quiet t w : goneOk w → runGone t w = w.
Proof.
  intros (He & Hm & Hq). destruct t. unfold runGone, execState. simpl.
  rewrite clearEdit_spec. unfold throughRef. rewrite He. simpl.
  destruct w; simpl in *; by subst.
Qed.

Lemma elapseGone_quiet ms w : goneOk w → elapseGone ms w = later ms w.
Proof.
  intros Hg. unfold elapseGone.
  induction (dueNow _ _) as [|t ts IH]; [done|].
  simpl. by rewrite runGone_quiet.
Qed.

(** Once the table is gone, nothing happens to its instance but the
    passing of time: the state, the props and the log of commands are
    those of the moment of the unmount; no element is touched. *)
Theorem gone_quiet es w :
  goneOk w →
  ∃ w', lsteps es (Gone w) = Gone w' ∧ goneOk w'
        ∧ state w' = state w ∧ props w' = props w
        ∧ dispatched w' = dispatched w ∧ document w' = document w
        ∧ clock w ≤ clock w'.
Proof.
  revert w. induction es as [|e es IH]; intros w Hg; [by exists w|].
  assert (∃ w1, lstep e (Gone w) = Gone w1 ∧ goneOk w1
          ∧ state w1 = state w ∧ props w1 = props w
          ∧ dispatched w1 = dispatched w ∧ document w1 = document w
          ∧ clock w ≤ clock w1) as (w1 & Hs & Hg1 & Es & Ep & Ed & Eo & Ec).
  { destruct e as [[m|key|ms|p|el]|]; try (by exists w).
    exists (later ms w). simpl. rewrite elapseGone_quiet by done.
    split_and!; try done. simpl. lia. }
  destruct (IH w1 Hg1) as (w' & Hss & Hg' & Es' & Ep' & Ed' & Eo' & Ec').
  exists w'. change (lsteps (e :: es) (Gone w)) with (lsteps es (lstep e (Gone w))).
  rewrite Hs. split_and!; [done|done|congruence..|lia].
Qed.

(** A save followed by the unmount: the command is in the log before the
    table goes, and it stays there. *)
Theorem gone_log es w :
  wf w →
  ∃ w', lsteps (LUnmount :: es) (Shown (Running w)) = Gone w'
        ∧ dispatched w' = dispatched w ∧ state w' = state w.
Proof.
  intros Hwf.
  destruct (gone_quiet es (unmount w)) as (w' & Hs & _ & Es & _ & Ed & _);
    [apply unmount_goneOk, (wf_pending w Hwf)|].
  exists w'. by split_and!.
Qed.
End unmount.

(** * On the sample table *)

#[local] Existing Instance sampleEnv.

(** The user saves and leaves the page at once: the update is in the log;
    the teardown fires on the instance that is gone and changes nothing,
    so that the state of the instance stays in edit mode. *)
Example save_then_leave :
  lsteps [LEv (EvMsg (MsgEditStart rule1));
          LEv (EvMsg (MsgChange "example.org"));
          LEv (EvMsg MsgEditSave); LUnmount; LEv (EvElapse 200)]
    (Shown (mount sampleProps sampleDocument))
  = Gone {| (unmount saved) with clock := 200; timers := [] |}.
Proof. by vm_compute. Qed.
