(* ===== verification/Store.v ===== *)
(** * The store

    The table sends commands to the Redux store and gets the list of
    records back as props.  The store and its reducers are not part of the
    sources; the specification treats the store as a sink of commands and a
    source of records, and assumes that the ids of the records are unique.
    Here that contract is an interface: the class [Store], the list of the
    table after a command, with the laws [StoreLaws] that the table relies
    on.  The theorems of [ClosedLoop] are proved against the interface.

    Two reducers implement it: [listStore], which replaces and deletes in
    place, and [moveStore], which moves the record it updates to the end.
    The laws say nothing of the order of the records, and they determine
    the records: two stores that satisfy them answer a command with the
    same records ([reduce_determined]). *)

From S2P Require Import Prelude Types.


(** ** The interface *)

(** The reducer of the list that the table shows: the list after the store
    has applied a command. *)
Class Store := mkStore {
  reduce : list Expression → ReduxAction → list Expression;
}.

(** What the table relies on.  An update puts its payload in the place of
    the records of its id, if there is one, and leaves the others; a
    removal takes the records of the id of its payload away and leaves the
    others; unique ids stay unique.  Nothing is said of the order. *)
Class StoreLaws `{Store} := mkStoreLaws {
  reduce_update es e x :
    x ∈ reduce es (updateExpressionUI e)
    ↔ (x = e ∧ Types.id e ∈ Types.id <$> es)
      ∨ (x ∈ es ∧ Types.id x ≠ Types.id e);
  reduce_remove es e x :
    x ∈ reduce es (removeExpressionUI e)
    ↔ x ∈ es ∧ Types.id x ≠ Types.id e;
  reduce_NoDup es a :
    NoDup (Types.id <$> es) → NoDup (Types.id <$> reduce es a);
}.

(** ** A store

    The reducer that replaces and filters by id, in place: an
    implementation of the interface, on which the examples run. *)

Definition replaceById (e x : Expression) : Expression :=
  if bool_decide (Types.id x = Types.id e) then e else x.

Definition listReduce (es : list Expression) (a : ReduxAction)
    : list Expression :=
  match a with
  | updateExpressionUI e => replaceById e <$> es
  | removeExpressionUI e =>
      List.filter (λ x, negb (bool_decide (Types.id x = Types.id e))) es
  end.

#[export] Instance listStore : Store := {| reduce := listReduce |}.

Lemma replaceById_id e x : Types.id (replaceById e x) = Types.id x.
Proof. unfold replaceById. by case_bool_decide. Qed.

#[export] Instance listStore_laws : @StoreLaws listStore.
Proof.
  split; simpl.
  - intros es e x. rewrite list_elem_of_fmap. unfold replaceById. split.
    + intros (y & -> & Hy). case_bool_decide as Hid.
      * left. split; [done|]. rewrite <-Hid. by apply list_elem_of_fmap_2.
      * by right.
    + intros [[-> (y & Hid & Hy)%list_elem_of_fmap]|[Hx Hid]].
      * exists y. by rewrite bool_decide_eq_true_2.
      * exists x. by rewrite bool_decide_eq_false_2.
  - intros es e x. rewrite list_elem_of_In, filter_In, <-list_elem_of_In.
    rewrite negb_true_iff, bool_decide_eq_false. done.
  - intros es [e|e] Hnd; simpl.
    + by apply NoDup_fmap_filter.
    + rewrite <-list_fmap_compose. erewrite list_fmap_ext; [done|].
      intros i x _. apply replaceById_id.
Qed.

(** ** Another store

    A reducer that moves the record it updates to the end of the list, as
    a reducer that sorts its list may: the laws say nothing of the order,
    and the theorems of this file hold for this store as well. *)

Definition withoutId (e : Expression) (es : list Expression)
    : list Expression :=
  List.filter (λ x, negb (bool_decide (Types.id x = Types.id e))) es.

Definition moveReduce (es : list Expression) (a : ReduxAction)
    : list Expression :=
  match a with
  | updateExpressionUI e =>
      if bool_decide (Types.id e ∈ Types.id <$> es)
      then withoutId e es ++ [e] else es
  | removeExpressionUI e => withoutId e es
  end.

Definition moveStore : Store := {| reduce := moveReduce |}.

Lemma elem_of_withoutId e es x :
  x ∈ withoutId e es ↔ x ∈ es ∧ Types.id x ≠ Types.id e.
Proof.
  unfold withoutId. rewrite list_elem_of_In, filter_In, <-list_elem_of_In.
  by rewrite negb_true_iff, bool_decide_eq_false.
Qed.

Lemma moveStore_laws : @StoreLaws moveStore.
Proof.
  split; simpl.
  - intros es e x. case_bool_decide as Hin.
    + rewrite elem_of_app, elem_of_withoutId, list_elem_of_singleton.
      naive_solver.
    + split; [|naive_solver]. intros Hx. right. split; [done|].
      intros Hid. apply Hin. rewrite <-Hid. by apply list_elem_of_fmap_2.
  - intros es e x. apply elem_of_withoutId.
  - intros es [e|e] Hnd; simpl; [by apply NoDup_fmap_filter|].
    case_bool_decide; [|done]. rewrite fmap_app. apply NoDup_app.
    split_and!; [by apply NoDup_fmap_filter| |apply NoDup_singleton].
    intros i (x & -> & [_ Hx]%elem_of_withoutId)%list_elem_of_fmap.
    simpl. by intros Heq%list_elem_of_singleton.
Qed.

(** ** The laws determine the store, up to the order of the records

    Two stores that satisfy the laws answer a command with the same
    records, on lists of the same records with unique ids. *)

Lemma reduce_determined (S1 S2 : Store) :
  @StoreLaws S1 → @StoreLaws S2 →
  ∀ es es' a,
    NoDup (Types.id <$> es) → es ≡ₚ es' →
    @reduce S1 es a ≡ₚ @reduce S2 es' a.
Proof.
  intros L1 L2 es es' a Hnd Hp.
  assert (NoDup (Types.id <$> es')) as Hnd' by by rewrite <-Hp.
  apply NoDup_Permutation.
  - by eapply NoDup_fmap_1, reduce_NoDup.
  - by eapply NoDup_fmap_1, reduce_NoDup.
  - intros x. destruct a as [e|e].
    + rewrite !reduce_remove. by rewrite Hp.
    + rewrite !reduce_update. by rewrite Hp.
Qed.
