(* ===== verification/ClosedLoop.v ===== *)
(** * The closed loop of the table and the store

    The table sends commands to the Redux store and gets the list of records
    back as props: [connect] and the container around it close the loop.
    The store is the interface of [Store]: every theorem of this file holds
    for any reducer that satisfies [StoreLaws].

    - [closedStep] is one turn of the loop: the table takes a gesture
      ([Runtime.step]); if the handler dispatched commands, the store
      reduces them and the table is rendered again with the new list
      ([EvProps]).  The answer of the store arrives before the next
      gesture.  No handler both dispatches and calls [setState], so the
      rendering for the answer is the only one of the turn.
    - In the closed loop the ids stay unique, so at most one row is
      editable and the ref points to the record under edit
      ([closed_exclusive]): the hypothesis of uniqueness that the theorems
      of [Render], [Gestures] and [Lifecycle] carry holds in every world
      of the loop, once it holds for the first props.
    - A save, through the store and back: 200 ms later the table is idle,
      the record sent is in the table and shows what was typed, and the
      other records are untouched ([closed_commit]).
    - The remove button of the row under edit: the record leaves the
      table, the state stays in edit mode on its id, and the screen offers
      neither save nor cancel ([closed_remove_target]).  Its toggle button:
      the row gets another key and the input is replaced by a fresh one
      ([closed_toggle_target]).
    - The loop does not crash as long as the texts of the table at the
      start and every text that is typed can be decoded
      ([closed_loop_runs]).  ([Gestures.typing_percent_crashes] is the
      other half: one text that cannot be decoded takes the table down.)

    - The refinement of [Session] goes through the store: the table with
      the store and the controller of the specification with the store
      agree turn by turn ([closedSteps_refine]).

    The lemmas of the section on what the screen offers say when [offered]
    holds of a click, in the terms of the table and of the session. *)


From stdpp Require Import sets.
From S2P Require Import Prelude JsString Uri Dom Types Vdom.
From S2P Require Import TextInputEditable Component ExpressionTable Render.
From S2P Require Import Runtime Gestures Session Lifecycle Store.

(** ** The closed loop *)

(** The events of the user and of the clock: every one but new props. *)
Definition isGesture (ev : Event) : bool :=
  match ev with EvProps _ => false | _ => true end.

(** The commands sent between two worlds. *)
Definition sent (w w' : World) : list ReduxAction :=
  drop (length (dispatched w)) (dispatched w').

Section closed.
Context `{Env} `{Store}.
Implicit Types (w : World) (a : App) (ev : Event) (e o x : Expression).

(** The props that the container passes after the store has applied the
    commands [acts]. *)
Definition answer (acts : list ReduxAction) (p : Component.OwnProps)
    : Component.OwnProps :=
  {| expressions := Some (foldl reduce (expressionsOrEmpty p) acts);
     expressionColumnTitle := expressionColumnTitle p;
     Component.storeId := Component.storeId p;
     emptyElement := emptyElement p |}.

(** One turn of the closed loop. *)
Definition closedStep (ev : Event) (a : App) : App :=
  match a, step ev a with
  | Running w, Running w' =>
      match sent w w' with
      | [] => Running w'
      | acts => step (EvProps (answer acts (props w'))) (Running w')
      end
  | _, a' => a'
  end.

Definition closedSteps (evs : list Event) (a : App) : App :=
  foldl (λ a ev, closedStep ev a) a evs.

Inductive closedReachable (p : Component.OwnProps) (d : Document)
    : App → Prop :=
  | closed_mount : closedReachable p d (mount p d)
  | closed_step a ev :
      closedReachable p d a → isGesture ev = true →
      closedReachable p d (closedStep ev a).

(** Unique ids. *)
Definition idsOk (p : Component.OwnProps) : Prop :=
  NoDup (Types.id <$> expressionsOrEmpty p).

Lemma expressions_answer acts p :
  expressionsOrEmpty (answer acts p)
  = foldl reduce (expressionsOrEmpty p) acts.
Proof. done. Qed.

Lemma answer_one act p :
  expressionsOrEmpty (answer [act] p) = reduce (expressionsOrEmpty p) act.
Proof. done. Qed.

Lemma sent_same w w': dispatched w' = dispatched w → sent w w' = [].
Proof. unfold sent. intros ->. apply drop_all. Qed.

Lemma sent_app w w' acts :
  dispatched w' = dispatched w ++ acts → sent w w' = acts.
Proof. unfold sent. intros ->. apply drop_app_length. Qed.

Lemma closedStep_silent ev w w' :
  step ev (Running w) = Running w' → dispatched w' = dispatched w →
  closedStep ev (Running w) = Running w'.
Proof. intros Hs Hd. unfold closedStep. by rewrite Hs, sent_same. Qed.

Lemma closedStep_sent ev w w' act :
  step ev (Running w) = Running w' →
  dispatched w' = dispatched w ++ [act] →
  closedStep ev (Running w)
  = step (EvProps (answer [act] (props w'))) (Running w').
Proof.
  intros Hs Hd. unfold closedStep. by rewrite Hs, (sent_app _ _ [act]).
Qed.

Lemma closedStep_cases ev w :
  closedStep ev (Running w) = step ev (Running w)
  ∨ ∃ w' acts, step ev (Running w) = Running w' ∧ sent w w' = acts
      ∧ closedStep ev (Running w)
        = step (EvProps (answer acts (props w'))) (Running w').
Proof.
  unfold closedStep. destruct (step ev (Running w)) as [w'|w']; [|by left].
  destruct (sent w w') eqn:Hsent; [by left|right; eauto].
Qed.

Lemma closedReachable_reachable p d a :
  closedReachable p d a → reachable a.
Proof.
  induction 1 as [|a ev _ IH _]; [constructor|].
  destruct a as [w|w]; [|done].
  destruct (closedStep_cases ev w) as [->|(w' & acts & Hs & _ & ->)];
    [by constructor|].
  constructor. rewrite <-Hs. by constructor.
Qed.

Lemma update_props w w' : update w = Running w' → props w' = props w.
Proof.
  unfold update. destruct (render _ _); [|done]. intros [= <-].
  destruct (componentDidUpdate_keeps (reconcile (flush w))) as (_ & -> & _).
  by destruct (reconcile_spec (flush w)) as ((_ & -> & _) & _).
Qed.

Lemma afterHandler_props w w' :
  afterHandler w = Running w' → props w' = props w.
Proof.
  unfold afterHandler. destruct (pending w); [by intros [= <-]|].
  apply update_props.
Qed.

(** A gesture leaves the props alone. *)
Lemma step_gesture_props w ev w' :
  wf w → isGesture ev = true → step ev (Running w) = Running w' →
  props w' = props w.
Proof.
  intros Hwf Hg. destruct ev as [m|key|ms|p|el]; [| | |done|].
  - rewrite step_msg. intros ->%afterHandler_props.
    apply (fr_props _ _ (framed_handle m w)).
  - simpl. rewrite keyMsgs_nil. by intros [= <-].
  - rewrite elapse_spec by done.
    destruct (existsb _ _); [destruct (render _ _)|]; by intros [= <-].
  - simpl. intros [= <-]. unfold moveFocus. by case_match.
Qed.

Lemma answer_idsOk `{!StoreLaws} acts p : idsOk p → idsOk (answer acts p).
Proof.
  unfold idsOk, answer, expressionsOrEmpty. simpl.
  generalize (default [] (expressions p)).
  induction acts as [|act acts IH]; intros es Hnd; simpl; [done|].
  by apply IH, reduce_NoDup.
Qed.

(** In the closed loop the ids stay unique. *)
Lemma closedStep_idsOk `{!StoreLaws} ev w w' :
  wf w → isGesture ev = true → closedStep ev (Running w) = Running w' →
  idsOk (props w) → idsOk (props w').
Proof.
  intros Hwf Hg Hs Hnd.
  destruct (closedStep_cases ev w) as [Hc|(w1 & acts & Hs1 & _ & Hc)];
    rewrite Hc in Hs.
  - by rewrite (step_gesture_props w ev w').
  - pose proof (step_wf ev (Running w) Hwf) as Hwf1. rewrite Hs1 in Hwf1.
    destruct (step_props_keeps w1 _ w' Hwf1 Hs) as (_ & -> & _).
    apply answer_idsOk. by rewrite (step_gesture_props w ev w1).
Qed.

Lemma closedReachable_idsOk `{!StoreLaws} p d a :
  idsOk p → closedReachable p d a → ∀ w, a = Running w → idsOk (props w).
Proof.
  intros Hp. induction 1 as [|a ev Ha IH Hg]; intros w Hw.
  - unfold mount in Hw. by destruct (render _ _); simplify_eq.
  - destruct a as [w0|w0]; [|done].
    apply (closedStep_idsOk ev w0 w); [|done|done|by apply IH].
    apply (reachable_wfApp _ (closedReachable_reachable _ _ _ Ha)).
Qed.

(** What unique ids give in a world that satisfies the invariant: one row
    at most is rendered editable; and when an input is on screen, it is
    the input of that row, mounted under its key, and the record of the
    row is the one that [commitEdit] would look up. *)
Lemma wf_exclusive w :
  wf w → idsOk (props w) →
  length (editableRows (state w) (expressionsOrEmpty (props w))) ≤ 1
  ∧ (is_Some (mounted w) →
     ∃ e, editableRows (state w) (expressionsOrEmpty (props w)) = [e]
          ∧ rowKey <$> mounted w = Some (keyOf e)
          ∧ original w = Some e).
Proof.
  intros Hwf Hnd.
  pose proof (editableRows_unique (state w) _ Hnd) as Hl.
  split; [done|].
  intros [m Hm]. destruct Hwf as (_ & _ & _ & Hk & _).
  unfold refRow in Hk. rewrite Hm in Hk.
  destruct (editableRows _ _) as [|e [|??]] eqn:Hrows; simpl in *;
    [done| |lia].
  exists e. split_and!; [done|by rewrite Hm|].
  assert (e ∈ editableRows (state w) (expressionsOrEmpty (props w)))
    as [He Hc]%editableRows_elem by (rewrite Hrows; left).
  apply rowCanEdit_true in Hc as [_ Hid]. unfold original. rewrite Hid.
  by apply find_unique_key.
Qed.

(** In the closed loop one record at most is under edit.  If the ids of
    the first props are unique, then in every world that the table and
    the store reach together, whatever the gestures: the ids of the table
    are unique; one row at most is rendered editable; and when an input is
    on screen, it is the input of that row, mounted under its key, and the
    record of the row is the one that [commitEdit] would look up. *)
Theorem closed_exclusive `{!StoreLaws} p d w :
  NoDup (Types.id <$> expressionsOrEmpty p) →
  closedReachable p d (Running w) →
  NoDup (Types.id <$> expressionsOrEmpty (props w))
  ∧ length (editableRows (state w) (expressionsOrEmpty (props w))) ≤ 1
  ∧ (is_Some (mounted w) →
     ∃ e, editableRows (state w) (expressionsOrEmpty (props w)) = [e]
          ∧ rowKey <$> mounted w = Some (keyOf e)
          ∧ original w = Some e).
Proof.
  intros Hp Hr.
  pose proof (closedReachable_idsOk p d _ Hp Hr w eq_refl) as Hnd.
  split; [done|]. apply wf_exclusive; [|done].
  apply (reachable_wfApp _ (closedReachable_reachable _ _ _ Hr)).
Qed.

(** ** A save in the closed loop *)

(** In a session on the record [o], the buffer can be decoded, and so can
    the texts of the records of the other ids. *)
Lemma wf_session_shown w o :
  wf w → o ∈ expressionsOrEmpty (props w) →
  rowCanEdit (state w) o = true →
  is_Some (decodeURIComponent (expressionInput (state w)))
  ∧ ∀ x, x ∈ expressionsOrEmpty (props w) → Types.id x ≠ Types.id o →
         is_Some (decodeURIComponent (Types.expression x)).
Proof.
  intros Hwf Ho Hc.
  pose proof (wf_render w Hwf) as Hr. rewrite render_Some_iff in Hr.
  split.
  - specialize (Hr o Ho). unfold rowShown in Hr. by rewrite Hc in Hr.
  - intros x Hx Hne. specialize (Hr x Hx). unfold rowShown in Hr.
    apply rowCanEdit_true in Hc as [_ Hs].
    replace (rowCanEdit (state w) x) with false in Hr; [done|].
    symmetry. apply not_true_is_false.
    intros [_ Hid]%rowCanEdit_true. congruence.
Qed.

(** The answer to an update of the record under edit can be rendered in
    the session: the row of the record shows the buffer. *)
Lemma answer_update_session `{!StoreLaws} w o e :
  wf w → o ∈ expressionsOrEmpty (props w) →
  rowCanEdit (state w) o = true → Types.id e = Types.id o →
  is_Some (render (answer [updateExpressionUI e] (props w)) (state w)).
Proof.
  intros Hwf Ho Hc Hid. destruct (wf_session_shown w o) as [Hb Hx]; [done..|].
  apply render_Some_iff. intros x. rewrite answer_one. unfold rowShown.
  intros [[-> _]|[Hin Hne]]%reduce_update.
  - replace (rowCanEdit (state w) e) with true; [done|].
    symmetry. apply rowCanEdit_true in Hc. apply rowCanEdit_true.
    by rewrite Hid.
  - destruct (rowCanEdit (state w) x); [done|].
    apply Hx; [done|congruence].
Qed.

(** It can be rendered after the session if the new text can be
    decoded. *)
Lemma answer_update_idle `{!StoreLaws} w o e :
  wf w → o ∈ expressionsOrEmpty (props w) →
  rowCanEdit (state w) o = true → Types.id e = Types.id o →
  is_Some (decodeURIComponent (Types.expression e)) →
  is_Some (render (answer [updateExpressionUI e] (props w)) newEmptyState).
Proof.
  intros Hwf Ho Hc Hid He. destruct (wf_session_shown w o) as [_ Hx]; [done..|].
  apply render_idle; [done|]. intros x. rewrite answer_one.
  intros [[-> _]|[Hin Hne]]%reduce_update; [done|].
  apply Hx; [done|congruence].
Qed.

(** Time that passes sends nothing. *)
Lemma closedStep_elapse ms w :
  wf w → closedStep (EvElapse ms) (Running w) = step (EvElapse ms) (Running w).
Proof.
  intros Hwf. destruct (step (EvElapse ms) (Running w)) as [w'|w'] eqn:Hs.
  - apply closedStep_silent; [done|]. rewrite elapse_spec in Hs by done.
    destruct (existsb _ _); [destruct (render _ _)|]; by simplify_eq.
  - unfold closedStep. by rewrite Hs.
Qed.

(** C28: a save, through the store and back.  The user saves a buffer that
    the validator accepts; the store applies the update and the table is
    rendered with its answer; 200 ms pass.  Then the table is idle: the
    state is [new EmptyState()], no input is mounted and no ref set, no
    timer is left.  One command was sent, the update of the record under
    edit with the buffer for text.  The table holds that record, whose row
    shows, read-only, the text that the input displayed when the user
    clicked, and beside it the records of the other ids, untouched.
    Nothing is assumed of the texts of the table: that no rendering on the
    way throws follows from the invariant of the world the save starts
    in. *)
Theorem closed_commit `{!StoreLaws} w o :
  wf w → canValidate w = true → validationResult w = "" →
  original w = Some o →
  let e := withExpression (expressionInput (state w))
             (Component.storeId (props w)) o in
  ∃ w',
    closedSteps [EvMsg MsgEditSave; EvElapse 200] (Running w) = Running w'
    ∧ state w' = newEmptyState
    ∧ editInput w' = None ∧ mounted w' = None ∧ timers w' = []
    ∧ dispatched w' = dispatched w ++ [updateExpressionUI e]
    ∧ rowShown (state w') e = displayed w
    ∧ (∀ x, x ∈ expressionsOrEmpty (props w')
            ↔ x = e ∨ (x ∈ expressionsOrEmpty (props w)
                        ∧ Types.id x ≠ Types.id o)).
Proof.
  intros Hwf Hg Hr Ho e.
  destruct (wf_original w Hwf Hg) as (o' & Ho' & Hin & Hc).
  rewrite Ho in Ho'. simplify_eq.
  set (p' := answer [updateOf w o'] (props w)).
  assert (is_Some (render p' newEmptyState)) as Hv.
  { apply (answer_update_idle w o'); [done..|].
    apply (proj1 (wf_session_shown w o' Hwf Hin Hc)). }
  destruct (commit_roundtrip w o' p' Hwf Hg Hr Ho Hv)
    as (w' & Hsteps & Es & Ep & He & Hm & Ed & Et & _ & Hsh).
  exists w'. split_and!; [|done..|by apply Hsh|].
  - rewrite <-Hsteps.
    change (closedSteps _ _) with
      (closedStep (EvElapse 200)
         (closedStep (EvMsg MsgEditSave) (Running w))).
    rewrite (closedStep_sent _ w _ _ (step_save w o' Hwf Hg Hr Ho) eq_refl).
    change (answer _ _) with p'.
    pose proof (step_wf (EvProps p') _
                  (step_wf (EvMsg MsgEditSave) (Running w) Hwf)) as Hwf2.
    rewrite (step_save w o') in Hwf2 by done.
    change (steps _ _) with
      (step (EvElapse 200)
         (step (EvProps p') (step (EvMsg MsgEditSave) (Running w)))).
    rewrite (step_save w o') by done.
    destruct (step (EvProps p') _); [by apply closedStep_elapse|done].
  - intros x. rewrite Ep. unfold p'. rewrite expressions_answer.
    simpl. unfold updateOf. rewrite reduce_update. simpl.
    assert (Types.id o' ∈ Types.id <$> expressionsOrEmpty (props w))
      by by apply list_elem_of_fmap_2.
    naive_solver.
Qed.

(** ** What the screen offers *)

Lemma render_clicks p s v :
  render p s = Some v →
  clicks v = flat_map (rowClicks s) (expressionsOrEmpty p).
Proof.
  destruct (decide (expressionsOrEmpty p = [])) as [He|He].
  - rewrite render_empty, He by done. by intros [= <-].
  - by intros (? & _)%render_table.
Qed.

Lemma offered_click w m :
  wf w → (∀ value, m ≠ MsgChange value) →
  offered w (EvMsg m) = true
  ↔ ∃ e, e ∈ expressionsOrEmpty (props w) ∧ m ∈ rowClicks (state w) e.
Proof.
  intros [v Hv]%wf_render Hm. unfold offered. rewrite Hv.
  rewrite <-elem_of_flat_map, <-(render_clicks _ _ _ Hv).
  destruct m; by rewrite ?bool_decide_eq_true; try by destruct (Hm value).
Qed.

Lemma offered_session w m :
  wf w → m = MsgEditSave ∨ m = MsgEditClear →
  offered w (EvMsg m) = true
  ↔ editableRows (state w) (expressionsOrEmpty (props w)) ≠ [].
Proof.
  intros Hwf Hm. rewrite offered_click by naive_solver. unfold rowClicks.
  split.
  - intros (e & He & Hin) Hnil.
    assert (e ∈ editableRows (state w) (expressionsOrEmpty (props w)))
      as Hed; [|by rewrite Hnil in Hed; apply elem_of_nil in Hed].
    apply editableRows_elem. split; [done|].
    destruct (rowCanEdit _ _); [done|]. set_solver.
  - destruct (editableRows _ _) as [|e l] eqn:Hrows; [done|]. intros _.
    assert (e ∈ editableRows (state w) (expressionsOrEmpty (props w)))
      as [He Hc]%editableRows_elem by (rewrite Hrows; left).
    exists e. rewrite Hc. set_solver.
Qed.

Lemma offered_start w e :
  wf w →
  offered w (EvMsg (MsgEditStart e)) = true
  ↔ e ∈ expressionsOrEmpty (props w) ∧ rowCanEdit (state w) e = false.
Proof.
  intros Hwf. rewrite offered_click by done. unfold rowClicks. split.
  - intros (x & Hx & Hin). destruct (rowCanEdit (state w) x) eqn:Hc;
      set_solver.
  - intros [He Hc]. exists e. rewrite Hc. set_solver.
Qed.

(** ** The record under edit is removed *)

Lemma step_row_button w m act :
  wf w →
  execState (handle m) w = {| w with dispatched := dispatched w ++ [act] |} →
  step (EvMsg m) (Running w)
  = Running {| w with dispatched := dispatched w ++ [act] |}.
Proof.
  intros Hwf Hm. rewrite step_msg. simpl. rewrite Hm.
  unfold afterHandler. simpl. by rewrite (wf_pending w Hwf).
Qed.

(** C31: the remove button of the row under edit.  The removal is sent,
    the store takes the record out and the table is rendered without it:
    the edit input is unmounted and the ref dropped, but the state stays as
    it was, in edit mode on the id of the record that is gone, with its
    buffer.  The screen then offers neither save nor cancel, and a call of
    [commitEdit] would change nothing: no command, no timer, no teardown.
    The branch of [commitEdit] for a record that is missing does not end
    this session; a start on another row does. *)
Theorem closed_remove_target `{!StoreLaws} w o :
  wf w → o ∈ expressionsOrEmpty (props w) →
  rowCanEdit (state w) o = true →
  ∃ w',
    closedStep (EvMsg (MsgRemove o)) (Running w) = Running w'
    ∧ state w' = state w
    ∧ (∀ x, x ∈ expressionsOrEmpty (props w')
            ↔ x ∈ expressionsOrEmpty (props w) ∧ Types.id x ≠ Types.id o)
    ∧ editInput w' = None ∧ mounted w' = None
    ∧ dispatched w' = dispatched w ++ [removeExpressionUI o]
    ∧ timers w' = timers w
    ∧ offered w' (EvMsg MsgEditSave) = false
    ∧ offered w' (EvMsg MsgEditClear) = false
    ∧ closedStep (EvMsg MsgEditSave) (Running w') = Running w'.
Proof.
  intros Hwf Ho [Hm Hid]%rowCanEdit_true.
  pose proof (step_wf (EvMsg (MsgRemove o)) (Running w) Hwf) as Hwf1.
  pose proof (step_row_button w (MsgRemove o) _ Hwf eq_refl) as Hs1.
  rewrite Hs1 in Hwf1. rewrite (closedStep_sent _ w _ _ Hs1 eq_refl).
  set (w1 := {| w with dispatched := _ |}) in *.
  set (p' := answer [removeExpressionUI o] (props w1)).
  assert (∀ x, x ∈ expressionsOrEmpty p'
               ↔ x ∈ expressionsOrEmpty (props w) ∧ Types.id x ≠ Types.id o)
    as Hp' by (intros x; apply reduce_remove).
  assert (original {| w1 with props := p' |} = None) as Hnone.
  { apply find_None_iff. intros x [_ Hx]%Hp'. simpl.
    rewrite Hid. by apply bool_decide_eq_false. }
  destruct (props_without_record w1 p' Hwf1 Hnone)
    as (w' & Hs & Hwf' & Es & Ep & He & Hmt & Ed & Et).
  { apply render_Some_iff. intros x [Hx _]%Hp'.
    by apply (proj1 (render_Some_iff _ _) (wf_render w Hwf)). }
  assert (editableRows (state w') (expressionsOrEmpty (props w')) = [])
    as Hrows.
  { apply original_None_editableRows. unfold original.
    by rewrite Es, Ep. }
  exists w'. split_and!; try done.
  - by rewrite Ep.
  - apply not_true_is_false. rewrite offered_session by eauto. by intros [].
  - apply not_true_is_false. rewrite offered_session by eauto. by intros [].
  - apply closedStep_silent; [|done].
    by apply step_save_no_ref; [apply (wf_pending w' Hwf')|].
Qed.

(** ** The list type of the record under edit is toggled *)

Lemma keyOf_toggled e : keyOf (toggled e) ≠ keyOf e.
Proof. intros [_ Hl]%keyOf_inj. by destruct e as [? ? [] ? ?]. Qed.

(** In a session on a table with unique ids, the input on screen is the
    input of the record under edit. *)
Lemma wf_rowKey w o :
  wf w → idsOk (props w) → o ∈ expressionsOrEmpty (props w) →
  rowCanEdit (state w) o = true →
  rowKey <$> mounted w = Some (keyOf o).
Proof.
  intros (_ & _ & _ & Hk & _) Hnd Ho Hc. rewrite Hk. unfold refRow.
  by rewrite (editableRows_single _ _ o).
Qed.

(** The toggle button of the row under edit.  The update is sent and the
    store answers with the record under its other list type: the key of
    the row changes, so that React replaces the edit input by a fresh one,
    which takes the ref and the focus; the validation marks of the old
    input are gone.  The state, with its buffer and its error, is
    untouched. *)
Lemma closed_toggle_target `{!StoreLaws} w o :
  wf w → idsOk (props w) → o ∈ expressionsOrEmpty (props w) →
  rowCanEdit (state w) o = true →
  closedStep (EvMsg (MsgToggle o)) (Running w)
  = Running
      {| w with
         props := answer [updateExpressionUI (toggled o)] (props w);
         editInput := Some RefInput;
         mounted := Some {| rowKey := keyOf (toggled o);
                            element := freshInput |};
         document := focusEditInput (document w);
         dispatched := dispatched w ++ [updateExpressionUI (toggled o)] |}.
Proof.
  intros Hwf Hnd Ho Hc.
  pose proof (step_wf (EvMsg (MsgToggle o)) (Running w) Hwf) as Hwf1.
  pose proof (step_row_button w (MsgToggle o) _ Hwf eq_refl) as Hs1.
  rewrite Hs1 in Hwf1. rewrite (closedStep_sent _ w _ _ Hs1 eq_refl).
  set (w1 := {| w with dispatched := _ |}) in *.
  set (p' := answer _ (props w1)).
  rewrite step_props; [|done|by apply (answer_update_session w o)].
  f_equal.
  rewrite (update_session w1 p' (toggled o));
    [|done|by apply answer_idsOk| |done].
  - rewrite bool_decide_eq_false_2; [done|].
    change (mounted w1) with (mounted w). rewrite (wf_rowKey w o) by done.
    intros [= Hk]. by apply (keyOf_toggled o).
  - unfold p'. rewrite answer_one. apply reduce_update. left.
    split; [done|]. by apply (list_elem_of_fmap_2 Types.id) in Ho.
Qed.

(** ** The closed loop does not crash *)

(** The texts of the table can be decoded. *)
Definition decodable (p : Component.OwnProps) : Prop :=
  ∀ x, x ∈ expressionsOrEmpty p →
       is_Some (decodeURIComponent (Types.expression x)).

(** The table and the buffer can be decoded. *)
Definition showable (w : World) : Prop :=
  decodable (props w)
  ∧ is_Some (decodeURIComponent (expressionInput (state w))).

(** The command carries a text that can be decoded. *)
Definition actOk (act : ReduxAction) : Prop :=
  match act with
  | updateExpressionUI e => is_Some (decodeURIComponent (Types.expression e))
  | removeExpressionUI _ => True
  end.

(** What the user types can be decoded. *)
Definition typable (ev : Event) : bool :=
  match ev with
  | EvMsg (MsgChange value) => bool_decide (is_Some (decodeURIComponent value))
  | _ => true
  end.

(** Every event of the sequence is a gesture that the screen offers when
    it happens, and what is typed can be decoded. *)
Fixpoint allowed (evs : list Event) (a : App) : bool :=
  match evs, a with
  | [], _ => true
  | ev :: evs', Running w =>
      isGesture ev && offered w ev && typable ev
      && allowed evs' (closedStep ev a)
  | _ :: _, Crashed _ => false
  end.

Lemma allowed_cons ev evs w :
  allowed (ev :: evs) (Running w)
  = isGesture ev && offered w ev && typable ev
    && allowed evs (closedStep ev (Running w)).
Proof. done. Qed.

Lemma showable_render p s :
  decodable p → is_Some (decodeURIComponent (expressionInput s)) →
  is_Some (render p s).
Proof.
  intros Hp Hs. apply render_Some_iff. intros x Hx. unfold rowShown.
  destruct (rowCanEdit s x); [done|by apply Hp].
Qed.

Lemma decodable_render p : decodable p ↔ is_Some (render p newEmptyState).
Proof. by rewrite render_idle. Qed.

(** A handler followed by React's update, when the rendering does not
    throw. *)
Lemma runHandler_runs (h : stateM World unit) w :
  pending w = [] →
  is_Some (render (props (execState h w)) (state (flush (execState h w)))) →
  ∃ w', runHandler h (Running w) = Running w'
        ∧ state w' = state (flush (execState h w))
        ∧ props w' = props (execState h w)
        ∧ dispatched w' = dispatched (execState h w).
Proof.
  intros Hq [v Hv].
  change (runHandler h (Running w)) with (afterHandler (execState h w)).
  set (w1 := execState h w) in *.
  unfold afterHandler. destruct (pending w1) eqn:Hq1.
  - exists w1. by rewrite flush_nothing.
  - unfold update. change (props (flush w1)) with (props w1). rewrite Hv.
    eexists. split; [done|].
    destruct (componentDidUpdate_keeps (reconcile (flush w1)))
      as (-> & -> & _ & _ & -> & _).
    by destruct (reconcile_spec (flush w1)) as ((-> & -> & _ & _ & _ & ->) & _).
Qed.

Lemma sent_nothing (l : list ReduxAction) :
  ∃ acts, l = l ++ acts ∧ Forall actOk acts.
Proof. exists []. by rewrite app_nil_r. Qed.

(** The buffer that a closure of the screen leaves can be decoded. *)
Lemma handle_buffer w m :
  wf w → showable w → offered w (EvMsg m) = true →
  typable (EvMsg m) = true →
  is_Some (decodeURIComponent
             (expressionInput (state (flush (execState (handle m) w))))).
Proof.
  intros Hwf [Hp Hb] Hoff Hty. pose proof (wf_pending w Hwf) as Hq.
  destruct m as [e|value| | |e|e].
  - unfold flush. simpl. by rewrite Hq.
  - rewrite flush_change by done. by apply bool_decide_eq_true in Hty.
  - unfold execState, flush. rewrite clearEdit_spec. simpl.
    by rewrite applyUpdates_full_last.
  - simpl handle. destruct (canValidate w) eqn:Hg;
      [destruct (decide (validationResult w = "")) as [Hr|Hr]|].
    + unfold execState, flush. rewrite commitEdit_committed by done.
      simpl. by rewrite Hq.
    + by rewrite flush_reject.
    + rewrite commitEdit_refused by done. unfold flush. by rewrite Hq.
  - simpl handle. rewrite flush_startEditing. simpl.
    apply offered_start in Hoff as [He _]; [by apply Hp|done].
  - unfold flush. simpl. by rewrite Hq.
Qed.

(** The commands that a closure of the screen sends carry texts that can
    be decoded. *)
Lemma handle_sent w m :
  wf w → showable w → offered w (EvMsg m) = true →
  ∃ acts, dispatched (execState (handle m) w) = dispatched w ++ acts
          ∧ Forall actOk acts.
Proof.
  intros Hwf [Hp Hb] Hoff. destruct m as [e|value| | |e|e].
  - exists [removeExpressionUI e]. split; [done|]. by constructor.
  - apply sent_nothing.
  - simpl handle. unfold execState. rewrite clearEdit_spec.
    apply sent_nothing.
  - simpl handle. destruct (canValidate w) eqn:Hg;
      [destruct (decide (validationResult w = "")) as [Hr|Hr]|].
    + unfold execState. rewrite commitEdit_committed by done.
      eexists. split; [done|]. destruct (original w); by repeat constructor.
    + destruct (commitEdit_stopped w) as [-> _]; [by right|].
      apply sent_nothing.
    + rewrite commitEdit_refused by done. apply sent_nothing.
  - simpl handle. unfold execState. rewrite startEditing_spec.
    apply sent_nothing.
  - exists [updateExpressionUI (toggled e)]. split; [done|].
    constructor; [|done].
    change (is_Some (decodeURIComponent (Types.expression e))). apply Hp.
    apply offered_click in Hoff as (x & Hx & Hin); [|done|done].
    unfold rowClicks in Hin.
    destruct (rowCanEdit _ _); set_unfold; naive_solver.
Qed.

(** A gesture that the screen offers, with a text that can be decoded if
    one is typed, does not make the table crash. *)
Lemma step_runs w ev :
  wf w → showable w → isGesture ev = true → offered w ev = true →
  typable ev = true →
  ∃ w', step ev (Running w) = Running w' ∧ showable w'
        ∧ props w' = props w
        ∧ ∃ acts, dispatched w' = dispatched w ++ acts ∧ Forall actOk acts.
Proof.
  intros Hwf Hsh Hg Hoff Hty. pose proof Hsh as [Hp Hb].
  destruct ev as [m|key|ms|p|el]; [| | |done|].
  - pose proof (fr_props _ _ (framed_handle m w)) as Ep.
    pose proof (handle_buffer w m Hwf Hsh Hoff Hty) as Hb'.
    destruct (runHandler_runs (handle m) w) as (w' & Hs & Es & Ep' & Ed);
      [apply (wf_pending w Hwf)|rewrite Ep; by apply showable_render|].
    exists w'. rewrite step_msg, Ep', Ed. unfold showable.
    rewrite Ep', Es, Ep. split_and!; [done|done|done|done|].
    by apply handle_sent.
  - exists w. simpl. rewrite keyMsgs_nil. split_and!; [done..|].
    apply sent_nothing.
  - rewrite elapse_spec by done.
    destruct (showable_render (props w) newEmptyState Hp) as [v ->];
      [done|].
    destruct (existsb _ _); eexists; (split; [done|]);
      (split_and!; [by split|done|apply sent_nothing]).
  - eexists. split; [done|]. unfold moveFocus.
    case_match; (split_and!; [by split|done|apply sent_nothing]).
Qed.

Lemma answer_decodable `{!StoreLaws} acts p :
  decodable p → Forall actOk acts → decodable (answer acts p).
Proof.
  unfold decodable. setoid_rewrite expressions_answer.
  generalize (expressionsOrEmpty p). intros es Hp Hacts. revert es Hp.
  induction Hacts as [|act acts Hact _ IH]; intros es Hp; simpl; [done|].
  apply IH. intros x. destruct act as [e|e].
  - intros [Hx _]%reduce_remove. by apply Hp.
  - intros [[-> _]|[Hx _]]%reduce_update; [done|by apply Hp].
Qed.

(** One turn of the closed loop under the same conditions. *)
Lemma closedStep_runs `{!StoreLaws} w ev :
  wf w → showable w → isGesture ev = true → offered w ev = true →
  typable ev = true →
  ∃ w', closedStep ev (Running w) = Running w' ∧ wf w' ∧ showable w'.
Proof.
  intros Hwf Hsh Hg Hoff Hty.
  destruct (step_runs w ev Hwf Hsh Hg Hoff Hty)
    as (w1 & Hs1 & [Hp1 Hb1] & Ep1 & acts & Ed & Hacts).
  pose proof (step_wf ev (Running w) Hwf) as Hwf1. rewrite Hs1 in Hwf1.
  unfold closedStep. rewrite Hs1, (sent_app _ _ _ Ed).
  destruct acts as [|act acts]; [by exists w1|].
  set (p' := answer (act :: acts) (props w1)).
  pose proof (answer_decodable _ (props w1) Hp1 Hacts) as Hp'.
  pose proof (step_wf (EvProps p') (Running w1) Hwf1) as Hwf2.
  pose proof (step_props_keeps w1 p') as Hkeep.
  rewrite (step_props w1 p' Hwf1 (showable_render _ _ Hp' Hb1))
    in Hwf2, Hkeep |- *.
  eexists. split; [done|]. split; [done|].
  destruct (Hkeep _ Hwf1 eq_refl) as (Es & Ep & _).
  unfold showable. by rewrite Es, Ep.
Qed.

(** C22: the closed loop does not crash.  If the texts of the first props
    can be decoded, then along every sequence of gestures, each offered by
    the screen when it happens, in which every text typed can be decoded,
    no rendering throws: the table is running at the end, in a world that
    satisfies the invariant and whose table and buffer can be decoded.  The
    texts that reach the store are the buffer of a save and the text of a
    record whose list type is toggled. *)
Theorem closed_loop_runs `{!StoreLaws} p d evs :
  decodable p → allowed evs (mount p d) = true →
  ∃ w, closedSteps evs (mount p d) = Running w ∧ wf w ∧ showable w.
Proof.
  intros Hp. assert (∃ w, mount p d = Running w ∧ wf w ∧ showable w)
    as (w & -> & Hwf & Hsh).
  { pose proof (mount_wf p d) as Hwf. unfold mount in *.
    destruct (proj1 (decodable_render p) Hp) as [v Hv]. rewrite Hv in *.
    eexists. by split_and!. }
  revert w Hwf Hsh. induction evs as [|ev evs IH]; intros w Hwf Hsh Hal.
  - by exists w.
  - rewrite allowed_cons, !andb_true_iff in Hal.
    destruct Hal as [[[Hg Hoff] Hty] Hrest].
    destruct (closedStep_runs w ev Hwf Hsh Hg Hoff Hty)
      as (w' & Hs & Hwf' & Hsh').
    change (closedSteps (ev :: evs) (Running w))
      with (closedSteps evs (closedStep ev (Running w))).
    rewrite Hs in *. by apply IH.
Qed.

(** ** The closed loop of the specification

    The controller of the specification ([Session.astep]) with the store
    around it, and the table with the store around it, agree turn by turn:
    the refinement of [Session] goes through the store. *)

(** One turn of the abstract machine and the store. *)
Definition aclosedStep (ev : Event) (a : Abs) : option Abs :=
  a' ← astep ev a;
  match drop (length (outbox a)) (outbox a') with
  | [] => Some a'
  | acts => astep (EvProps (answer acts (table a'))) a'
  end.

Definition aclosedSteps (evs : list Event) (s : option Abs) : option Abs :=
  foldl (λ r ev, r ≫= aclosedStep ev) s evs.

Lemma closedStep_refines w ev :
  wf w → offered w ev = true →
  absApp (closedStep ev (Running w)) = aclosedStep ev (abs w).
Proof.
  intros Hwf Hoff. unfold aclosedStep, closedStep, sent.
  rewrite <-(step_refines w ev) by done.
  pose proof (step_wf ev (Running w) Hwf) as Hwf1.
  destruct (step ev (Running w)) as [w1|w1]; [|done].
  change (absApp (Running w1) ≫= _) with
    (match drop (length (dispatched w)) (dispatched w1) with
     | [] => Some (abs w1)
     | acts => astep (EvProps (answer acts (props w1))) (abs w1)
     end).
  destruct (drop _ _); [done|]. by rewrite step_refines.
Qed.

Lemma closedStep_wf ev a : wfApp a → wfApp (closedStep ev a).
Proof.
  intros Hwf. destruct a as [w|w]; [|done].
  destruct (closedStep_cases ev w) as [->|(w' & acts & Hs & _ & ->)];
    [by apply (step_wf ev (Running w))|].
  apply (step_wf _ (Running w')). rewrite <-Hs.
  by apply (step_wf ev (Running w)).
Qed.

(** Along the gestures that the screen offers, the table with the store
    is the controller of the specification with the store. *)
Lemma closedSteps_refine evs a :
  wfApp a → allowed evs a = true →
  absApp (closedSteps evs a) = aclosedSteps evs (absApp a).
Proof.
  revert a. induction evs as [|ev evs IH]; intros a Hwf Hal; [done|].
  destruct a as [w|w]; [|done].
  rewrite allowed_cons, !andb_true_iff in Hal.
  destruct Hal as [[[_ Hoff] _] Hrest].
  change (closedSteps (ev :: evs) (Running w))
    with (closedSteps evs (closedStep ev (Running w))).
  rewrite IH; [|by apply (closedStep_wf ev (Running w))|done].
  by rewrite closedStep_refines.
Qed.

Lemma closedReachable_steps p d evs :
  forallb isGesture evs = true →
  closedReachable p d (closedSteps evs (mount p d)).
Proof.
  induction evs as [|ev evs IH] using rev_ind; [constructor|].
  rewrite forallb_app, andb_true_iff. simpl. rewrite andb_true_r.
  intros [Hevs Hev]. unfold closedSteps. rewrite foldl_app. simpl.
  constructor; [by apply IH|done].
Qed.
End closed.

(** * The closed loop on the sample table *)

#[local] Existing Instance sampleEnv.

(** The sample table after a save of ["example.org"] went through the
    store: the row of the first rule has a new key, and the input on screen
    is a fresh one. *)
Definition savedEchoed : World :=
  {| saved with
     props := echoed;
     mounted := Some {| rowKey := "example.org-WHITE";
                        element := freshInput |} |}.

(** A session with a refused and an accepted save, then a removal and a
    toggle. *)
Definition sampleRun : list Event :=
  [EvMsg (MsgEditStart rule1); EvMsg (MsgChange "bad url");
   EvMsg MsgEditSave; EvMsg (MsgChange "example.org"); EvMsg MsgEditSave;
   EvElapse 200; EvMsg (MsgRemove rule2);
   EvMsg (MsgToggle (withExpression "example.org" "firefox-container-1"
                       rule1))].

Lemma savedEchoed_reachable :
  closedReachable sampleProps sampleDocument (Running savedEchoed).
Proof.
  replace (Running savedEchoed) with
    (closedSteps [EvMsg (MsgEditStart rule1); EvMsg (MsgChange "example.org");
                  EvMsg MsgEditSave] (mount sampleProps sampleDocument))
    by (vm_compute; reflexivity).
  by apply closedReachable_steps.
Qed.

Lemma closed_exclusive_witness :
  NoDup (Types.id <$> expressionsOrEmpty (props savedEchoed))
  ∧ length (editableRows (state savedEchoed)
              (expressionsOrEmpty (props savedEchoed))) ≤ 1
  ∧ (is_Some (mounted savedEchoed) →
     ∃ e, editableRows (state savedEchoed)
            (expressionsOrEmpty (props savedEchoed)) = [e]
          ∧ rowKey <$> mounted savedEchoed = Some (keyOf e)
          ∧ original savedEchoed = Some e).
Proof.
  apply (closed_exclusive sampleProps sampleDocument savedEchoed);
    [apply sampleProps_NoDup|apply savedEchoed_reachable].
Defined.

Lemma closed_commit_witness :
  ∃ w',
    closedSteps [EvMsg MsgEditSave; EvElapse 200]
      (Running (editing "example.org")) = Running w'
    ∧ state w' = newEmptyState
    ∧ editInput w' = None ∧ mounted w' = None ∧ timers w' = []
    ∧ dispatched w'
      = [updateExpressionUI
           (withExpression "example.org" "firefox-container-1" rule1)]
    ∧ rowShown (state w')
        (withExpression "example.org" "firefox-container-1" rule1)
      = Some "example.org"
    ∧ (∀ x, x ∈ expressionsOrEmpty (props w')
            ↔ x = withExpression "example.org" "firefox-container-1" rule1
              ∨ (x ∈ [rule1; rule2] ∧ Types.id x ≠ Some "id1")).
Proof.
  apply (closed_commit (editing "example.org") rule1);
    [apply (reachable_wfApp _ typed_reachable)|done..].
Defined.

Lemma closed_remove_target_witness :
  ∃ w',
    closedStep (EvMsg (MsgRemove rule1)) (Running (editing "example.org"))
    = Running w'
    ∧ state w' = state (editing "example.org")
    ∧ (∀ x, x ∈ expressionsOrEmpty (props w')
            ↔ x ∈ [rule1; rule2] ∧ Types.id x ≠ Some "id1")
    ∧ editInput w' = None ∧ mounted w' = None
    ∧ dispatched w' = [removeExpressionUI rule1]
    ∧ timers w' = []
    ∧ offered w' (EvMsg MsgEditSave) = false
    ∧ offered w' (EvMsg MsgEditClear) = false
    ∧ closedStep (EvMsg MsgEditSave) (Running w') = Running w'.
Proof.
  apply (closed_remove_target (editing "example.org") rule1);
    [apply (reachable_wfApp _ typed_reachable)|by left|done].
Defined.

Lemma closed_loop_runs_witness :
  ∃ w, closedSteps sampleRun (mount sampleProps sampleDocument) = Running w
       ∧ wf w ∧ showable w.
Proof.
  apply (closed_loop_runs sampleProps sampleDocument sampleRun);
    [apply decodable_render; by eexists|by vm_compute].
Defined.
