(* ===== verification/AsyncStore.v ===== *)
(** * The store at a distance

    In [ClosedLoop] the answer of the store is on screen before the next
    gesture.  The specification promises less (section 5): commands are
    fire-and-forget, the store applies them in the order in which they were
    sent, and its changes propagate back to the table in their own time;
    the teardown is delayed by 200 ms for that reason.  This file has the
    table and the store with that distance between them.

    - [Net] is the table ([page]), the list in the store ([records]), the
      number of commands of the log that the store has applied ([reduced])
      and the lists that it has sent back and that the table has not yet
      rendered ([news]).  A [Move] is a gesture on the table, the store
      applying its next command, or the table rendering the next list.
      [nstep] is the transition function; a move that cannot happen, or a
      rendering that throws, ends the run ([None]).
    - Whatever the order of the moves ([netOk], [net_invariant]): the
      store holds the list after the commands it has applied, in the order
      of the log; the table shows the list after a prefix of those; the
      lists on their way are the ones in between, in order.  Nothing is
      lost, skipped or reordered.
    - Hence the ids of the table stay unique under any delay
      ([net_exclusive]), and no id comes back once the store has removed
      it ([removed_for_good]): a save that reaches the store after the
      removal of its record changes nothing ([late_update_ignored],
      [late_save_dropped]).
    - When the store and the table are left to catch up ([catchUp]) they
      do, whatever was in flight: the table ends with the list of the
      store, which is the list after the whole log, and its session is
      untouched ([catch_up]).
    - A move that can be made never makes a rendering throw, as long as
      the texts that are typed can be decoded ([net_runs]).
    - The loop of [ClosedLoop] is the schedule in which each command is
      applied and its answer rendered at once ([closedStep_eager]).

    The store is the interface of [Store]; the transport is two queues
    that keep their order, which is what the specification assumes of
    it. *)

From stdpp Require Import sets.
From S2P Require Import Prelude JsString Uri Dom Types Vdom.
From S2P Require Import TextInputEditable Component ExpressionTable Render.
From S2P Require Import Runtime Gestures Session Lifecycle EventLoop.
From S2P Require Import Store ClosedLoop.

(** ** The table, the store, and what is in flight *)

Record Net := mkNet {
  page : World;                    (* the table *)
  records : list Expression;       (* the list in the store *)
  reduced : nat;                   (* the commands the store has applied *)
  news : list (list Expression);   (* lists sent back, not yet rendered *)
}.

Variant Move :=
  | MGesture (ev : Event)   (* the user or the clock acts on the table *)
  | MReduce                 (* the store applies the next command *)
  | MDeliver.               (* the table renders the next list *)

(** The props with another list of records. *)
Definition shows (es : list Expression) (p : Component.OwnProps)
    : Component.OwnProps :=
  {| expressions := Some es;
     expressionColumnTitle := expressionColumnTitle p;
     Component.storeId := Component.storeId p;
     emptyElement := emptyElement p |}.

Section net.
Context `{Env} `{Store}.
Implicit Types (w : World) (n : Net) (m : Move) (ev : Event).
Implicit Types (es : list Expression) (log : list ReduxAction).

(** The list of the store after the first [j] commands of the log. *)
Definition after es log (j : nat) : list Expression :=
  foldl reduce es (take j log).

Definition nstep m n : option Net :=
  match m with
  | MGesture ev =>
      if isGesture ev then
        w' ← running (step ev (Running (page n)));
        Some {| n with page := w' |}
      else None
  | MReduce =>
      act ← dispatched (page n) !! reduced n;
      let es := reduce (records n) act in
      Some {| n with
              records := es; reduced := S (reduced n);
              news := news n ++ [es] |}
  | MDeliver =>
      match news n with
      | [] => None
      | es :: rest =>
          w' ← running (step (EvProps (shows es (props (page n))))
                          (Running (page n)));
          Some {| n with page := w'; news := rest |}
      end
  end.

Definition nsteps (ms : list Move) (r : option Net) : option Net :=
  foldl (λ r m, r ≫= nstep m) r ms.

(** The table is mounted on the list of the store. *)
Definition ninit (p : Component.OwnProps) (d : Document) : option Net :=
  w ← running (mount p d);
  Some {| page := w; records := expressionsOrEmpty p; reduced := 0;
          news := [] |}.

(** The table is up to date: the store has applied every command and the
    table has rendered every list. *)
Definition inSync n : Prop :=
  reduced n = length (dispatched (page n)) ∧ news n = [].

(** The moves that bring the table up to date. *)
Definition catchUp n : list Move :=
  let k := length (dispatched (page n)) - reduced n in
  replicate k MReduce ++ replicate (length (news n) + k) MDeliver.

(** ** What holds under any schedule *)

Record netOk es n : Prop := mkNetOk {
  ok_wf : wf (page n);
  ok_reduced : reduced n ≤ length (dispatched (page n));
  ok_news : length (news n) ≤ reduced n;
  ok_records : records n = after es (dispatched (page n)) (reduced n);
  ok_props :
    expressionsOrEmpty (props (page n))
    = after es (dispatched (page n)) (reduced n - length (news n));
  ok_queue :
    news n
    = after es (dispatched (page n))
        <$> seq (S (reduced n - length (news n))) (length (news n));
}.

Lemma after_app es log acts j :
  j ≤ length log → after es (log ++ acts) j = after es log j.
Proof. intros Hj. unfold after. by rewrite take_app_le. Qed.

Lemma after_S es log j act :
  log !! j = Some act → after es log (S j) = reduce (after es log j) act.
Proof.
  intros Hj. unfold after. by rewrite (take_S_r _ _ _ Hj), foldl_app.
Qed.

Lemma after_all es log j :
  length log ≤ j → after es log j = foldl reduce es log.
Proof. intros Hj. unfold after. by rewrite take_ge. Qed.

Lemma nsteps_cons m ms r : nsteps (m :: ms) r = nsteps ms (r ≫= nstep m).
Proof. done. Qed.

Lemma nsteps_step m ms n :
  nsteps (m :: ms) (Some n) = nsteps ms (nstep m n).
Proof. done. Qed.

Lemma nsteps_app ms1 ms2 r : nsteps (ms1 ++ ms2) r = nsteps ms2 (nsteps ms1 r).
Proof. apply foldl_app. Qed.

Lemma nsteps_None ms : nsteps ms None = None.
Proof. by induction ms. Qed.

(** The equations of [nstep]. *)
Lemma nstep_gesture n ev w' :
  isGesture ev = true → step ev (Running (page n)) = Running w' →
  nstep (MGesture ev) n = Some {| n with page := w' |}.
Proof. intros Hg Hs. unfold nstep. by rewrite Hg, Hs. Qed.

Lemma nstep_reduce n act :
  dispatched (page n) !! reduced n = Some act →
  nstep MReduce n
  = Some {| n with
            records := reduce (records n) act; reduced := S (reduced n);
            news := news n ++ [reduce (records n) act] |}.
Proof. intros Hact. unfold nstep. by rewrite Hact. Qed.

Lemma nstep_deliver n x rest w' :
  news n = x :: rest →
  step (EvProps (shows x (props (page n)))) (Running (page n)) = Running w' →
  nstep MDeliver n = Some {| n with page := w'; news := rest |}.
Proof. intros Hn Hs. unfold nstep. by rewrite Hn, Hs. Qed.

(** *** Each move keeps it *)

Lemma ninit_ok p d n : ninit p d = Some n → netOk (expressionsOrEmpty p) n.
Proof.
  unfold ninit. pose proof (mount_wf p d) as Hwf.
  destruct (mount p d) as [w|w] eqn:Hm; [|done]. intros [= <-].
  unfold mount in Hm. destruct (render _ _); [|done].
  injection Hm as <-. split; simpl; [done|lia|lia|done..].
Qed.

Lemma gesture_ok es n ev n' :
  netOk es n → nstep (MGesture ev) n = Some n' → netOk es n'.
Proof.
  intros [Hwf Hr Hn Hrec Hp Hq]. unfold nstep.
  destruct (isGesture ev) eqn:Hg; [|done].
  destruct (step ev (Running (page n))) as [w'|w'] eqn:Hs; [|done].
  intros [= <-]. simpl.
  destruct (step_dispatched _ _ _ Hwf Hs) as (acts & Hd & _).
  pose proof (step_wf ev (Running (page n)) Hwf) as Hwf'. rewrite Hs in Hwf'.
  split; simpl; rewrite ?Hd, ?length_app.
  - done.
  - lia.
  - done.
  - by rewrite after_app.
  - rewrite (step_gesture_props _ _ _ Hwf Hg Hs), after_app by lia. done.
  - rewrite Hq at 1. apply list_fmap_ext. intros i j Hj.
    apply lookup_seq in Hj as [-> ?]. rewrite after_app by lia. done.
Qed.

Lemma reduce_ok es n n' :
  netOk es n → nstep MReduce n = Some n' → netOk es n'.
Proof.
  intros [Hwf Hr Hn Hrec Hp Hq]. unfold nstep.
  destruct (dispatched (page n) !! reduced n) as [act|] eqn:Hact; [|done].
  intros [= <-]. apply lookup_lt_Some in Hact as Hlt.
  pose proof (after_S es _ _ _ Hact) as HS. rewrite <-Hrec in HS.
  assert (S (reduced n) - length (news n ++ [reduce (records n) act])
          = reduced n - length (news n)) as Hk
    by (rewrite length_app; simpl; lia).
  split; simpl; rewrite ?Hk; [done|lia| |done|done|].
  - rewrite length_app. simpl. lia.
  - rewrite length_app, seq_app, fmap_app. simpl. rewrite <-Hq.
    do 2 f_equal. rewrite <-HS. f_equal. lia.
Qed.

Lemma deliver_ok es n n' :
  netOk es n → nstep MDeliver n = Some n' → netOk es n'.
Proof.
  intros [Hwf Hr Hn Hrec Hp Hq]. unfold nstep.
  destruct (news n) as [|x rest] eqn:Hnews; [done|].
  destruct (step _ _) as [w'|w'] eqn:Hs; [|done]. intros [= <-].
  simpl in Hn, Hp, Hq.
  pose proof (step_wf (EvProps (shows x (props (page n))))
                (Running (page n)) Hwf) as Hwf'.
  rewrite Hs in Hwf'.
  destruct (step_props_keeps _ _ _ Hwf Hs) as (_ & Ep & Ed & _).
  injection Hq as Hx Hrest.
  assert (reduced n - length rest = S (reduced n - S (length rest))) as Hk
    by lia.
  split; simpl; rewrite ?Ed, ?Ep, ?Hk; [done|done|lia|done|done|done].
Qed.

Lemma nstep_ok es m n n' : netOk es n → nstep m n = Some n' → netOk es n'.
Proof.
  destruct m; eauto using gesture_ok, reduce_ok, deliver_ok.
Qed.

(** The invariant holds after any moves. *)
Theorem nsteps_ok es ms n n' :
  netOk es n → nsteps ms (Some n) = Some n' → netOk es n'.
Proof.
  revert n. induction ms as [|m ms IH]; intros n Hok; [by intros [= <-]|].
  rewrite nsteps_cons. simpl. destruct (nstep m n) as [n1|] eqn:Hs;
    [|by rewrite nsteps_None].
  apply IH. by eapply nstep_ok.
Qed.

(** The store and the table never lose track of each other.  After any
    moves from the mounting of the table, in any order: the store holds
    the first list with the commands it has applied, which are the first
    of the log, in the order in which the table sent them; the table
    shows the list that the store held at an earlier moment, or holds
    now; and the lists on their way to the table are those that the
    store has held since, in order. *)
Theorem net_invariant p d ms n :
  nsteps ms (ninit p d) = Some n → netOk (expressionsOrEmpty p) n.
Proof.
  destruct (ninit p d) as [n0|] eqn:Hi; [|by rewrite nsteps_None].
  intros Hn. by eapply nsteps_ok, Hn; eapply ninit_ok.
Qed.

(** ** The ids *)

Section laws.
Context `{!StoreLaws}.

(** The store never adds an id: the ids of its list after more commands
    are among its ids after fewer. *)
Lemma reduce_ids es act i :
  i ∈ Types.id <$> reduce es act → i ∈ Types.id <$> es.
Proof.
  intros (x & -> & Hx)%list_elem_of_fmap. destruct act as [e|e].
  - apply reduce_remove in Hx as [Hx _]. by apply list_elem_of_fmap_2.
  - apply reduce_update in Hx as [[-> Hx]|[Hx _]];
      [done|by apply list_elem_of_fmap_2].
Qed.

Lemma foldl_reduce_ids es acts i :
  i ∈ Types.id <$> foldl reduce es acts → i ∈ Types.id <$> es.
Proof.
  revert es. induction acts as [|act acts IH]; intros es; [done|].
  simpl. intros Hi%IH. by eapply reduce_ids.
Qed.

Lemma after_ids es log j k i :
  j ≤ k → i ∈ Types.id <$> after es log k → i ∈ Types.id <$> after es log j.
Proof.
  intros Hjk. unfold after.
  replace (take k log) with (take j log ++ drop j (take k log)).
  - rewrite foldl_app. apply foldl_reduce_ids.
  - rewrite <-(take_drop j (take k log)) at 2. f_equal.
    rewrite take_take. f_equal. lia.
Qed.

Lemma after_NoDup es log j :
  NoDup (Types.id <$> es) → NoDup (Types.id <$> after es log j).
Proof.
  unfold after. generalize (take j log). intros acts. revert es.
  induction acts as [|act acts IH]; intros es Hnd; [done|].
  by apply IH, reduce_NoDup.
Qed.

(** A record that the store has removed does not come back, whatever the
    commands that follow. *)
Theorem removed_for_good es log j k e :
  log !! j = Some (removeExpressionUI e) → j < k →
  Types.id e ∉ Types.id <$> after es log k.
Proof.
  intros Hj Hjk Hin. apply (after_ids _ _ (S j)) in Hin; [|lia].
  rewrite (after_S _ _ _ _ Hj) in Hin.
  apply list_elem_of_fmap in Hin as (x & Hid & [_ Hx]%reduce_remove).
  by apply Hx.
Qed.

(** An update for a record that is not in the list changes nothing: a
    save that reaches the store after the removal of its record is
    dropped. *)
Theorem late_update_ignored es e :
  NoDup (Types.id <$> es) → Types.id e ∉ Types.id <$> es →
  reduce es (updateExpressionUI e) ≡ₚ es.
Proof.
  intros Hnd Hid. apply NoDup_Permutation.
  - by eapply NoDup_fmap_1, reduce_NoDup.
  - by eapply NoDup_fmap_1.
  - intros x. rewrite reduce_update. split; [naive_solver|].
    intros Hx. right. split; [done|]. intros Heq. apply Hid.
    rewrite <-Heq. by apply list_elem_of_fmap_2.
Qed.

Lemma netOk_idsOk es n :
  NoDup (Types.id <$> es) → netOk es n → idsOk (props (page n)).
Proof.
  intros Hnd Hok. unfold idsOk. rewrite (ok_props _ _ Hok).
  by apply after_NoDup.
Qed.

(** C34: one record at most is under edit, however late the answers of
    the store.  The table is mounted on a list with unique ids; then, after
    any moves of the user, the clock, the store and the deliveries, in
    any order: the ids of the table are unique; one row at most is
    rendered editable; and when an input is on screen, it is the input
    of that row, mounted under its key, and the record of the row is the
    one that [commitEdit] would look up. *)
Theorem net_exclusive p d ms n :
  NoDup (Types.id <$> expressionsOrEmpty p) →
  nsteps ms (ninit p d) = Some n →
  let w := page n in
  NoDup (Types.id <$> expressionsOrEmpty (props w))
  ∧ length (editableRows (state w) (expressionsOrEmpty (props w))) ≤ 1
  ∧ (is_Some (mounted w) →
     ∃ e, editableRows (state w) (expressionsOrEmpty (props w)) = [e]
          ∧ rowKey <$> mounted w = Some (keyOf e)
          ∧ original w = Some e).
Proof.
  intros Hnd Hn. pose proof (net_invariant _ _ _ _ Hn) as Hok.
  pose proof (netOk_idsOk _ _ Hnd Hok) as Hids.
  split; [done|]. apply wf_exclusive; [apply (ok_wf _ _ Hok)|done].
Qed.

(** ** Catching up *)

(** The texts of the first list, of the commands sent and of the buffer
    can be decoded: no rendering of a list of the store throws. *)
Definition netShowable es n : Prop :=
  (∀ x, x ∈ es → is_Some (decodeURIComponent (Types.expression x)))
  ∧ Forall actOk (dispatched (page n))
  ∧ is_Some (decodeURIComponent (expressionInput (state (page n)))).

Lemma shows_after_decodable es log j p :
  (∀ x, x ∈ es → is_Some (decodeURIComponent (Types.expression x))) →
  Forall actOk log → decodable (shows (after es log j) p).
Proof.
  intros Hes Hlog.
  change (shows (after es log j) p) with (answer (take j log) (shows es p)).
  apply answer_decodable; [done|by apply Forall_take].
Qed.

(** The store applies the next command, if there is one. *)
Lemma reduce_runs es n :
  reduced n < length (dispatched (page n)) →
  ∃ n', nstep MReduce n = Some n' ∧ page n' = page n
        ∧ reduced n' = S (reduced n)
        ∧ length (news n') = S (length (news n)).
Proof.
  intros [act Hact]%lookup_lt_is_Some_2. unfold nstep. rewrite Hact.
  eexists. split; [done|]. simpl. rewrite length_app. simpl.
  split_and!; [done|done|lia].
Qed.

Lemma reduces_run es n k :
  netOk es n → k ≤ length (dispatched (page n)) - reduced n →
  ∃ n', nsteps (replicate k MReduce) (Some n) = Some n' ∧ page n' = page n
        ∧ reduced n' = reduced n + k
        ∧ length (news n') = length (news n) + k.
Proof.
  revert n. induction k as [|k IH]; intros n Hok Hk.
  - exists n. split_and!; [done|done|lia|lia].
  - destruct (reduce_runs es n) as (n1 & Hs & Ep & Er & En); [lia|].
    destruct (IH n1) as (n' & Hss & Ep' & Er' & En');
      [by eapply reduce_ok|rewrite Ep, Er; lia|].
    exists n'. simpl replicate. rewrite nsteps_step, Hs.
    split_and!; [done|congruence|lia|lia].
Qed.

(** The table renders the next list, if there is one. *)
Lemma deliver_runs es n :
  netOk es n → netShowable es n → news n ≠ [] →
  ∃ n', nstep MDeliver n = Some n' ∧ netShowable es n'
        ∧ reduced n' = reduced n
        ∧ S (length (news n')) = length (news n)
        ∧ state (page n') = state (page n)
        ∧ dispatched (page n') = dispatched (page n).
Proof.
  intros Hok (Hes & Hlog & Hb) Hne. pose proof (ok_queue _ _ Hok) as Hq.
  pose proof (ok_wf _ _ Hok) as Hwf.
  unfold nstep. destruct (news n) as [|x rest]; [done|].
  simpl in Hq. injection Hq as -> _.
  set (p := shows _ _).
  assert (is_Some (render p (state (page n)))) as Hr
    by (by apply showable_render; [apply shows_after_decodable|]).
  pose proof (step_props_keeps (page n) p) as Hkeep.
  rewrite (step_props _ p Hwf Hr) in Hkeep |- *.
  destruct (Hkeep _ Hwf eq_refl) as (Es & _ & Ed & _).
  eexists. split; [done|]. simpl. unfold netShowable. simpl.
  by rewrite Es, Ed.
Qed.

Lemma delivers_run es n k :
  netOk es n → netShowable es n → k ≤ length (news n) →
  ∃ n', nsteps (replicate k MDeliver) (Some n) = Some n'
        ∧ reduced n' = reduced n
        ∧ length (news n') = length (news n) - k
        ∧ state (page n') = state (page n)
        ∧ dispatched (page n') = dispatched (page n).
Proof.
  revert n. induction k as [|k IH]; intros n Hok Hsh Hk.
  - exists n. split_and!; [done|done|lia|done|done].
  - destruct (deliver_runs es n) as (n1 & Hs & Hsh1 & Er & En & Es & Ed);
      [done|done|by destruct (news n); [simpl in Hk; lia|]|].
    destruct (IH n1) as (n' & Hss & Er' & En' & Es' & Ed');
      [by eapply deliver_ok|done|lia|].
    exists n'. simpl replicate. rewrite nsteps_step, Hs.
    split_and!; [done|congruence|lia|congruence|congruence].
Qed.

(** Left to themselves, the store and the table catch up.  From a state
    that moves have led to, in which every text can be decoded: the store
    applies the commands that are left and the table renders the lists
    in flight and the new ones, none of these renderings throws, and at
    the end the store has applied the whole log in its order, the table
    shows the list of the store, and its session is the one it was in. *)
Theorem catch_up es n :
  netOk es n → netShowable es n →
  ∃ n', nsteps (catchUp n) (Some n) = Some n'
        ∧ inSync n'
        ∧ records n' = foldl reduce es (dispatched (page n))
        ∧ expressionsOrEmpty (props (page n')) = records n'
        ∧ state (page n') = state (page n)
        ∧ dispatched (page n') = dispatched (page n).
Proof.
  intros Hok Hsh. unfold catchUp.
  set (k := length (dispatched (page n)) - reduced n).
  pose proof (ok_reduced _ _ Hok) as Hr.
  destruct (reduces_run es n k Hok) as (n1 & Hs1 & Ep1 & Er1 & En1); [done|].
  pose proof (nsteps_ok _ _ _ _ Hok Hs1) as Hok1.
  destruct (delivers_run es n1 (length (news n) + k) Hok1)
    as (n2 & Hs2 & Er2 & En2 & Es2 & Ed2);
    [unfold netShowable; by rewrite Ep1|lia|].
  pose proof (nsteps_ok _ _ _ _ Hok1 Hs2) as Hok2.
  exists n2. rewrite nsteps_app, Hs1, Hs2.
  assert (reduced n2 = length (dispatched (page n2))) as Hall
    by (rewrite Ed2, Ep1; lia).
  assert (news n2 = []) as Hnil by (apply nil_length_inv; lia).
  split_and!; [done|by split| | |by rewrite Es2, Ep1|by rewrite Ed2, Ep1].
  - rewrite (ok_records _ _ Hok2), Hall, after_all, Ed2, Ep1; done.
  - rewrite (ok_props _ _ Hok2), (ok_records _ _ Hok2), Hnil. simpl.
    by rewrite Nat.sub_0_r.
Qed.

(** ** No move makes the table crash *)

(** The moves that can be made: a gesture that the screen offers, with a
    text that can be decoded if one is typed; a command for the store to
    apply; a list for the table to render. *)
Definition canMove m n : bool :=
  match m with
  | MGesture ev => isGesture ev && offered (page n) ev && typable ev
  | MReduce => bool_decide (reduced n < length (dispatched (page n)))
  | MDeliver => bool_decide (news n ≠ [])
  end.

Lemma net_showable es n : netOk es n → netShowable es n → showable (page n).
Proof.
  intros Hok (Hes & Hlog & Hb). split; [|done]. intros x.
  rewrite (ok_props _ _ Hok). apply (shows_after_decodable _ _ _ (props (page n)));
    done.
Qed.

Lemma gesture_runs es n ev :
  netOk es n → netShowable es n → canMove (MGesture ev) n = true →
  ∃ n', nstep (MGesture ev) n = Some n' ∧ netShowable es n'.
Proof.
  intros Hok Hsh [[Hg Hoff]%andb_true_iff Hty]%andb_true_iff.
  destruct (step_runs (page n) ev) as (w' & Hs & [_ Hb'] & _ & acts & Hd & Ha);
    [apply (ok_wf _ _ Hok)|by eapply net_showable|done..|].
  rewrite (nstep_gesture _ _ _ Hg Hs). eexists. split; [done|].
  destruct Hsh as (Hes & Hlog & _). split_and!; [done| |done].
  simpl. rewrite Hd. by apply Forall_app.
Qed.

(** A move that can be made is made: no rendering throws, under any
    schedule, as long as the texts that are typed can be decoded. *)
Theorem net_runs es n m :
  netOk es n → netShowable es n → canMove m n = true →
  ∃ n', nstep m n = Some n' ∧ netOk es n' ∧ netShowable es n'.
Proof.
  intros Hok Hsh Hm.
  assert (∃ n', nstep m n = Some n' ∧ netShowable es n') as (n' & Hs & Hsh').
  { destruct m as [ev| |]; simpl in Hm.
    - by apply gesture_runs.
    - apply bool_decide_eq_true in Hm.
      destruct (reduce_runs es n Hm) as (n' & Hs & Ep & _).
      exists n'. split; [done|]. unfold netShowable. by rewrite Ep.
    - apply bool_decide_eq_true in Hm.
      destruct (deliver_runs es n Hok Hsh Hm) as (n' & Hs & Hsh' & _).
      by exists n'. }
  exists n'. split_and!; [done| |done]. by eapply nstep_ok.
Qed.
End laws.

(** ** The closed loop is the eager schedule *)

(** From a table that is up to date, one turn of the closed loop is the
    gesture followed by the moves that bring the table up to date
    again. *)
Theorem closedStep_eager es n ev w' :
  netOk es n → inSync n → isGesture ev = true →
  closedStep ev (Running (page n)) = Running w' →
  ∃ n1 n', nstep (MGesture ev) n = Some n1
           ∧ nsteps (catchUp n1) (Some n1) = Some n'
           ∧ page n' = w' ∧ inSync n'.
Proof.
  intros Hok [Hall Hnil] Hg Hc. pose proof (ok_wf _ _ Hok) as Hwf.
  unfold closedStep in Hc. unfold nstep at 1. rewrite Hg.
  destruct (step ev (Running (page n))) as [w1|w1] eqn:Hs; [|done].
  destruct (step_dispatched _ _ _ Hwf Hs) as (acts & Hd & Hl).
  rewrite (sent_app _ _ _ Hd) in Hc.
  set (n1 := {| n with page := w1 |}). exists n1.
  assert (catchUp n1
          = replicate (length acts) MReduce ++ replicate (length acts) MDeliver)
    as ->.
  { unfold catchUp, n1. simpl. rewrite Hd, length_app, Hall, Hnil. simpl.
    by replace (length (dispatched (page n)) + length acts
                - length (dispatched (page n))) with (length acts) by lia. }
  assert (records n = expressionsOrEmpty (props w1)) as Hrec.
  { rewrite (step_gesture_props _ _ _ Hwf Hg Hs), (ok_props _ _ Hok).
    rewrite (ok_records _ _ Hok), Hnil. simpl. by rewrite Nat.sub_0_r. }
  destruct acts as [|act [|??]]; [| |simpl in Hl; lia].
  - injection Hc as <-. exists n1. split_and!; [done|done|done|].
    split; simpl; [by rewrite Hd, app_nil_r|done].
  - pose proof (step_wf ev (Running (page n)) Hwf) as Hwf1.
    rewrite Hs in Hwf1.
    destruct (step_props_keeps _ _ _ Hwf1 Hc) as (_ & _ & Ed & _).
    exists {| page := w'; records := reduce (records n) act;
              reduced := S (reduced n); news := [] |}.
    split_and!; [done| |done|].
    + simpl replicate. simpl app.
      rewrite nsteps_step, (nstep_reduce n1 act), nsteps_step.
      * rewrite (nstep_deliver _ (reduce (records n) act) [] w');
          subst n1; simpl; [done|by rewrite Hnil|].
        rewrite Hrec. exact Hc.
      * subst n1. simpl. rewrite Hd, Hall, lookup_app_r by done.
        by rewrite Nat.sub_diag.
    + split; simpl; [|done]. rewrite Ed, Hd, length_app, Hall. simpl. lia.
Qed.
End net.

(** * A slow store on the sample table *)

#[local] Existing Instance sampleEnv.

(** A save of ["example.org"] on the first row. *)
Definition saveMoves : list Move :=
  [MGesture (EvMsg (MsgEditStart rule1));
   MGesture (EvMsg (MsgChange "example.org"));
   MGesture (EvMsg MsgEditSave)].

(** The list on screen and the list in the store. *)
Definition lists (r : option Net)
    : option (list Expression * list Expression) :=
  (λ n, (expressionsOrEmpty (props (page n)), records n)) <$> r.

(** The store has applied the update of the save; its answer is on its
    way. *)
Definition inFlight : Net :=
  {| page := saved;
     records := [withExpression "example.org" "firefox-container-1" rule1;
                 rule2];
     reduced := 1;
     news := [[withExpression "example.org" "firefox-container-1" rule1;
               rule2]] |}.

Lemma inFlight_run :
  nsteps (saveMoves ++ [MReduce]) (ninit sampleProps sampleDocument)
  = Some inFlight.
Proof. by vm_compute. Qed.

(** The store answers after the teardown: for a while the table is idle
    and shows the old text; then it shows the new one. *)
Example slow_answer :
  lists (nsteps (saveMoves ++ [MGesture (EvElapse 200); MReduce])
           (ninit sampleProps sampleDocument))
  = Some ([rule1; rule2], expressionsOrEmpty echoed)
  ∧ lists (nsteps (saveMoves ++ [MGesture (EvElapse 200); MReduce; MDeliver])
             (ninit sampleProps sampleDocument))
    = Some (expressionsOrEmpty echoed, expressionsOrEmpty echoed).
Proof. by vm_compute. Qed.

(** The user removes the first record and, before the table has heard of
    it, edits and saves the same record: the update reaches the store
    after the removal and is dropped. *)
Example late_save_dropped :
  lists (nsteps ([MGesture (EvMsg (MsgRemove rule1))] ++ saveMoves
                 ++ [MReduce; MReduce; MDeliver; MDeliver;
                     MGesture (EvElapse 200)])
           (ninit sampleProps sampleDocument))
  = Some ([rule2], [rule2]).
Proof. by vm_compute. Qed.

Lemma net_exclusive_witness :
  let w := page inFlight in
  NoDup (Types.id <$> expressionsOrEmpty (props w))
  ∧ length (editableRows (state w) (expressionsOrEmpty (props w))) ≤ 1
  ∧ (is_Some (mounted w) →
     ∃ e, editableRows (state w) (expressionsOrEmpty (props w)) = [e]
          ∧ rowKey <$> mounted w = Some (keyOf e)
          ∧ original w = Some e).
Proof.
  apply (net_exclusive sampleProps sampleDocument (saveMoves ++ [MReduce]));
    [apply sampleProps_NoDup|apply inFlight_run].
Defined.
