(* ===== verification/Order.v ===== *)
(** * The order of the records

    The laws of [Store] say which records the store answers with, not in
    which order.  This file shows that the order does not matter:

    - two tables with the same records in any order ([sameRecords], an
      equivalence) have unique ids, can be decoded and can be rendered
      together ([Proper] instances);
    - two stores that satisfy the laws give the table the same records
      ([answer_determined]);
    - the controller of the specification cannot tell two such stores
      apart: with unique ids at the start, along any gestures, the closed
      loops over the two stores go through the same sessions, send the same
      commands and schedule the same teardowns, on tables of the same
      records, and one has no next state exactly when the other has none
      ([stores_agree]).  By the refinement of [ClosedLoop] the same holds of
      what the table does. *)

From S2P Require Import Prelude JsString Uri Dom Types Vdom.
From S2P Require Import TextInputEditable Component ExpressionTable Render.
From S2P Require Import Runtime Gestures Session Lifecycle Store ClosedLoop.

(** ** Tables up to the order of their records *)

(** Two tables with the same records, in any order. *)
Definition sameRecords (p q : Component.OwnProps) : Prop :=
  expressionsOrEmpty p ≡ₚ expressionsOrEmpty q
  ∧ expressionColumnTitle p = expressionColumnTitle q
  ∧ Component.storeId p = Component.storeId q
  ∧ emptyElement p = emptyElement q.

#[export] Instance OwnProps_equiv : Equiv Component.OwnProps := sameRecords.

#[export] Instance sameRecords_equiv : Equivalence sameRecords.
Proof.
  unfold sameRecords. split.
  - by intros p.
  - intros p q (? & ? & ? & ?). by split_and!.
  - intros p q r (? & ? & ? & ?) (? & ? & ? & ?).
    split_and!; by etrans.
Qed.

#[export] Instance expressionsOrEmpty_proper :
  Proper ((≡) ==> (≡ₚ)) expressionsOrEmpty.
Proof. by intros p q [? _]. Qed.

#[export] Instance idsOk_proper : Proper ((≡) ==> iff) idsOk.
Proof. intros p q Hpq. unfold idsOk. by rewrite Hpq. Qed.

#[export] Instance decodable_proper : Proper ((≡) ==> iff) decodable.
Proof.
  intros p q Hpq%expressionsOrEmpty_proper. unfold decodable.
  by setoid_rewrite Hpq.
Qed.

(** Whether [render] throws does not depend on the order of the rows. *)
Lemma render_sameRecords `{Env} p q s :
  p ≡ q → is_Some (render p s) ↔ is_Some (render q s).
Proof.
  intros Hpq%expressionsOrEmpty_proper. rewrite !render_Some_iff.
  by setoid_rewrite Hpq.
Qed.

(** Two stores that satisfy the laws give the table the same records. *)
Lemma answer_determined (S1 S2 : Store) :
  @StoreLaws S1 → @StoreLaws S2 →
  ∀ acts p q,
    idsOk p → p ≡ q → @answer S1 acts p ≡ @answer S2 acts q.
Proof.
  intros L1 L2 acts p q Hnd (Hp & ? & ? & ?). split; [|done].
  rewrite !expressions_answer. unfold idsOk in Hnd.
  revert Hnd Hp. generalize (expressionsOrEmpty p) (expressionsOrEmpty q).
  induction acts as [|act acts IH]; intros es es' Hnd Hp; simpl; [done|].
  apply IH; [by apply reduce_NoDup|by apply reduce_determined].
Qed.

(** ** Lists up to the order of their elements *)

Lemma forallb_Permutation {A} (f : A → bool) (l l' : list A) :
  l ≡ₚ l' → forallb f l = forallb f l'.
Proof.
  induction 1 as [|x l l' _ IH|x y l|l l' l'' _ IH1 _ IH2]; simpl;
    [done|by rewrite IH|by destruct (f x), (f y)|by etrans].
Qed.

(** With unique keys, the element that [find] returns for a key does not
    depend on the order of the list. *)
Lemma find_Permutation {A K} `{EqDecision K} (key : A → K) (k : K)
    (l l' : list A) :
  NoDup (key <$> l) → l ≡ₚ l' →
  find (λ y, bool_decide (key y = k)) l
  = find (λ y, bool_decide (key y = k)) l'.
Proof.
  intros Hnd Hp. assert (NoDup (key <$> l')) as Hnd' by by rewrite <-Hp.
  destruct (find _ l) as [x|] eqn:Hx.
  - apply find_Some_elem in Hx as [Hin <-%bool_decide_eq_true].
    symmetry. apply find_unique_key; [done|by rewrite <-Hp].
  - symmetry. apply find_None_iff. intros y Hy.
    rewrite find_None_iff in Hx. apply Hx. by rewrite Hp.
Qed.

(** ** The controller up to the order of the records *)

(** Two states of the controller that differ in the order of the records
    only. *)
Definition sameUpToOrder (a b : Abs) : Prop :=
  session a = session b ∧ table a ≡ table b ∧ outbox a = outbox b
  ∧ alarms a = alarms b ∧ now a = now b.

#[export] Instance Abs_equiv : Equiv Abs := sameUpToOrder.

#[export] Instance sameUpToOrder_equiv : Equivalence sameUpToOrder.
Proof.
  unfold sameUpToOrder. split.
  - by intros a.
  - intros a b (? & ? & ? & ? & ?). by split_and!.
  - intros a b c (? & ? & ? & ? & ?) (? & ? & ? & ? & ?).
    split_and!; by etrans.
Qed.

Section order.
Context `{Env}.
Implicit Types (a b : Abs) (ev : Event).

Lemma target_order a b : idsOk (table a) → a ≡ b → target a = target b.
Proof.
  intros Hnd (Hs & Ht & _). unfold target. rewrite <-Hs.
  by apply (find_Permutation Types.id), expressionsOrEmpty_proper.
Qed.

Lemma viewable_order a b : a ≡ b → viewable a = viewable b.
Proof.
  intros (Hs & Ht%expressionsOrEmpty_proper & _). unfold viewable, shown.
  rewrite Hs. by apply forallb_Permutation.
Qed.

Lemma rerender_order a b : a ≡ b → rerender a ≡ rerender b.
Proof.
  intros Hab. unfold rerender. rewrite (viewable_order a b Hab).
  destruct (viewable b); by constructor.
Qed.

Lemma commit_order a b : idsOk (table a) → a ≡ b → commit a ≡ commit b.
Proof.
  intros Hnd Hab. unfold commit. rewrite (target_order a b Hnd Hab).
  destruct Hab as (Hs & Ht & Ho & Ha & Hn). rewrite <-Hs.
  destruct (negb _ || negb _); [done|].
  destruct (target b); [|done].
  destruct (truthy _); split_and!; simpl; try done.
  - by destruct Ht as (_ & _ & -> & _); rewrite Ho.
  - by rewrite Ha, Hn.
Qed.

Lemma tick_order ms a b : a ≡ b → tick ms a ≡ tick ms b.
Proof.
  intros (Hs & Ht & Ho & Ha & Hn). unfold tick. rewrite <-Ha, <-Hn.
  by destruct (existsb _ _).
Qed.

(** A gesture takes states with the same records to states with the same
    records. *)
Lemma astep_order ev a b :
  idsOk (table a) → isGesture ev = true → a ≡ b →
  astep ev a ≡ astep ev b.
Proof.
  intros Hnd Hg Hab. pose proof Hab as (Hs & Ht & Ho & Ha & Hn).
  destruct ev as [[r|text| | |r|r]|key|ms|p|el]; simpl; [..|done|].
  - apply Some_Forall2. split_and!; simpl; [done..|by rewrite Ho|done|done].
  - apply rerender_order. split_and!; simpl; [by rewrite Hs|done..].
  - apply rerender_order. by split_and!.
  - by apply rerender_order, commit_order.
  - apply rerender_order. by split_and!.
  - apply Some_Forall2. split_and!; simpl; [done..|by rewrite Ho|done|done].
  - by apply Some_Forall2.
  - by apply rerender_order, tick_order.
  - by apply Some_Forall2.
Qed.

(** So do new props with the same records. *)
Lemma astep_props_order p q a b :
  p ≡ q → a ≡ b → astep (EvProps p) a ≡ astep (EvProps q) b.
Proof.
  intros Hpq (Hs & Ht & Ho & Ha & Hn). apply rerender_order.
  by split_and!.
Qed.

(** What a gesture leaves alone. *)
Lemma astep_table ev a a' :
  isGesture ev = true → astep ev a = Some a' → table a' = table a.
Proof.
  intros Hg. destruct ev as [[r|text| | |r|r]|key|ms|p|el]; simpl;
    try done; unfold rerender, commit, tick;
    repeat case_match; by intros [= <-].
Qed.
End order.

(** ** Two stores *)

Section stores.
Context `{Env} (S1 S2 : Store) (L1 : @StoreLaws S1) (L2 : @StoreLaws S2).
Implicit Types (a b : Abs) (ev : Event).

(** One turn of the controller with either store around it. *)
Lemma aclosedStep_order ev a b :
  idsOk (table a) → isGesture ev = true → a ≡ b →
  @aclosedStep _ S1 ev a ≡ @aclosedStep _ S2 ev b.
Proof.
  intros Hnd Hg Hab. unfold aclosedStep.
  pose proof (astep_order ev a b Hnd Hg Hab) as Hstep.
  destruct Hab as (_ & _ & Ho & _).
  destruct (astep ev a) as [a'|] eqn:Ha, (astep ev b) as [b'|] eqn:Hb;
    inversion Hstep as [?? Hab'|]; simplify_eq/=; [|constructor].
  pose proof Hab' as (_ & Ht' & Ho' & _).
  replace (drop (length (outbox b)) (outbox b'))
    with (drop (length (outbox a)) (outbox a')) by (by rewrite Ho, Ho').
  destruct (drop _ _) as [|act acts]; [by constructor|].
  apply astep_props_order; [|done].
  apply answer_determined; [done|done| |done].
  by rewrite (astep_table ev a a').
Qed.

(** In the loop the ids stay unique. *)
Lemma aclosedStep_idsOk ev a a' :
  idsOk (table a) → isGesture ev = true →
  @aclosedStep _ S1 ev a = Some a' → idsOk (table a').
Proof.
  intros Hnd Hg. unfold aclosedStep.
  destruct (astep ev a) as [a1|] eqn:Ha; simpl; [|done].
  apply (astep_table ev a a1 Hg) in Ha as Ht.
  destruct (drop _ _) as [|act acts]; [by intros [= <-]; rewrite Ht|].
  unfold rerender. case_match; [|done]. intros [= <-]. simpl.
  apply answer_idsOk. by rewrite Ht.
Qed.

Lemma aclosedSteps_None (S : Store) evs : @aclosedSteps _ S evs None = None.
Proof. by induction evs. Qed.

(** The controller cannot tell two stores that satisfy the laws apart.
    From states with the same records, unique ids and the same session,
    the closed loops over the two stores stay in states with the same
    records and the same session, commands sent, teardowns scheduled and
    time, along any gestures; one has no next state when the other has
    none. *)
Theorem stores_agree evs a b :
  forallb isGesture evs = true → idsOk (table a) → a ≡ b →
  @aclosedSteps _ S1 evs (Some a) ≡ @aclosedSteps _ S2 evs (Some b).
Proof.
  revert a b. induction evs as [|ev evs IH]; intros a b Hevs Hnd Hab;
    [by constructor|].
  apply andb_true_iff in Hevs as [Hg Hevs].
  change (@aclosedSteps _ S1 evs (@aclosedStep _ S1 ev a)
          ≡ @aclosedSteps _ S2 evs (@aclosedStep _ S2 ev b)).
  pose proof (aclosedStep_order ev a b Hnd Hg Hab) as Hstep.
  pose proof (aclosedStep_idsOk ev a) as Hids.
  destruct (@aclosedStep _ S1 ev a) as [a'|],
    (@aclosedStep _ S2 ev b) as [b'|];
    inversion Hstep as [?? Hab'|]; simplify_eq.
  - apply IH; [done|by apply Hids|done].
  - rewrite !aclosedSteps_None. constructor.
Qed.

(** The same of what the table does: mounted on the same props with unique
    ids, the table shows the same records, is in the same session and has
    sent the same commands, whichever of the two stores answers. *)
Corollary tables_agree p d evs :
  idsOk p →
  @allowed _ S1 evs (mount p d) = true →
  @allowed _ S2 evs (mount p d) = true →
  forallb isGesture evs = true →
  absApp (@closedSteps _ S1 evs (mount p d))
  ≡ absApp (@closedSteps _ S2 evs (mount p d)).
Proof.
  intros Hnd Hal1 Hal2 Hevs. pose proof (mount_wf p d) as Hwf.
  rewrite !closedSteps_refine by done.
  destruct (mount p d) as [w|w] eqn:Hm; simpl.
  - apply stores_agree; [done| |done]. unfold mount in Hm.
    by destruct (render _ _); simplify_eq.
  - rewrite !aclosedSteps_None. constructor.
Qed.
End stores.

(** * The two stores on the sample table *)

#[local] Existing Instance sampleEnv.

(** After a save, [moveStore] has the record that was edited at the end of
    the table, [listStore] in its place. *)
Example stores_differ_in_order :
  let evs := [EvMsg (MsgEditStart rule1); EvMsg (MsgChange "example.org");
              EvMsg MsgEditSave] in
  let rule1' := withExpression "example.org" "firefox-container-1" rule1 in
  (table <$> absApp (@closedSteps _ listStore evs
                       (mount sampleProps sampleDocument)))
  = Some echoed
  ∧ (expressions ∘ table <$>
       absApp (@closedSteps _ moveStore evs
                 (mount sampleProps sampleDocument)))
    = Some (Some [rule2; rule1']).
Proof. by vm_compute. Qed.

(** Along the sample run the table is in the same session and has sent
    the same commands with either store. *)
Example sample_tables_agree :
  absApp (@closedSteps _ listStore sampleRun
            (mount sampleProps sampleDocument))
  ≡ absApp (@closedSteps _ moveStore sampleRun
              (mount sampleProps sampleDocument)).
Proof.
  apply (tables_agree listStore moveStore listStore_laws moveStore_laws);
    [apply sampleProps_NoDup|by vm_compute..].
Qed.
